(** * RNS IRC bridge: a shallow embedding of the session-bridging engine

    The development follows the two programs of the repository,
    [rns-irc-client.py] (ingress role, [IRCClientBridge] and
    [ClientBridgedConnection]) and [rns-irc-server.py] (egress role,
    [IRCServerBridge] and [BridgedConnection]).

    - Python objects live in a store ([gmap] from object identity to record);
      the registry [self.clients] is a Python list of references, hence a
      [list] of identities in which order and duplicates are visible.
    - Calls into the operating system and into the RNS library are recorded
      in an event trace; what the environment answers (bytes arriving on a
      socket, whether a path is known, whether a connect succeeds) is part
      of the input.
    - Wall-clock time is a counter of milliseconds that only [time.sleep]
      advances. *)

From Stdlib Require Import ZArith Lia Ascii String Sorted.
From Equations Require Import Equations.
From stdpp Require Import gmap list strings.

Local Open Scope Z_scope.

(** ** Bytes and strings *)

(** A byte is its value in [0, 256). *)
Definition byte := N.
Definition bytes := list byte.

(** [s.replace(c, "")] for a one-character [c]: every occurrence is removed. *)
Fixpoint remove_char (c : ascii) (s : string) : string :=
  match s with
  | EmptyString => EmptyString
  | String a r =>
      if Ascii.eqb a c then remove_char c r else String a (remove_char c r)
  end.

(** Value of one hexadecimal digit, as [bytes.fromhex] reads it. *)
Definition hex_digit (a : ascii) : option N :=
  let n := N_of_ascii a in
  if ((48 <=? n) && (n <=? 57))%N then Some (n - 48)%N
  else if ((97 <=? n) && (n <=? 102))%N then Some (n - 87)%N
  else if ((65 <=? n) && (n <=? 70))%N then Some (n - 55)%N
  else None.

(** ASCII whitespace, skipped by [bytes.fromhex] between two bytes. *)
Definition is_ascii_space (a : ascii) : bool :=
  let n := N_of_ascii a in
  (((9 <=? n) && (n <=? 13)) || (n =? 32))%N.

(** [bytes.fromhex(s)]; [None] stands for the [ValueError] it raises. *)
Fixpoint fromhex (s : string) : option bytes :=
  match s with
  | EmptyString => Some []
  | String a r =>
      if is_ascii_space a then fromhex r
      else match r with
           | EmptyString => None
           | String b r' =>
               match hex_digit a, hex_digit b with
               | Some h, Some l =>
                   match fromhex r' with
                   | Some bs => Some ((16 * h + l)%N :: bs)
                   | None => None
                   end
               | _, _ => None
               end
           end
  end.

(** ** Objects and events *)

(** Python object identities. *)
Definition sock_id := nat.
Definition link_id := nat.
Definition conn_id := nat.

(** What the peer of a TCP socket does next, as [recv] sees it: some bytes
    become readable ([Data []] is the peer's half-close, after which [recv]
    returns [b""]), or the connection breaks and [recv] raises. *)
Inductive arrival :=
| Data (d : bytes)
| Reset.

(** A TCP socket. [sock_in] is what will arrive, in order; an empty
    [sock_in] on an open socket means [recv] blocks. [sock_budget] is how
    many more bytes the peer takes before sending fails ([None]: it never
    fails). [sock_out] is every byte sent so far. *)
Record socket := {
  sock_closed : bool;
  sock_in : list arrival;
  sock_budget : option nat;
  sock_out : bytes }.

(** [RNS.Link] status values. *)
Inductive link_status := PENDING | HANDSHAKE | ACTIVE | STALE | CLOSED.

Definition is_active (s : link_status) : bool :=
  match s with ACTIVE => true | _ => false end.

(** The buffered reader/writer pair that
    [RNS.Buffer.create_bidirectional_buffer] returns. [buf_pending] is
    written and not yet flushed, [buf_out] is what was flushed to the
    channel, [buf_in] is what the remote side sent and nobody read yet;
    [buf_fails] says that the channel under the buffer raises (link gone). *)
Record rns_buffer := {
  buf_closed : bool;
  buf_fails : bool;
  buf_pending : bytes;
  buf_out : bytes;
  buf_in : bytes }.

(** A bridged connection. [ClientBridgedConnection] and [BridgedConnection]
    have the same fields ([tcp_sock] is [irc_sock] on the server) apart from
    the client's [_ready] and [_failed] flags, which the server never reads. *)
Record conn := {
  link : link_id;
  tcp_sock : sock_id;
  buffer : option rns_buffer;
  running : bool;
  ready : bool;
  failed : bool }.

Inductive lock :=
| ClientsLock
| BufferLock (c : conn_id).

(** Calls that leave the program, and the points where a lock is taken or
    released and where the registry is mutated. *)
Inductive event :=
| EvAcquire (l : lock)
| EvRelease (l : lock)
| EvSockRecv (s : sock_id) (r : option bytes)
| EvSockSendall (s : sock_id) (d : bytes)
| EvSockClose (s : sock_id)
| EvSockConnect (ok : bool)
| EvBufCreate (c : conn_id)
| EvBufWrite (c : conn_id) (d : bytes)
| EvBufFlush (c : conn_id)
| EvBufRead (c : conn_id) (n : nat)
| EvBufClose (c : conn_id)
| EvLinkCreate (l : link_id)
| EvLinkSetEstablishedCallback (l : link_id)
| EvLinkSetClosedCallback (l : link_id)
| EvLinkTeardown (l : link_id)
| EvThreadStart (c : conn_id)
| EvRegAppend (c : conn_id)
| EvRegRemove (c : conn_id)
| EvRegClear
| EvReticulumInit
| EvRequestPath
| EvListenerOpen
| EvListenerBind
| EvListenerClose.

(** The bridge object with everything it can reach. [clients] is
    [self.clients]; [listen_sock] tells whether the listener exists. *)
Record world := {
  socks : gmap sock_id socket;
  links : gmap link_id link_status;
  conns : gmap conn_id conn;
  clients : list conn_id;
  listen_sock : bool;
  bridge_running : bool;
  trace : list event }.

Definition set_socks (f : gmap sock_id socket -> gmap sock_id socket) (w : world) : world :=
  {| socks := f (socks w); links := links w; conns := conns w;
     clients := clients w; listen_sock := listen_sock w;
     bridge_running := bridge_running w; trace := trace w |}.

Definition set_links (f : gmap link_id link_status -> gmap link_id link_status) (w : world) : world :=
  {| socks := socks w; links := f (links w); conns := conns w;
     clients := clients w; listen_sock := listen_sock w;
     bridge_running := bridge_running w; trace := trace w |}.

Definition set_conns (f : gmap conn_id conn -> gmap conn_id conn) (w : world) : world :=
  {| socks := socks w; links := links w; conns := f (conns w);
     clients := clients w; listen_sock := listen_sock w;
     bridge_running := bridge_running w; trace := trace w |}.

Definition set_clients (f : list conn_id -> list conn_id) (w : world) : world :=
  {| socks := socks w; links := links w; conns := conns w;
     clients := f (clients w); listen_sock := listen_sock w;
     bridge_running := bridge_running w; trace := trace w |}.

Definition set_listen_sock (b : bool) (w : world) : world :=
  {| socks := socks w; links := links w; conns := conns w;
     clients := clients w; listen_sock := b;
     bridge_running := bridge_running w; trace := trace w |}.

Definition set_bridge_running (b : bool) (w : world) : world :=
  {| socks := socks w; links := links w; conns := conns w;
     clients := clients w; listen_sock := listen_sock w;
     bridge_running := b; trace := trace w |}.

Definition emit (e : event) (w : world) : world :=
  {| socks := socks w; links := links w; conns := conns w;
     clients := clients w; listen_sock := listen_sock w;
     bridge_running := bridge_running w; trace := trace w ++ [e] |}.

Definition set_running (b : bool) (cn : conn) : conn :=
  {| link := link cn; tcp_sock := tcp_sock cn; buffer := buffer cn;
     running := b; ready := ready cn; failed := failed cn |}.

Definition set_ready (b : bool) (cn : conn) : conn :=
  {| link := link cn; tcp_sock := tcp_sock cn; buffer := buffer cn;
     running := running cn; ready := b; failed := failed cn |}.

Definition set_failed (b : bool) (cn : conn) : conn :=
  {| link := link cn; tcp_sock := tcp_sock cn; buffer := buffer cn;
     running := running cn; ready := ready cn; failed := b |}.

Definition set_buffer (b : option rns_buffer) (cn : conn) : conn :=
  {| link := link cn; tcp_sock := tcp_sock cn; buffer := b;
     running := running cn; ready := ready cn; failed := failed cn |}.

(** Result of a call that either returns or raises an [Exception]. *)
Inductive res (A : Type) :=
| Ok (a : A)
| Raise.
Arguments Ok {A} a.
Arguments Raise {A}.

(** ** The environment: sockets, buffers, links *)

Definition update_sock (s : sock_id) (sk : socket) (w : world) : world :=
  set_socks (insert s sk) w.

Definition update_conn (c : conn_id) (cn : conn) (w : world) : world :=
  set_conns (insert c cn) w.

Inductive recv_result :=
| RecvOk (d : bytes)
| RecvRaise
| RecvBlocks.

(** [sock.recv(cap)]: at most [cap] of the bytes that are readable; what is
    left of them stays readable. A closed or broken socket raises. *)
Definition sock_recv (cap : nat) (s : sock_id) (w : world) : recv_result * world :=
  match socks w !! s with
  | None => (RecvRaise, w)
  | Some sk =>
      if sock_closed sk then (RecvRaise, emit (EvSockRecv s None) w)
      else
        match sock_in sk with
        | [] => (RecvBlocks, w)
        | Reset :: rest =>
            (RecvRaise,
             emit (EvSockRecv s None)
               (update_sock s
                  {| sock_closed := false; sock_in := rest;
                     sock_budget := sock_budget sk; sock_out := sock_out sk |} w))
        | Data d :: rest =>
            let rest' := match drop cap d with
                         | [] => rest
                         | r => Data r :: rest
                         end in
            (RecvOk (take cap d),
             emit (EvSockRecv s (Some (take cap d)))
               (update_sock s
                  {| sock_closed := false; sock_in := rest';
                     sock_budget := sock_budget sk; sock_out := sock_out sk |} w))
        end
  end.

(** [sock.sendall(d)]: all of [d] is sent, or an exception is raised after
    as many bytes as the peer still took. *)
Definition sock_sendall (s : sock_id) (d : bytes) (w : world) : res unit * world :=
  match socks w !! s with
  | None => (Raise, w)
  | Some sk =>
      if sock_closed sk then (Raise, emit (EvSockSendall s d) w)
      else
        match sock_budget sk with
        | None =>
            (Ok tt,
             emit (EvSockSendall s d)
               (update_sock s
                  {| sock_closed := false; sock_in := sock_in sk;
                     sock_budget := None; sock_out := sock_out sk ++ d |} w))
        | Some k =>
            if (length d <=? k)%nat then
              (Ok tt,
               emit (EvSockSendall s d)
                 (update_sock s
                    {| sock_closed := false; sock_in := sock_in sk;
                       sock_budget := Some (k - length d)%nat;
                       sock_out := sock_out sk ++ d |} w))
            else
              (Raise,
               emit (EvSockSendall s d)
                 (update_sock s
                    {| sock_closed := false; sock_in := sock_in sk;
                       sock_budget := Some 0%nat;
                       sock_out := sock_out sk ++ take k d |} w))
        end
  end.

(** [sock.close()]; closing twice is allowed. *)
Definition sock_close (s : sock_id) (w : world) : world :=
  emit (EvSockClose s)
    (match socks w !! s with
     | None => w
     | Some sk =>
         update_sock s
           {| sock_closed := true; sock_in := sock_in sk;
              sock_budget := sock_budget sk; sock_out := sock_out sk |} w
     end).

Definition new_buffer : rns_buffer :=
  {| buf_closed := false; buf_fails := false;
     buf_pending := []; buf_out := []; buf_in := [] |}.

(** [self.buffer.write(d)]: [d] is buffered; [self.buffer] may still be
    [None], or the buffer closed, and then the call raises. *)
Definition buf_write (c : conn_id) (d : bytes) (w : world) : res unit * world :=
  match conns w !! c with
  | None => (Raise, w)
  | Some cn =>
      match buffer cn with
      | None => (Raise, w)
      | Some b =>
          if buf_closed b then (Raise, emit (EvBufWrite c d) w)
          else
            (Ok tt,
             emit (EvBufWrite c d)
               (update_conn c
                  (set_buffer
                     (Some {| buf_closed := false; buf_fails := buf_fails b;
                              buf_pending := buf_pending b ++ d;
                              buf_out := buf_out b; buf_in := buf_in b |}) cn) w))
      end
  end.

(** [self.buffer.flush()]: what is pending goes to the channel. *)
Definition buf_flush (c : conn_id) (w : world) : res unit * world :=
  match conns w !! c with
  | None => (Raise, w)
  | Some cn =>
      match buffer cn with
      | None => (Raise, w)
      | Some b =>
          if buf_closed b || buf_fails b then (Raise, emit (EvBufFlush c) w)
          else
            (Ok tt,
             emit (EvBufFlush c)
               (update_conn c
                  (set_buffer
                     (Some {| buf_closed := false; buf_fails := false;
                              buf_pending := [];
                              buf_out := buf_out b ++ buf_pending b;
                              buf_in := buf_in b |}) cn) w))
      end
  end.

(** [self.buffer.read(n)]: the first [n] bytes that the remote side sent. *)
Definition buf_read (c : conn_id) (n : nat) (w : world) : res bytes * world :=
  match conns w !! c with
  | None => (Raise, w)
  | Some cn =>
      match buffer cn with
      | None => (Raise, w)
      | Some b =>
          if buf_closed b then (Raise, emit (EvBufRead c n) w)
          else
            (Ok (take n (buf_in b)),
             emit (EvBufRead c n)
               (update_conn c
                  (set_buffer
                     (Some {| buf_closed := false; buf_fails := buf_fails b;
                              buf_pending := buf_pending b;
                              buf_out := buf_out b;
                              buf_in := drop n (buf_in b) |}) cn) w))
      end
  end.

(** [self.buffer.close()]; what is still pending is not delivered. *)
Definition buf_close (c : conn_id) (w : world) : world :=
  emit (EvBufClose c)
    (match conns w !! c with
     | None => w
     | Some cn =>
         match buffer cn with
         | None => w
         | Some b =>
             update_conn c
               (set_buffer
                  (Some {| buf_closed := true; buf_fails := buf_fails b;
                           buf_pending := buf_pending b;
                           buf_out := buf_out b; buf_in := buf_in b |}) cn) w
         end
     end).

(** [link.teardown()]. *)
Definition link_teardown (l : link_id) (w : world) : world :=
  emit (EvLinkTeardown l) (set_links (insert l CLOSED) w).

Definition link_is_active (l : link_id) (w : world) : bool :=
  match links w !! l with
  | Some s => is_active s
  | None => false
  end.

(** ** The bridged connection (both roles) *)

(** The literal of [self.tcp_sock.recv(4096)] and [self.irc_sock.recv(4096)]. *)
Definition RECV_CAP : nat := 4096.

(** [stop(self)] of [ClientBridgedConnection] and [BridgedConnection]: the
    three best-effort steps swallow their exceptions, so each is just the
    call. *)
Definition stop (c : conn_id) (w : world) : world :=
  match conns w !! c with
  | None => w
  | Some cn =>
      if negb (running cn) then w
      else
        let w1 := update_conn c (set_running false cn) w in
        let w2 := sock_close (tcp_sock cn) w1 in
        let w3 := match buffer cn with
                  | Some _ => buf_close c w2
                  | None => w2
                  end in
        if link_is_active (link cn) w3 then link_teardown (link cn) w3 else w3
  end.

Definition is_running (c : conn_id) (w : world) : bool :=
  match conns w !! c with
  | Some cn => running cn
  | None => false
  end.

(** [_rns_data_ready(self, ready_bytes)]. *)
Definition rns_data_ready (c : conn_id) (ready_bytes : nat) (w : world) : world :=
  match conns w !! c with
  | None => w
  | Some cn =>
      if negb (running cn) then w
      else
        let w1 := emit (EvAcquire (BufferLock c)) w in
        let '(r, w2) := buf_read c ready_bytes w1 in
        let w3 := emit (EvRelease (BufferLock c)) w2 in
        match r with
        | Raise => stop c w3
        | Ok [] => w3
        | Ok data =>
            match sock_sendall (tcp_sock cn) data w3 with
            | (Ok _, w4) => w4
            | (Raise, w4) => stop c w4
            end
        end
  end.

(** How the [while] loop of [_tcp_to_rns_loop] ends: by [break] or a false
    [self.running], by an exception, or not at all because [recv] blocks. *)
Inductive pump_end :=
| PumpExit
| PumpRaise
| PumpBlocks.

(** One round of the [while] loop of [_tcp_to_rns_loop]: the loop ends
    ([inl]) or goes round again ([inr]). *)
Definition pump_body (c : conn_id) (w : world) : (pump_end * world) + world :=
  match conns w !! c with
  | None => inl (PumpRaise, w)
  | Some cn =>
      if negb (running cn) then inl (PumpExit, w)
      else
        match sock_recv RECV_CAP (tcp_sock cn) w with
        | (RecvBlocks, w1) => inl (PumpBlocks, w1)
        | (RecvRaise, w1) => inl (PumpRaise, w1)
        | (RecvOk [], w1) => inl (PumpExit, w1)
        | (RecvOk data, w1) =>
            let w2 := emit (EvAcquire (BufferLock c)) w1 in
            match buf_write c data w2 with
            | (Raise, w3) => inl (PumpRaise, emit (EvRelease (BufferLock c)) w3)
            | (Ok _, w3) =>
                match buf_flush c w3 with
                | (Raise, w4) => inl (PumpRaise, emit (EvRelease (BufferLock c)) w4)
                | (Ok _, w4) => inr (emit (EvRelease (BufferLock c)) w4)
                end
            end
        end
  end.

(** The [try] body of [_tcp_to_rns_loop]; [None] when [fuel] rounds were
    not enough. *)
Fixpoint pump (fuel : nat) (c : conn_id) (w : world) : option (pump_end * world) :=
  match fuel with
  | O => None
  | S fuel' =>
      match pump_body c w with
      | inl r => Some r
      | inr w' => pump fuel' c w'
      end
  end.

(** Bytes and end markers still to arrive on a socket: a bound on the number
    of [recv] calls that return. *)
Definition arrival_size (a : arrival) : nat :=
  match a with
  | Data d => S (length d)
  | Reset => 1
  end.

Definition pending_size (l : list arrival) : nat :=
  foldr (fun a n => (arrival_size a + n)%nat) 0%nat l.

Definition sock_pending (c : conn_id) (w : world) : nat :=
  match conns w !! c with
  | None => 0%nat
  | Some cn =>
      match socks w !! tcp_sock cn with
      | None => 0%nat
      | Some sk => pending_size (sock_in sk)
      end
  end.

(** [_tcp_to_rns_loop(self)]: the loop, then [finally: self.stop()]. A loop
    parked in [recv] has not reached [finally]. Each round that goes on
    takes at least one byte off the socket, so [S (sock_pending c w)]
    rounds are always enough and the last case never arises. *)
Definition tcp_to_rns_loop (c : conn_id) (w : world) : pump_end * world :=
  match pump (S (sock_pending c w)) c w with
  | Some (PumpBlocks, w') => (PumpBlocks, w')
  | Some (e, w') => (e, stop c w')
  | None => (PumpBlocks, w)
  end.

(** ** The registry [self.clients] *)

Definition fresh_id {A} (m : gmap nat A) : nat := fresh (dom m).

(** [l.remove(c)]: the first occurrence goes. *)
Fixpoint remove_first (c : conn_id) (l : list conn_id) : list conn_id :=
  match l with
  | [] => []
  | x :: r => if decide (x = c) then r else x :: remove_first c r
  end.

(** [with self.clients_lock: self.clients.append(conn)]. *)
Definition registry_append (c : conn_id) (w : world) : world :=
  let w1 := emit (EvAcquire ClientsLock) w in
  let w2 := emit (EvRegAppend c) (set_clients (fun l => l ++ [c]) w1) in
  emit (EvRelease ClientsLock) w2.

(** [for conn in list(self.clients): conn.stop()] over the snapshot [cs]. *)
Definition stop_all (cs : list conn_id) (w : world) : world :=
  foldl (fun w' c => stop c w') w cs.

(** The locked block that ends both [shutdown] methods. *)
Definition registry_drain (w : world) : world :=
  let w1 := emit (EvAcquire ClientsLock) w in
  let w2 := stop_all (clients w1) w1 in
  let w3 := emit EvRegClear (set_clients (fun _ => []) w2) in
  emit (EvRelease ClientsLock) w3.

(** ** Ingress: [ClientBridgedConnection] and [IRCClientBridge] *)

Module ClientBridgedConnection.

(** [__init__(self, link, tcp_sock, addr)]. *)
Definition init (l : link_id) (s : sock_id) : conn :=
  {| link := l; tcp_sock := s; buffer := None;
     running := true; ready := false; failed := false |}.

Definition is_ready (c : conn_id) (w : world) : bool :=
  match conns w !! c with
  | Some cn => ready cn
  | None => false
  end.

Definition is_failed (c : conn_id) (w : world) : bool :=
  match conns w !! c with
  | Some cn => failed cn
  | None => false
  end.

(** [link_established(self, link)]: buffer, pump thread, [_ready]. *)
Definition link_established (c : conn_id) (w : world) : world :=
  match conns w !! c with
  | None => w
  | Some cn =>
      let w1 := emit (EvBufCreate c)
                  (update_conn c (set_buffer (Some new_buffer) cn) w) in
      let w2 := emit (EvThreadStart c) w1 in
      update_conn c (set_ready true (set_buffer (Some new_buffer) cn)) w2
  end.

(** [link_closed(self, link)]. *)
Definition link_closed (c : conn_id) (w : world) : world :=
  match conns w !! c with
  | None => w
  | Some cn => stop c (update_conn c (set_failed true cn) w)
  end.

End ClientBridgedConnection.

(** What other threads do while a handler sleeps: the transport reports on a
    link, a pump thread runs, bytes arrive from either side, a channel
    breaks. *)
Inductive activity :=
| LinkEstablished (c : conn_id)
| LinkClosed (c : conn_id)
| PumpRuns (c : conn_id)
| RemoteSends (c : conn_id) (d : bytes)
| PeerSends (s : sock_id) (a : arrival)
| ChannelBreaks (c : conn_id).

(** The transport sets the status of the link of [c]. *)
Definition set_link_status (c : conn_id) (st : link_status) (w : world) : world :=
  match conns w !! c with
  | None => w
  | Some cn => set_links (insert (link cn) st) w
  end.

(** Bytes from the remote side reach the buffer of [c]. *)
Definition buf_receive (c : conn_id) (d : bytes) (w : world) : world :=
  match conns w !! c with
  | None => w
  | Some cn =>
      match buffer cn with
      | None => w
      | Some b =>
          update_conn c
            (set_buffer
               (Some {| buf_closed := buf_closed b; buf_fails := buf_fails b;
                        buf_pending := buf_pending b; buf_out := buf_out b;
                        buf_in := buf_in b ++ d |}) cn) w
      end
  end.

(** The channel delivers [d] and fires the readiness callback with the
    number of bytes that became available. *)
Definition remote_sends (c : conn_id) (d : bytes) (w : world) : world :=
  rns_data_ready c (length d) (buf_receive c d w).

Definition peer_sends (s : sock_id) (a : arrival) (w : world) : world :=
  match socks w !! s with
  | None => w
  | Some sk =>
      update_sock s
        {| sock_closed := sock_closed sk; sock_in := sock_in sk ++ [a];
           sock_budget := sock_budget sk; sock_out := sock_out sk |} w
  end.

Definition channel_breaks (c : conn_id) (w : world) : world :=
  match conns w !! c with
  | None => w
  | Some cn =>
      match buffer cn with
      | None => w
      | Some b =>
          update_conn c
            (set_buffer
               (Some {| buf_closed := buf_closed b; buf_fails := true;
                        buf_pending := buf_pending b; buf_out := buf_out b;
                        buf_in := buf_in b |}) cn) w
      end
  end.

Definition run_activity (a : activity) (w : world) : world :=
  match a with
  | LinkEstablished c =>
      ClientBridgedConnection.link_established c (set_link_status c ACTIVE w)
  | LinkClosed c =>
      ClientBridgedConnection.link_closed c (set_link_status c CLOSED w)
  | PumpRuns c => snd (tcp_to_rns_loop c w)
  | RemoteSends c d => remote_sends c d w
  | PeerSends s a => peer_sends s a w
  | ChannelBreaks c => channel_breaks c w
  end.

Definition run_activities (l : list activity) (w : world) : world :=
  foldl (fun w' a => run_activity a w') w l.

Module IRCClientBridge.

(** [timeout = 30] and [time.sleep(0.1)] of [_handle_client], in
    milliseconds. *)
Definition LINK_TIMEOUT : Z := 30000.
Definition LINK_POLL : Z := 100.

(** The wait loop of [_handle_client]. [elapsed] is
    [time.time() - start]; [env t] is what the other threads do during
    the sleep that starts at [t]. *)
Equations? wait_link (env : Z -> list activity) (c : conn_id)
    (elapsed : Z) (w : world) : world
  by wf (Z.to_nat (LINK_TIMEOUT - elapsed)) lt :=
  wait_link env c elapsed w with Z_lt_dec elapsed LINK_TIMEOUT => {
    | right _ => w;
    | left _ with ClientBridgedConnection.is_ready c w
                  || ClientBridgedConnection.is_failed c w => {
        | true => w;
        | false =>
            wait_link env c (elapsed + LINK_POLL) (run_activities (env elapsed) w) } }.
Proof. unfold LINK_TIMEOUT, LINK_POLL in *. lia. Qed.

(** [_handle_client] from [RNS.Link(...)] to the two callbacks: the
    connection object exists and is registered before the link is up. *)
Definition handle_client_setup (client_sock : sock_id) (w : world) : conn_id * world :=
  let l := fresh_id (links w) in
  let w1 := emit (EvLinkCreate l) (set_links (insert l PENDING) w) in
  let c := fresh_id (conns w1) in
  let w2 := update_conn c (ClientBridgedConnection.init l client_sock) w1 in
  let w3 := registry_append c w2 in
  let w4 := emit (EvLinkSetEstablishedCallback l) w3 in
  (c, emit (EvLinkSetClosedCallback l) w4).

(** [_handle_client] after the wait. *)
Definition handle_client_finish (c : conn_id) (w : world) : world :=
  if ClientBridgedConnection.is_ready c w then w
  else
    let w1 := stop c w in
    let w2 := emit (EvAcquire ClientsLock) w1 in
    let w3 := if bool_decide (c ∈ clients w2)
              then emit (EvRegRemove c) (set_clients (remove_first c) w2)
              else w2 in
    emit (EvRelease ClientsLock) w3.

(** [_handle_client(self, client_sock, addr)]; [identity_known] is whether
    [RNS.Identity.recall] returns an identity. *)
Definition handle_client (identity_known : bool) (env : Z -> list activity)
    (client_sock : sock_id) (w : world) : world :=
  if negb identity_known then sock_close client_sock w
  else
    let '(c, w1) := handle_client_setup client_sock w in
    handle_client_finish c (wait_link env c 0 w1).

(** [shutdown(self)]. *)
Definition shutdown (w : world) : world :=
  let w1 := set_bridge_running false w in
  let w2 := if listen_sock w1 then emit EvListenerClose w1 else w1 in
  registry_drain w2.

End IRCClientBridge.

(** ** Egress: [BridgedConnection] and [IRCServerBridge] *)

Module BridgedConnection.

(** [__init__(self, link, irc_sock, channel)]. *)
Definition init (l : link_id) (s : sock_id) : conn :=
  {| link := l; tcp_sock := s; buffer := None;
     running := false; ready := false; failed := false |}.

(** [start(self)]. *)
Definition start (c : conn_id) (w : world) : world :=
  match conns w !! c with
  | None => w
  | Some cn =>
      let w1 := emit (EvBufCreate c)
                  (update_conn c
                     (set_buffer (Some new_buffer) (set_running true cn)) w) in
      emit (EvThreadStart c) w1
  end.

End BridgedConnection.

Module IRCServerBridge.

(** [_link_established(self, link)]; [backend] is the connected socket,
    or [None] when creating or connecting it raised. *)
Definition link_established (backend : option socket) (l : link_id) (w : world) : world :=
  let w1 := emit (EvLinkSetClosedCallback l) w in
  match backend with
  | None => link_teardown l (emit (EvSockConnect false) w1)
  | Some sk =>
      let s := fresh_id (socks w1) in
      let w2 := emit (EvSockConnect true) (update_sock s sk w1) in
      let c := fresh_id (conns w2) in
      let w3 := update_conn c (BridgedConnection.init l s) w2 in
      let w4 := registry_append c w3 in
      BridgedConnection.start c w4
  end.

(** The scan of [_link_closed]: the first registered connection on [l]. *)
Fixpoint find_by_link (l : link_id) (cs : list conn_id) (w : world) : option conn_id :=
  match cs with
  | [] => None
  | c :: r =>
      match conns w !! c with
      | Some cn => if decide (link cn = l) then Some c else find_by_link l r w
      | None => find_by_link l r w
      end
  end.

(** [_link_closed(self, link)]. *)
Definition link_closed (l : link_id) (w : world) : world :=
  let w1 := emit (EvAcquire ClientsLock) w in
  let w2 := match find_by_link l (clients w1) w1 with
            | Some c =>
                emit (EvRegRemove c) (set_clients (remove_first c) (stop c w1))
            | None => w1
            end in
  emit (EvRelease ClientsLock) w2.

(** [shutdown(self)]. *)
Definition shutdown (w : world) : world :=
  registry_drain (set_bridge_running false w).

End IRCServerBridge.

(** ** Ingress startup: [IRCClientBridge.start] *)

(** The entries of the [client] section that [start] reads;
    [path_request_timeout] is in milliseconds. *)
Record config := {
  server_destination_hash : string;
  listen_host : string;
  listen_port : Z;
  path_request_timeout : Z }.

Inductive parsed_hash :=
| HashOk (h : bytes)
| HashBadLength
| HashValueError.

Inductive path_wait :=
| PathFound (t : Z)
| PathTimeout (t : Z).

(** How [start] leaves its preamble: [sys.exit(code)], an uncaught
    [ValueError] from [bytes.fromhex], or the accept loop. *)
Inductive start_outcome :=
| SysExit (code : Z)
| UncaughtValueError
| Serving (dest_hash : bytes).

(** Exit status of the process; an uncaught exception ends the interpreter
    with status 1. *)
Definition exit_status (o : start_outcome) : option Z :=
  match o with
  | SysExit code => Some code
  | UncaughtValueError => Some 1
  | Serving _ => None
  end.

(** [time.sleep(0.5)] of the path wait, in milliseconds. *)
Definition PATH_POLL : Z := 500.

(** The path wait of [start]: [elapsed] is [time.time() - start] and
    [path_at t] is what [RNS.Transport.has_path] answers at that time. *)
Equations? wait_for_path (timeout : Z) (path_at : Z -> bool) (elapsed : Z) : path_wait
  by wf (Z.to_nat (timeout + PATH_POLL - elapsed)) lt :=
  wait_for_path timeout path_at elapsed with path_at elapsed => {
    | true => PathFound elapsed;
    | false with Z_gt_dec (elapsed + PATH_POLL) timeout => {
        | left _ => PathTimeout (elapsed + PATH_POLL);
        | right _ => wait_for_path timeout path_at (elapsed + PATH_POLL) } }.
Proof. unfold PATH_POLL in *. lia. Qed.

Section Startup.

(** [RNS.Reticulum.TRUNCATED_HASHLENGTH], in bits; a constant of the
    transport library. *)
Variable TRUNCATED_HASHLENGTH : nat.

(** The block under [# Parse destination hash]. *)
Definition parse_destination_hash (configured : string) : parsed_hash :=
  let dest_hex := remove_char " " (remove_char ":" configured) in
  let dest_len := (TRUNCATED_HASHLENGTH / 8 * 2)%nat in
  if negb (String.length dest_hex =? dest_len)%nat then HashBadLength
  else match fromhex dest_hex with
       | Some h => HashOk h
       | None => HashValueError
       end.

(** [start(self)] up to the accept loop. *)
Definition start (cfg : config) (path_at : Z -> bool) (w : world) : start_outcome * world :=
  let w1 := set_bridge_running true w in
  match parse_destination_hash (server_destination_hash cfg) with
  | HashBadLength => (SysExit 1, w1)
  | HashValueError => (UncaughtValueError, w1)
  | HashOk h =>
      let w2 := emit EvReticulumInit w1 in
      let '(found, w3) :=
        if path_at 0 then (PathFound 0, w2)
        else (wait_for_path (path_request_timeout cfg) path_at 0,
              emit EvRequestPath w2) in
      match found with
      | PathTimeout _ => (SysExit 1, w3)
      | PathFound _ =>
          let w4 := emit EvListenerOpen w3 in
          let w5 := emit EvListenerBind w4 in
          (Serving h, set_listen_sock true w5)
      end
  end.

End Startup.

(** ** Concurrent callers of [stop] *)

(** Where a caller of [stop] stands: before the test of [self.running],
    before the assignment, before each of the three calls, or done. *)
Inductive stop_pc :=
| AtCheck
| AtClear
| AtSockClose
| AtBufClose
| AtTeardown
| AtReturn.

(** One step of one caller. Python may switch threads between any two of
    them: [stop] takes no lock. *)
Definition stop_step (c : conn_id) (pc : stop_pc) (w : world) : stop_pc * world :=
  match conns w !! c with
  | None => (AtReturn, w)
  | Some cn =>
      match pc with
      | AtCheck => if negb (running cn) then (AtReturn, w) else (AtClear, w)
      | AtClear => (AtSockClose, update_conn c (set_running false cn) w)
      | AtSockClose => (AtBufClose, sock_close (tcp_sock cn) w)
      | AtBufClose =>
          (AtTeardown,
           match buffer cn with
           | Some _ => buf_close c w
           | None => w
           end)
      | AtTeardown =>
          (AtReturn,
           if link_is_active (link cn) w then link_teardown (link cn) w else w)
      | AtReturn => (AtReturn, w)
      end
  end.

(** Callers of [stop] on [c], one program counter each; [sched] names the
    caller that takes each next step. *)
Fixpoint run_schedule (c : conn_id) (sched : list nat) (pcs : list stop_pc) (w : world)
  : list stop_pc * world :=
  match sched with
  | [] => (pcs, w)
  | i :: r =>
      match pcs !! i with
      | None => run_schedule c r pcs w
      | Some pc =>
          let '(pc', w') := stop_step c pc w in
          run_schedule c r (<[i := pc']> pcs) w'
      end
  end.

(** ** Overlapping readiness callbacks *)

(** Where a call of [_rns_data_ready] stands: before the test of
    [self.running], before the read under the buffer lock, after the lock
    is released with [data] in hand, in the [except] branch, or done. *)
Inductive ready_pc :=
| AtRunningTest (ready_bytes : nat)
| AtRead (ready_bytes : nat)
| AtSend (data : bytes)
| AtExcept
| AtDone.

(** One step of one call. The read is one step, as the buffer lock is held
    across it; [sendall] comes after [with self._buffer_lock] has ended, so
    another call may run between the read and the [sendall]. *)
Definition ready_step (c : conn_id) (pc : ready_pc) (w : world) : ready_pc * world :=
  match conns w !! c with
  | None => (AtDone, w)
  | Some cn =>
      match pc with
      | AtRunningTest n => if negb (running cn) then (AtDone, w) else (AtRead n, w)
      | AtRead n =>
          let w1 := emit (EvAcquire (BufferLock c)) w in
          let '(r, w2) := buf_read c n w1 in
          let w3 := emit (EvRelease (BufferLock c)) w2 in
          match r with
          | Raise => (AtExcept, w3)
          | Ok data => (AtSend data, w3)
          end
      | AtSend [] => (AtDone, w)
      | AtSend data =>
          match sock_sendall (tcp_sock cn) data w with
          | (Ok _, w4) => (AtDone, w4)
          | (Raise, w4) => (AtExcept, w4)
          end
      | AtExcept => (AtDone, stop c w)
      | AtDone => (AtDone, w)
      end
  end.

(** Calls of [_rns_data_ready] on [c], one program counter each; [sched]
    names the call that takes each next step. *)
Fixpoint run_callbacks (c : conn_id) (sched : list nat) (pcs : list ready_pc) (w : world)
  : list ready_pc * world :=
  match sched with
  | [] => (pcs, w)
  | i :: r =>
      match pcs !! i with
      | None => run_callbacks c r pcs w
      | Some pc =>
          let '(pc', w') := ready_step c pc w in
          run_callbacks c r (<[i := pc']> pcs) w'
      end
  end.

(** ** Reading traces *)

Global Instance lock_eq_dec : EqDecision lock.
Proof. solve_decision. Defined.

Global Instance event_eq_dec : EqDecision event.
Proof. solve_decision. Defined.

(** How often [e] was recorded. *)
Definition occurrences (e : event) (tr : list event) : nat :=
  length (filter (fun x => x = e) tr).

(** The events recorded while the registry lock is held; [held] tells
    whether it is held at the start. *)
Fixpoint under_clients_lock (held : bool) (tr : list event) : list event :=
  match tr with
  | [] => []
  | EvAcquire ClientsLock :: r => under_clients_lock true r
  | EvRelease ClientsLock :: r => under_clients_lock false r
  | e :: r =>
      if held then e :: under_clients_lock held r else under_clients_lock held r
  end.

(** Whether the registry lock is held after [tr]. *)
Fixpoint clients_lock_after (held : bool) (tr : list event) : bool :=
  match tr with
  | [] => held
  | EvAcquire ClientsLock :: r => clients_lock_after true r
  | EvRelease ClientsLock :: r => clients_lock_after false r
  | _ :: r => clients_lock_after held r
  end.

(** The calls that [stop] makes. *)
Definition is_teardown_call (e : event) : bool :=
  match e with
  | EvSockClose _ | EvBufClose _ | EvLinkTeardown _ => true
  | _ => false
  end.

(** Calls that move bytes or open a connection. *)
Definition is_transfer_call (e : event) : bool :=
  match e with
  | EvSockRecv _ _ | EvSockSendall _ _ | EvSockConnect _
  | EvBufWrite _ _ | EvBufFlush _ | EvBufRead _ _ => true
  | _ => false
  end.

(** The blocking calls: socket close, buffer close, link teardown, socket
    send and receive, and the rest of the transfers. *)
Definition is_blocking_io (e : event) : bool :=
  is_teardown_call e || is_transfer_call e.

Definition is_registry_mutation (e : event) : bool :=
  match e with
  | EvRegAppend _ | EvRegRemove _ | EvRegClear => true
  | _ => false
  end.

(** The non-empty chunks that [recv] on [s] returned, in order. *)
Fixpoint chunks_read (s : sock_id) (tr : list event) : list bytes :=
  match tr with
  | [] => []
  | EvSockRecv s' (Some (b :: d)) :: r =>
      if decide (s' = s) then (b :: d) :: chunks_read s r else chunks_read s r
  | _ :: r => chunks_read s r
  end.

(** The chunks passed to [write] on the buffer of [c], in order. *)
Fixpoint chunks_written (c : conn_id) (tr : list event) : list bytes :=
  match tr with
  | [] => []
  | EvBufWrite c' d :: r =>
      if decide (c' = c) then d :: chunks_written c r else chunks_written c r
  | _ :: r => chunks_written c r
  end.

(** The chunks passed to [sendall] on [s], in order. *)
Fixpoint chunks_sent (s : sock_id) (tr : list event) : list bytes :=
  match tr with
  | [] => []
  | EvSockSendall s' d :: r =>
      if decide (s' = s) then d :: chunks_sent s r else chunks_sent s r
  | _ :: r => chunks_sent s r
  end.

(** ** Notions used in the statements and proofs *)

(** The calls of one teardown of [cn] in world [w]. *)
Definition teardown_calls (c : conn_id) (cn : conn) (w : world) : list event :=
  [EvSockClose (tcp_sock cn)]
  ++ (if buffer cn is Some _ then [EvBufClose c] else [])
  ++ (if link_is_active (link cn) w then [EvLinkTeardown (link cn)] else []).

(** Events of the connection level: no registry lock, no registry
    mutation. *)
Definition is_quiet (e : event) : bool :=
  match e with
  | EvAcquire ClientsLock | EvRelease ClientsLock => false
  | _ => negb (is_registry_mutation e)
  end.

(** What a step of the program keeps of a connection object: its socket
    and link, and its [running] flag unless the step closed the socket. *)
Definition conn_frame (evs : list event) (cn cn' : conn) : Prop :=
  tcp_sock cn' = tcp_sock cn /\ link cn' = link cn /\
  (running cn' = running cn
   \/ (running cn' = false /\ EvSockClose (tcp_sock cn) ∈ evs)).

(** [w'] comes from [w] by steps that record [evs], leave the registry
    alone and keep every connection object. *)
Record evolves (w w' : world) (evs : list event) : Prop := {
  ev_clients : clients w' = clients w;
  ev_trace : trace w' = trace w ++ evs;
  ev_conns : forall c cn, conns w !! c = Some cn ->
             exists cn', conns w' !! c = Some cn' /\ conn_frame evs cn cn' }.

Definition steps (P : event -> bool) (w w' : world) : Prop :=
  exists evs, evolves w w' evs /\ Forall (fun e => P e = true) evs.

(** The events recorded while the registry lock is not held. *)
Fixpoint outside_clients_lock (held : bool) (tr : list event) : list event :=
  match tr with
  | [] => []
  | EvAcquire ClientsLock :: r => outside_clients_lock true r
  | EvRelease ClientsLock :: r => outside_clients_lock false r
  | e :: r =>
      if held then outside_clients_lock held r else e :: outside_clients_lock held r
  end.

(** The discipline of the registry lock over a stretch of trace that starts
    with the lock free: the lock is free again at the end, what happens
    under it is a registry mutation or one of the calls of [stop], and the
    registry is not mutated outside it. *)
Definition lock_disciplined (evs : list event) : Prop :=
  clients_lock_after false evs = false
  /\ Forall (fun e => is_registry_mutation e || is_teardown_call e = true)
            (under_clients_lock false evs)
  /\ Forall (fun e => is_registry_mutation e = false)
            (outside_clients_lock false evs).

(** What a thread of either bridge runs: an ingress handler, a shutdown,
    an egress link callback, or something at the connection level. *)
Inductive bridge_op :=
| ClientHandle (identity_known : bool) (env : Z -> list activity) (client_sock : sock_id)
| ClientShutdown
| ServerLinkEstablished (backend : option socket) (l : link_id)
| ServerLinkClosed (l : link_id)
| ServerShutdown
| Background (a : activity).

Definition run_op (op : bridge_op) (w : world) : world :=
  match op with
  | ClientHandle known env s => IRCClientBridge.handle_client known env s w
  | ClientShutdown => IRCClientBridge.shutdown w
  | ServerLinkEstablished backend l => IRCServerBridge.link_established backend l w
  | ServerLinkClosed l => IRCServerBridge.link_closed l w
  | ServerShutdown => IRCServerBridge.shutdown w
  | Background a => run_activity a w
  end.

(** A string of hexadecimal digits. *)
Fixpoint is_hex_string (s : string) : bool :=
  match s with
  | EmptyString => true
  | String a r => if hex_digit a is Some _ then is_hex_string r else false
  end.

(** [formatted h s]: [s] is [h] with colons and spaces put in anywhere. *)
Inductive formatted : string -> string -> Prop :=
| formatted_nil : formatted EmptyString EmptyString
| formatted_keep a h s : formatted h s -> formatted (String a h) (String a s)
| formatted_colon h s : formatted h s -> formatted h (String ":" s)
| formatted_space h s : formatted h s -> formatted h (String " " s).

(** What one full round of the pump loop records for the chunk [d]. *)
Definition pump_round (c : conn_id) (s : sock_id) (d : bytes) : list event :=
  [EvSockRecv s (Some d); EvAcquire (BufferLock c); EvBufWrite c d;
   EvBufFlush c; EvRelease (BufferLock c)].

(** What the last, unfinished round of the pump loop records, and how the
    loop ends by it: [self.running] is false, [recv] blocks, [recv] returns
    [b""], [recv] raises, or the buffer raises on the chunk [d]. *)
Inductive pump_last (c : conn_id) (s : sock_id) : list event -> pump_end -> Prop :=
| last_not_running : pump_last c s [] PumpExit
| last_blocks : pump_last c s [] PumpBlocks
| last_empty_read : pump_last c s [EvSockRecv s (Some [])] PumpExit
| last_recv_error evs :
    evs = [] \/ evs = [EvSockRecv s None] -> pump_last c s evs PumpRaise
| last_buffer_error d calls :
    d <> [] -> (length d <= RECV_CAP)%nat ->
    calls = [] \/ calls = [EvBufWrite c d] \/ calls = [EvBufWrite c d; EvBufFlush c] ->
    pump_last c s
      ([EvSockRecv s (Some d); EvAcquire (BufferLock c)] ++ calls
       ++ [EvRelease (BufferLock c)]) PumpRaise.

(** What a run of the pump loop records: full rounds of non-empty chunks of
    at most [RECV_CAP] bytes, each written and flushed before the next
    [recv], then the round that ends the loop. *)
Inductive pump_run (c : conn_id) (s : sock_id) : list event -> pump_end -> Prop :=
| run_last evs e : pump_last c s evs e -> pump_run c s evs e
| run_round d evs e :
    d <> [] -> (length d <= RECV_CAP)%nat ->
    pump_run c s evs e -> pump_run c s (pump_round c s d ++ evs) e.

(** A buffer in working order with nothing pending. *)
Definition healthy (b : rns_buffer) : Prop :=
  buf_closed b = false /\ buf_fails b = false /\ buf_pending b = [].

(** The channel delivers the chunks [ds] one after the other. *)
Definition deliver_all (c : conn_id) (ds : list bytes) (w : world) : world :=
  foldl (fun w' d => remote_sends c d w') w ds.

Definition nonempty (d : bytes) : bool :=
  match d with
  | [] => false
  | _ => true
  end.

(** ** A small ingress world

    One established connection, object 0 on socket 0 and link 0, is
    registered; its client has sent three bytes and then closed. *)

Definition demo_sock : socket :=
  {| sock_closed := false; sock_in := [Data [80; 73; 78]%N; Data []];
     sock_budget := None; sock_out := [] |}.

Definition demo_conn : conn :=
  {| link := 0%nat; tcp_sock := 0%nat; buffer := Some new_buffer;
     running := true; ready := true; failed := false |}.

Definition demo_world : world :=
  {| socks := {[ 0%nat := demo_sock ]}; links := {[ 0%nat := ACTIVE ]};
     conns := {[ 0%nat := demo_conn ]}; clients := [0%nat];
     listen_sock := true; bridge_running := true; trace := [] |}.

(** [demo_world] after the channel has received two chunks, of two bytes
    and of one byte, for which the two readiness callbacks are due. *)
Definition demo_world_received : world :=
  buf_receive 0%nat [10]%N (buf_receive 0%nat [58; 115]%N demo_world).

(** The link of the next accepted client is reported closed during the
    first sleep of the handler (the handler's connection is object 1). *)
Definition demo_link_fails (t : Z) : list activity :=
  if t =? 0 then [LinkClosed 1%nat] else [].

Definition demo_config (hash : string) : config :=
  {| server_destination_hash := hash; listen_host := "127.0.0.1";
     listen_port := 6667; path_request_timeout := 30000 |}.

Definition demo_hash : string := "00112233445566778899aabbccddeeff".
Definition demo_hash_colons : string :=
  "00:11:22:33:44:55:66:77:88:99:aa:bb:cc:dd:ee:ff".

(** ** Notions used in the further properties *)

(** [w'] differs from [w] at most in the connection object [c], the
    socket [s] and the links. *)
Definition only_touches (c : conn_id) (s : sock_id) (w w' : world) : Prop :=
  (forall c', c' <> c -> conns w' !! c' = conns w !! c')
  /\ (forall s', s' <> s -> socks w' !! s' = socks w !! s').

(** How the pump loop ends on what follows the data on a socket: nothing
    more (it blocks), the peer's half-close, or a reset. *)
Definition stream_outcome (rest : list arrival) : pump_end :=
  match rest with
  | [] => PumpBlocks
  | Data _ :: _ => PumpExit
  | Reset :: _ => PumpRaise
  end.

(** [rest] does not start with more data. *)
Definition stream_ends (rest : list arrival) : Prop :=
  match rest with
  | Data (_ :: _) :: _ => False
  | _ => True
  end.

(** Number of ASCII whitespace characters in a string. *)
Fixpoint count_spaces (s : string) : nat :=
  match s with
  | EmptyString => 0%nat
  | String a r => ((if is_ascii_space a then 1 else 0) + count_spaces r)%nat
  end.

(** Every character is a hexadecimal digit or ASCII whitespace. *)
Fixpoint hex_or_space (s : string) : bool :=
  match s with
  | EmptyString => true
  | String a r =>
      (is_ascii_space a || (if hex_digit a is Some _ then true else false))
      && hex_or_space r
  end.

(** ** Configuration: the two [__init__] methods *)

(** The values a configuration entry takes here: [None], a string, an
    integer. *)
Inductive value :=
| VNone
| VStr (s : string)
| VInt (n : Z).

(** Python truth value. *)
Definition truthy (v : value) : bool :=
  match v with
  | VNone => false
  | VStr s => negb (bool_decide (s = EmptyString))
  | VInt n => negb (n =? 0)
  end.

(** What [yaml.safe_load] returns for a configuration file: [None] for an
    empty document, else a mapping from section names to sections, where a
    section without entries ([client:] alone) is [None]. *)
Definition yaml_doc : Type := option (gmap string (option (gmap string value))).

(** [DEFAULT_CONFIG] of [rns-irc-client.py]. *)
Definition CLIENT_DEFAULT_CONFIG : gmap string value :=
  <["server_destination_hash" := VNone]>
    (<["listen_host" := VStr "127.0.0.1"]>
       (<["listen_port" := VInt 6667]>
          (<["rns_configdir" := VNone]>
             (<["path_request_timeout" := VInt 30]> ∅)))).

(** [DEFAULT_CONFIG] of [rns-irc-server.py]. *)
Definition SERVER_DEFAULT_CONFIG : gmap string value :=
  <["identity_file" := VStr "~/.reticulum/irc_server_identity"]>
    (<["irc_host" := VStr "127.0.0.1"]>
       (<["irc_port" := VInt 6667]>
          (<["rns_configdir" := VNone]>
             (<["announce_interval" := VInt 600]> ∅)))).

(** [_load_config(self, path)] with the section name of the role:
    [data.get(section, {})]; an empty document has no [get]. *)
Definition load_config (section : string) (doc : yaml_doc)
  : res (option (gmap string value)) :=
  match doc with
  | None => Raise
  | Some data =>
      Ok (match data !! section with
          | Some sec => sec
          | None => Some ∅
          end)
  end.

(** [d.update(other)]: the entries of [other] win; [None] is not iterable. *)
Definition dict_update (d : gmap string value) (other : option (gmap string value))
  : res (gmap string value) :=
  match other with
  | None => Raise
  | Some o => Ok (o ∪ d)
  end.

(** The first lines of both [__init__]: the defaults, updated from the
    file when a path is given ([config_file] is its parsed content). *)
Definition merge_config (defaults : gmap string value) (section : string)
    (config_file : option yaml_doc) : res (gmap string value) :=
  match config_file with
  | None => Ok defaults
  | Some doc =>
      match load_config section doc with
      | Raise => Raise
      | Ok sec => dict_update defaults sec
      end
  end.

(** How [__init__] ends: the configuration, [sys.exit(code)], or an
    uncaught exception. *)
Inductive init_outcome :=
| InitOk (cfg : gmap string value)
| InitExit (code : Z)
| InitUncaught.

Definition get_truthy (cfg : gmap string value) (key : string) : bool :=
  match cfg !! key with
  | Some v => truthy v
  | None => false
  end.

(** [IRCClientBridge.__init__(self, config_path, dest_hash_override)]. *)
Definition client_init (config_file : option yaml_doc)
    (dest_hash_override : option string) : init_outcome :=
  match merge_config CLIENT_DEFAULT_CONFIG "client" config_file with
  | Raise => InitUncaught
  | Ok cfg1 =>
      let cfg2 := match dest_hash_override with
                  | Some o =>
                      if bool_decide (o = EmptyString) then cfg1
                      else <["server_destination_hash" := VStr o]> cfg1
                  | None => cfg1
                  end in
      if negb (get_truthy cfg2 "server_destination_hash") then InitExit 1
      else InitOk cfg2
  end.

(** [IRCServerBridge.__init__(self, config_path)]. *)
Definition server_init (config_file : option yaml_doc) : init_outcome :=
  match merge_config SERVER_DEFAULT_CONFIG "server" config_file with
  | Raise => InitUncaught
  | Ok cfg => InitOk cfg
  end.

(** The override that counts: a non-empty string. *)
Definition effective_override (o : option string) : option string :=
  match o with
  | Some s => if bool_decide (s = EmptyString) then None else Some s
  | None => None
  end.

(** ** Egress announces *)

(** [_announce_loop(self, interval)], started at time 0, for an interval
    that is positive (the only case in which [start] starts it). The
    bridge is running until [shutdown] at time [stop_at]; the result is
    the times of the announces sent. Times are in milliseconds. *)
Equations? announce_loop (interval : positive) (stop_at : Z) (elapsed : Z) : list Z
  by wf (Z.to_nat (stop_at - elapsed)) lt :=
  announce_loop interval stop_at elapsed with Z_lt_dec elapsed stop_at => {
    | right _ => [];
    | left _ with Z_lt_dec (elapsed + Z.pos interval) stop_at => {
        | left _ =>
            (elapsed + Z.pos interval)
              :: announce_loop interval stop_at (elapsed + Z.pos interval);
        | right _ => announce_loop interval stop_at (elapsed + Z.pos interval) } }.
Proof. all: lia. Qed.

(** The announces of [IRCServerBridge.start]: the one it sends itself, at
    time 0, and those of the announce thread, which it starts only for an
    interval greater than 0. *)
Definition start_announces (announce_interval : Z) (stop_at : Z) : list Z :=
  0 :: match announce_interval with
       | Z.pos p => announce_loop p stop_at 0
       | _ => []
       end.

(** The registry holds no object twice and only objects that exist. *)
Definition registry_ok (w : world) : Prop :=
  NoDup (clients w) /\ forall c, c ∈ clients w -> is_Some (conns w !! c).

(** Operations of the two bridges run one after the other. *)
Definition run_ops (ops : list bridge_op) (w : world) : world :=
  foldl (fun w' op => run_op op w') w ops.

(** ** Further examples *)

(** Two sessions side by side, each with its socket and its link. *)
Definition demo_conn_b : conn :=
  {| link := 1%nat; tcp_sock := 1%nat; buffer := Some new_buffer;
     running := true; ready := true; failed := false |}.

Definition demo_world_two : world :=
  {| socks := <[0%nat := demo_sock]> {[ 1%nat := demo_sock ]};
     links := <[0%nat := ACTIVE]> {[ 1%nat := ACTIVE ]};
     conns := <[0%nat := demo_conn]> {[ 1%nat := demo_conn_b ]};
     clients := [0%nat; 1%nat];
     listen_sock := false; bridge_running := true; trace := [] |}.

(** A socket that takes one more byte and then fails. *)
Definition demo_sock_limited : socket :=
  {| sock_closed := false; sock_in := []; sock_budget := Some 1%nat; sock_out := [] |}.

Definition demo_world_limited : world :=
  {| socks := {[ 0%nat := demo_sock_limited ]}; links := {[ 0%nat := ACTIVE ]};
     conns := {[ 0%nat := demo_conn ]}; clients := [0%nat];
     listen_sock := false; bridge_running := true; trace := [] |}.

(** A session whose channel raises on write. *)
Definition demo_conn_broken : conn :=
  {| link := 0%nat; tcp_sock := 0%nat;
     buffer := Some {| buf_closed := false; buf_fails := true;
                       buf_pending := []; buf_out := []; buf_in := [] |};
     running := true; ready := true; failed := false |}.

Definition demo_world_broken : world :=
  {| socks := {[ 0%nat := demo_sock ]}; links := {[ 0%nat := ACTIVE ]};
     conns := {[ 0%nat := demo_conn_broken ]}; clients := [0%nat];
     listen_sock := false; bridge_running := true; trace := [] |}.

(** The link of the next accepted client is reported established during
    the first sleep of the handler. *)
Definition demo_link_up (t : Z) : list activity :=
  if t =? 0 then [LinkEstablished 1%nat] else [].

(** A path to the server is known from one second on. *)
Definition demo_path_at (t : Z) : bool := 1000 <=? t.

(** Thirty hexadecimal digits after two tabs. *)
Definition demo_hash_tabs : string :=
  String "009" (String "009" "112233445566778899aabbccddeeff").

(** A configuration file with a [client] section of two entries. *)
Definition demo_section : gmap string value :=
  <["server_destination_hash" := VStr "00112233445566778899aabbccddeeff"]>
    {[ "listen_port" := VInt 7000 ]}.

Definition demo_yaml : gmap string (option (gmap string value)) :=
  {[ "client" := Some demo_section ]}.

(** * Proofs *)

Example fromhex_ex : fromhex "0aFf 10" = Some [10; 255; 16]%N.
Proof. reflexivity. Qed.

Example remove_char_ex : remove_char ":" "a:b::c" = "abc"%string.
Proof. reflexivity. Qed.

Ltac crush_frame :=
  intros;
  repeat (match goal with
          | |- context [match ?x with _ => _ end] => destruct x eqn:?
          end; cbn in *);
  try done.

(** ** Frame conditions *)

Lemma conn_frame_refl cn : conn_frame [] cn cn.
Proof. repeat split; auto. Qed.

Lemma conn_frame_trans e1 e2 cn cn' cn'' :
  conn_frame e1 cn cn' -> conn_frame e2 cn' cn'' -> conn_frame (e1 ++ e2) cn cn''.
Proof.
  intros (S1 & L1 & R1) (S2 & L2 & R2). split; [congruence|]. split; [congruence|].
  destruct R2 as [R2|[R2 I2]].
  - destruct R1 as [R1|[R1 I1]]; [left; congruence|].
    right. split; [congruence|]. apply elem_of_app; auto.
  - right. split; [done|]. apply elem_of_app. right. by rewrite <- S1.
Qed.

Lemma evolves_refl w : evolves w w [].
Proof.
  split; [done|by rewrite app_nil_r|].
  intros c cn H. exists cn. split; [done|apply conn_frame_refl].
Qed.

Lemma evolves_trans w w' w'' e1 e2 :
  evolves w w' e1 -> evolves w' w'' e2 -> evolves w w'' (e1 ++ e2).
Proof.
  intros [C1 T1 F1] [C2 T2 F2]. split.
  - congruence.
  - by rewrite T2, T1, app_assoc.
  - intros c cn H. destruct (F1 c cn H) as (cn' & H' & Fr1).
    destruct (F2 c cn' H') as (cn'' & H'' & Fr2).
    exists cn''. split; [done|]. by eapply conn_frame_trans.
Qed.

Lemma steps_refl P w : steps P w w.
Proof. exists []. split; [apply evolves_refl|constructor]. Qed.

Lemma steps_trans P w w' w'' : steps P w w' -> steps P w' w'' -> steps P w w''.
Proof.
  intros (e1 & E1 & F1) (e2 & E2 & F2). exists (e1 ++ e2).
  split; [by eapply evolves_trans|]. by apply Forall_app.
Qed.

Lemma steps_weaken (P Q : event -> bool) w w' :
  (forall e, P e = true -> Q e = true) -> steps P w w' -> steps Q w w'.
Proof.
  intros H (evs & E & F). exists evs. split; [done|].
  eapply Forall_impl; [exact F|]. auto.
Qed.

Lemma steps_emit P e w : P e = true -> steps P w (emit e w).
Proof.
  intros H. exists [e]. split; [|by repeat constructor].
  split; [done|done|]. intros c cn Hc. exists cn. split; [done|].
  repeat split; auto.
Qed.

Lemma steps_update_sock P s sk w : steps P w (update_sock s sk w).
Proof.
  exists []. split; [|constructor].
  split; [done|by cbn; rewrite app_nil_r|].
  intros c cn Hc. exists cn. split; [done|apply conn_frame_refl].
Qed.

Lemma steps_set_links P f w : steps P w (set_links f w).
Proof.
  exists []. split; [|constructor].
  split; [done|by cbn; rewrite app_nil_r|].
  intros c cn Hc. exists cn. split; [done|apply conn_frame_refl].
Qed.

(** Writing a connection object back with the same socket, link and
    [running] flag, or storing a new one. *)
Lemma steps_update_conn P c cn' w :
  (forall cn, conns w !! c = Some cn ->
     tcp_sock cn' = tcp_sock cn /\ link cn' = link cn /\ running cn' = running cn) ->
  steps P w (update_conn c cn' w).
Proof.
  intros H. exists []. split; [|constructor].
  split; [done|by cbn; rewrite app_nil_r|].
  intros c0 cn0 Hc. cbn. destruct (decide (c = c0)) as [->|Ne].
  - rewrite lookup_insert_eq. exists cn'. split; [done|].
    destruct (H _ Hc) as (? & ? & ?). repeat split; auto.
  - rewrite lookup_insert_ne by done. exists cn0. split; [done|apply conn_frame_refl].
Qed.

Lemma steps_sock_recv P cap s w :
  (forall r, P (EvSockRecv s r) = true) -> steps P w (sock_recv cap s w).2.
Proof.
  intros HP. unfold sock_recv. crush_frame;
    try apply steps_refl;
    repeat first [ eapply steps_trans; [|apply steps_emit; apply HP]
                 | apply steps_update_sock | apply steps_refl ].
Qed.

Lemma steps_sock_sendall P s d w :
  (forall d', P (EvSockSendall s d') = true) -> steps P w (sock_sendall s d w).2.
Proof.
  intros HP. unfold sock_sendall. crush_frame;
    try apply steps_refl;
    repeat first [ eapply steps_trans; [|apply steps_emit; apply HP]
                 | apply steps_update_sock | apply steps_refl ].
Qed.

Lemma steps_sock_close P s w :
  P (EvSockClose s) = true -> steps P w (sock_close s w).
Proof.
  intros HP. unfold sock_close.
  eapply steps_trans; [|by apply steps_emit].
  crush_frame; [apply steps_update_sock | apply steps_refl].
Qed.

Ltac buffer_step HP :=
  crush_frame; try apply steps_refl;
  repeat first [ eapply steps_trans; [|apply steps_emit; apply HP; reflexivity]
               | apply steps_update_conn; intros; simplify_eq; done
               | apply steps_refl ].

Lemma steps_buf_write P c d w :
  (forall e, is_transfer_call e = true -> P e = true) -> steps P w (buf_write c d w).2.
Proof. intros HP. unfold buf_write. buffer_step HP. Qed.

Lemma steps_buf_flush P c w :
  (forall e, is_transfer_call e = true -> P e = true) -> steps P w (buf_flush c w).2.
Proof. intros HP. unfold buf_flush. buffer_step HP. Qed.

Lemma steps_buf_read P c n w :
  (forall e, is_transfer_call e = true -> P e = true) -> steps P w (buf_read c n w).2.
Proof. intros HP. unfold buf_read. buffer_step HP. Qed.

Lemma steps_buf_close P c w :
  P (EvBufClose c) = true -> steps P w (buf_close c w).
Proof.
  intros HP. unfold buf_close.
  eapply steps_trans; [|by apply steps_emit].
  crush_frame; try apply steps_refl.
  apply steps_update_conn; intros; simplify_eq; done.
Qed.

Lemma steps_link_teardown P l w :
  P (EvLinkTeardown l) = true -> steps P w (link_teardown l w).
Proof.
  intros HP. unfold link_teardown.
  eapply steps_trans; [apply steps_set_links|by apply steps_emit].
Qed.

(** ** What [stop] does *)

Lemma stop_stopped (c : conn_id) (w : world) :
  is_running c w = false -> stop c w = w.
Proof.
  unfold is_running, stop. destruct (conns w !! c) as [cn|]; [|done].
  intros ->. done.
Qed.

Lemma stop_tail_steps c cn w1 :
  steps is_teardown_call w1
    (let w2 := sock_close (tcp_sock cn) w1 in
     let w3 := match buffer cn with
               | Some _ => buf_close c w2
               | None => w2
               end in
     if link_is_active (link cn) w3 then link_teardown (link cn) w3 else w3).
Proof.
  cbn zeta.
  assert (H3 : steps is_teardown_call w1
                 (match buffer cn with
                  | Some _ => buf_close c (sock_close (tcp_sock cn) w1)
                  | None => sock_close (tcp_sock cn) w1
                  end)).
  { destruct (buffer cn).
    - eapply steps_trans; [by apply steps_sock_close|by apply steps_buf_close].
    - by apply steps_sock_close. }
  destruct (link_is_active _ _); [|done].
  eapply steps_trans; [exact H3|by apply steps_link_teardown].
Qed.

Lemma buf_close_links c w : links (buf_close c w) = links w.
Proof. unfold buf_close. crush_frame. Qed.

Lemma sock_close_links s w : links (sock_close s w) = links w.
Proof. unfold sock_close. crush_frame. Qed.

Lemma buf_close_trace c w : trace (buf_close c w) = trace w ++ [EvBufClose c].
Proof. unfold buf_close. crush_frame. Qed.

Lemma sock_close_trace s w : trace (sock_close s w) = trace w ++ [EvSockClose s].
Proof. unfold sock_close. crush_frame. Qed.

Lemma stop_trace (c : conn_id) (cn : conn) (w : world) :
  conns w !! c = Some cn -> running cn = true ->
  trace (stop c w) = trace w ++ teardown_calls c cn w.
Proof.
  intros E R. unfold stop, teardown_calls. rewrite E, R. cbn [negb].
  assert (L : forall w', links w' = links w ->
            link_is_active (link cn) w' = link_is_active (link cn) w).
  { intros w' H. unfold link_is_active. by rewrite H. }
  cbn zeta. destruct (buffer cn) eqn:B.
  - rewrite L by (by rewrite buf_close_links, sock_close_links).
    destruct (link_is_active (link cn) w); cbn [link_teardown emit trace set_links];
      rewrite buf_close_trace, sock_close_trace; cbn; rewrite <- !app_assoc; done.
  - rewrite L by (by rewrite sock_close_links).
    destruct (link_is_active (link cn) w); cbn [link_teardown emit trace set_links];
      rewrite sock_close_trace; cbn; rewrite <- ?app_assoc; done.
Qed.

Lemma stop_evolves (c : conn_id) (w : world) :
  exists evs, evolves w (stop c w) evs
              /\ Forall (fun e => is_teardown_call e = true) evs.
Proof.
  destruct (conns w !! c) as [cn|] eqn:E; cycle 1.
  { unfold stop. rewrite E. exists []. split; [apply evolves_refl|constructor]. }
  destruct (running cn) eqn:R; cycle 1.
  { unfold stop. rewrite E, R. exists []. split; [apply evolves_refl|constructor]. }
  pose proof (stop_trace c cn w E R) as T.
  unfold stop in *. rewrite E, R in *. cbn [negb] in *.
  destruct (stop_tail_steps c cn (update_conn c (set_running false cn) w))
    as (evs & [C1 T1 F1] & FA).
  cbn zeta in *. exists evs. split; [|done].
  assert (evs = teardown_calls c cn w) as Hevs.
  { rewrite T1 in T. cbn in T. by apply app_inv_head in T. }
  split; [by rewrite C1|by rewrite T1|].
  intros c0 cn0 H0. destruct (decide (c0 = c)) as [->|Ne].
  - destruct (F1 c (set_running false cn)) as (cn' & H' & S' & L' & R').
    { cbn. by rewrite lookup_insert_eq. }
    exists cn'. split; [done|]. rewrite E in H0. injection H0 as <-.
    split; [done|]. split; [done|].
    right. split.
    + destruct R' as [R'|[R' _]]; done.
    + rewrite Hevs. unfold teardown_calls. apply elem_of_app. left. apply list_elem_of_singleton. done.
  - destruct (F1 c0 cn0) as (cn' & H' & Fr).
    { cbn. by rewrite lookup_insert_ne. }
    exists cn'. done.
Qed.

Lemma steps_stop P c w :
  (forall e, is_teardown_call e = true -> P e = true) -> steps P w (stop c w).
Proof.
  intros HP. destruct (stop_evolves c w) as (evs & E & F).
  exists evs. split; [done|]. eapply Forall_impl; [exact F|]. auto.
Qed.

Lemma stop_clients (c : conn_id) (w : world) : clients (stop c w) = clients w.
Proof. destruct (stop_evolves c w) as (evs & [C _ _] & _). done. Qed.

Lemma stop_not_running (c : conn_id) (w : world) : is_running c (stop c w) = false.
Proof.
  destruct (is_running c w) eqn:Rw; [|by rewrite stop_stopped].
  unfold is_running in Rw. destruct (conns w !! c) as [cn|] eqn:E; [|done].
  destruct (stop_evolves c w) as (evs & [_ T F] & _).
  destruct (F c cn E) as (cn' & H' & _ & _ & R').
  unfold is_running. rewrite H'.
  destruct R' as [R'|[R' _]]; [|done].
  (* the flag did change: the trace grew by a socket close *)
  exfalso. unfold stop in H'. rewrite E, Rw in H'. cbn [negb] in H'.
  destruct (stop_tail_steps c cn (update_conn c (set_running false cn) w))
    as (evs' & [_ _ F1] & _).
  destruct (F1 c (set_running false cn)) as (cn2 & H2 & _ & _ & R2).
  { cbn. by rewrite lookup_insert_eq. }
  cbn zeta in H2. rewrite H' in H2. injection H2 as <-.
  cbn in R2. destruct R2 as [R2|[R2 _]]; congruence.
Qed.

Lemma stop_iter (c : conn_id) (w : world) (n : nat) :
  Nat.iter (S n) (stop c) w = stop c w.
Proof.
  induction n as [|n IH]; [done|].
  change (Nat.iter (S (S n)) (stop c) w) with (stop c (Nat.iter (S n) (stop c) w)).
  rewrite IH. apply stop_stopped, stop_not_running.
Qed.

(** C1, as amended: sequential calls of [stop] on a running connection.
    The first call clears [running] and makes the teardown calls (close the
    socket, close the buffer if there is one, tear the link down if it is
    active) once each; every later call finds [running] false and returns
    the state as it is, so any number of calls leaves what one call leaves.
    [stop] never touches the registry: [self.clients] is the same list
    after it. *)
Theorem stop_sequential_once (c : conn_id) (cn : conn) (w : world) (n : nat) :
  conns w !! c = Some cn -> running cn = true ->
  Nat.iter (S n) (stop c) w = stop c w
  /\ trace (Nat.iter (S n) (stop c) w) = trace w ++ teardown_calls c cn w
  /\ is_running c (stop c w) = false
  /\ (forall w', is_running c w' = false -> stop c w' = w')
  /\ clients (Nat.iter (S n) (stop c) w) = clients w.
Proof.
  intros E R. split; [apply stop_iter|].
  split; [rewrite stop_iter; by apply stop_trace|].
  split; [apply stop_not_running|].
  split; [intros w'; apply stop_stopped|].
  rewrite stop_iter. apply stop_clients.
Qed.

(** ** Connection-level steps are quiet *)

Lemma teardown_quiet e : is_teardown_call e = true -> is_quiet e = true.
Proof. by destruct e. Qed.

Lemma transfer_quiet e : is_transfer_call e = true -> is_quiet e = true.
Proof. by destruct e. Qed.

Lemma steps_rns_data_ready c n w : steps is_quiet w (rns_data_ready c n w).
Proof.
  unfold rns_data_ready.
  destruct (conns w !! c) as [cn|]; [|apply steps_refl].
  destruct (running cn); cbn [negb]; [|apply steps_refl].
  pose proof (steps_buf_read is_quiet c n (emit (EvAcquire (BufferLock c)) w)
                transfer_quiet) as HR.
  destruct (buf_read c n _) as [r w2]. cbn [snd] in HR.
  assert (H3 : steps is_quiet w (emit (EvRelease (BufferLock c)) w2)).
  { eapply steps_trans; [|by apply steps_emit].
    eapply steps_trans; [|exact HR]. by apply steps_emit. }
  destruct r as [[|b d]|].
  - done.
  - pose proof (steps_sock_sendall is_quiet (tcp_sock cn) (b :: d)
                  (emit (EvRelease (BufferLock c)) w2) (fun _ => eq_refl)) as HS.
    destruct (sock_sendall _ _ _) as [[|] w4]; cbn [snd] in HS.
    + by eapply steps_trans.
    + eapply steps_trans; [by eapply steps_trans|].
      apply steps_stop, teardown_quiet.
  - eapply steps_trans; [exact H3|]. apply steps_stop, teardown_quiet.
Qed.

Lemma steps_pump_body c w :
  match pump_body c w with
  | inl (_, w') => steps is_quiet w w'
  | inr w' => steps is_quiet w w'
  end.
Proof.
  unfold pump_body.
  destruct (conns w !! c) as [cn|]; [|apply steps_refl].
  destruct (running cn); cbn [negb]; [|apply steps_refl].
  pose proof (steps_sock_recv is_quiet RECV_CAP (tcp_sock cn) w (fun _ => eq_refl)) as HR.
  destruct (sock_recv _ _ _) as [[[|b d]| |] w1]; cbn [snd] in HR; try done.
  pose proof (steps_buf_write is_quiet c (b :: d)
                (emit (EvAcquire (BufferLock c)) w1) transfer_quiet) as HW.
  assert (H2 : steps is_quiet w (emit (EvAcquire (BufferLock c)) w1)).
  { eapply steps_trans; [exact HR|]. by apply steps_emit. }
  destruct (buf_write _ _ _) as [[|] w3]; cbn [snd] in HW.
  - pose proof (steps_buf_flush is_quiet c w3 transfer_quiet) as HF.
    destruct (buf_flush _ _) as [[|] w4]; cbn [snd] in HF;
      (eapply steps_trans; [|by apply steps_emit]);
      (eapply steps_trans; [|exact HF]); by eapply steps_trans.
  - eapply steps_trans; [|by apply steps_emit]. by eapply steps_trans.
Qed.

Lemma steps_pump fuel c w r w' :
  pump fuel c w = Some (r, w') -> steps is_quiet w w'.
Proof.
  revert w. induction fuel as [|fuel IH]; intros w H; [done|].
  cbn in H. pose proof (steps_pump_body c w) as HB.
  destruct (pump_body c w) as [[r0 w0]|w0].
  - by injection H as -> ->.
  - eapply steps_trans; [exact HB|]. by apply IH.
Qed.

Lemma steps_tcp_to_rns_loop c w : steps is_quiet w (tcp_to_rns_loop c w).2.
Proof.
  unfold tcp_to_rns_loop.
  destruct (pump _ c w) as [[r w']|] eqn:E; [|apply steps_refl].
  apply steps_pump in E.
  destruct r; cbn [snd]; try done;
    (eapply steps_trans; [exact E|apply steps_stop, teardown_quiet]).
Qed.

Lemma steps_link_established c w :
  steps is_quiet w (ClientBridgedConnection.link_established c w).
Proof.
  unfold ClientBridgedConnection.link_established.
  destruct (conns w !! c) as [cn|] eqn:E; [|apply steps_refl].
  eapply steps_trans; cycle 1.
  { apply steps_update_conn. intros cn0 H0. cbn in H0.
    rewrite lookup_insert_eq in H0. injection H0 as <-. done. }
  eapply steps_trans; [|by apply steps_emit].
  eapply steps_trans; [|by apply steps_emit].
  apply steps_update_conn. intros cn0 H0.
  rewrite E in H0. injection H0 as <-. done.
Qed.

Lemma steps_link_closed c w :
  steps is_quiet w (ClientBridgedConnection.link_closed c w).
Proof.
  unfold ClientBridgedConnection.link_closed.
  destruct (conns w !! c) as [cn|] eqn:E; [|apply steps_refl].
  eapply steps_trans; [|apply steps_stop, teardown_quiet].
  apply steps_update_conn. intros cn0 H0.
  rewrite E in H0. injection H0 as <-. done.
Qed.

Lemma steps_run_activity a w : steps is_quiet w (run_activity a w).
Proof.
  destruct a as [c|c|c|c d|s a|c]; cbn [run_activity].
  - eapply steps_trans; [|apply steps_link_established].
    unfold set_link_status. destruct (conns w !! c); [apply steps_set_links|apply steps_refl].
  - eapply steps_trans; [|apply steps_link_closed].
    unfold set_link_status. destruct (conns w !! c); [apply steps_set_links|apply steps_refl].
  - apply steps_tcp_to_rns_loop.
  - unfold remote_sends. eapply steps_trans; [|apply steps_rns_data_ready].
    unfold buf_receive. destruct (conns w !! c) as [cn|] eqn:E; [|apply steps_refl].
    destruct (buffer cn); [|apply steps_refl].
    apply steps_update_conn. intros cn0 H0. rewrite E in H0. injection H0 as <-. done.
  - unfold peer_sends. destruct (socks w !! s); [apply steps_update_sock|apply steps_refl].
  - unfold channel_breaks. destruct (conns w !! c) as [cn|] eqn:E; [|apply steps_refl].
    destruct (buffer cn); [|apply steps_refl].
    apply steps_update_conn. intros cn0 H0. rewrite E in H0. injection H0 as <-. done.
Qed.

Lemma steps_run_activities l w : steps is_quiet w (run_activities l w).
Proof.
  revert w. induction l as [|a l IH]; intros w; [apply steps_refl|].
  cbn. eapply steps_trans; [apply steps_run_activity|apply IH].
Qed.

Lemma steps_wait_link env c elapsed w :
  steps is_quiet w (IRCClientBridge.wait_link env c elapsed w).
Proof.
  funelim (IRCClientBridge.wait_link env c elapsed w); try apply steps_refl.
  eapply steps_trans; [apply steps_run_activities|].
  match goal with IH : steps _ _ _ |- _ => exact IH end.
Qed.

(** ** The ingress handler *)

Lemma fresh_id_None {A} (m : gmap nat A) : m !! fresh_id m = None.
Proof. apply not_elem_of_dom, is_fresh. Qed.

Lemma remove_first_app_new (c : conn_id) (l : list conn_id) :
  c ∉ l -> remove_first c (l ++ [c]) = l.
Proof.
  induction l as [|x l IH]; intros H; cbn.
  - by rewrite decide_True.
  - apply not_elem_of_cons in H as [Ne H].
    rewrite decide_False by done. by rewrite IH.
Qed.

Lemma setup_conn (s : sock_id) (w : world) :
  let c := (IRCClientBridge.handle_client_setup s w).1 in
  let w1 := (IRCClientBridge.handle_client_setup s w).2 in
  c = fresh_id (conns w)
  /\ conns w1 !! c = Some (ClientBridgedConnection.init (fresh_id (links w)) s)
  /\ clients w1 = clients w ++ [c]
  /\ trace w1 = trace w ++ [EvLinkCreate (fresh_id (links w));
                            EvAcquire ClientsLock; EvRegAppend c;
                            EvRelease ClientsLock;
                            EvLinkSetEstablishedCallback (fresh_id (links w));
                            EvLinkSetClosedCallback (fresh_id (links w))].
Proof.
  cbn. rewrite lookup_insert_eq. rewrite <- !app_assoc. done.
Qed.

Lemma finish_not_ready (c : conn_id) (w : world) :
  ClientBridgedConnection.is_ready c w = false ->
  clients (IRCClientBridge.handle_client_finish c w) = remove_first c (clients w)
  /\ is_running c (IRCClientBridge.handle_client_finish c w) = false
  /\ exists evs, trace (IRCClientBridge.handle_client_finish c w)
                 = trace (stop c w) ++ evs.
Proof.
  intros NR. unfold IRCClientBridge.handle_client_finish. rewrite NR.
  cbn [emit clients set_clients].
  pose proof (stop_not_running c w) as SR. pose proof (stop_clients c w) as SC.
  destruct (bool_decide (c ∈ clients (stop c w))) eqn:D; cbn.
  - rewrite SC. split; [done|]. split; [exact SR|].
    eexists. rewrite <- !app_assoc. done.
  - split.
    + rewrite SC. apply bool_decide_eq_false in D. rewrite SC in D.
      clear -D. induction (clients w) as [|x l IH]; [done|].
      cbn. apply not_elem_of_cons in D as [Ne D].
      rewrite decide_False by done. by rewrite <- IH.
    + split; [exact SR|]. eexists. rewrite <- !app_assoc. done.
Qed.

(** The registry holds only objects that exist. *)
Definition registry_wf (w : world) : Prop :=
  forall c, c ∈ clients w -> is_Some (conns w !! c).

(** C3, as amended: when the accepted client's link is not established
    (it failed, or the wait timed out), the handler has by then created
    the connection object and put it in the registry for the time of the
    wait; it then stops the connection, which closes the accepted socket,
    and removes it, so the registry ends as it was before the accept. *)
Theorem handle_client_failure (env : Z -> list activity) (s : sock_id) (w : world) :
  registry_wf w ->
  let c := (IRCClientBridge.handle_client_setup s w).1 in
  let waiting := (IRCClientBridge.handle_client_setup s w).2 in
  let w' := IRCClientBridge.handle_client true env s w in
  ClientBridgedConnection.is_ready c (IRCClientBridge.wait_link env c 0 waiting) = false ->
  c ∈ clients waiting
  /\ clients w' = clients w
  /\ is_running c w' = false
  /\ exists evs, trace w' = trace w ++ evs /\ EvSockClose s ∈ evs.
Proof.
  intros WF. pose proof (setup_conn s w) as (Hc & Hconn & Hcl & Htr).
  unfold IRCClientBridge.handle_client. cbn [negb].
  destruct (IRCClientBridge.handle_client_setup s w) as [c w1] eqn:ES.
  cbn [fst snd] in *. cbn zeta. intros NR.
  destruct (steps_wait_link env c 0 w1) as (evs & [C T F] & _).
  destruct (F c _ Hconn) as (cn2 & H2 & S2 & L2 & R2). cbn in S2.
  destruct (finish_not_ready c _ NR) as (FC & FR & evs3 & FT).
  split; [rewrite Hcl; apply elem_of_app; right; by apply list_elem_of_singleton|].
  split.
  { rewrite FC, C, Hcl. apply remove_first_app_new.
    intros Hin. apply WF in Hin as [cn Hin].
    rewrite Hc, fresh_id_None in Hin. done. }
  split; [exact FR|].
  destruct (running cn2) eqn:Run.
  - pose proof (stop_trace c cn2 _ H2 Run) as ST.
    eexists. split.
    + rewrite FT, ST, T, Htr. rewrite <- !app_assoc. reflexivity.
    + rewrite !elem_of_app. right. right. left. unfold teardown_calls.
      rewrite S2. apply elem_of_app. left. by apply list_elem_of_singleton.
  - destruct R2 as [R2|[_ R2]]; [cbn in R2; congruence|].
    rewrite stop_stopped in FT by (unfold is_running; by rewrite H2).
    eexists. split.
    + rewrite FT, T, Htr. rewrite <- !app_assoc. reflexivity.
    + rewrite !elem_of_app. right. left. exact R2.
Qed.

(** C10: when [RNS.Identity.recall] gives no identity, [_handle_client]
    closes the accepted socket and returns: the only call recorded is the
    socket close (no link is created, no callback set), and the registry,
    the connection objects and the links are what they were. *)
Theorem handle_client_no_identity (env : Z -> list activity) (s : sock_id) (w : world) :
  let w' := IRCClientBridge.handle_client false env s w in
  w' = sock_close s w
  /\ trace w' = trace w ++ [EvSockClose s]
  /\ clients w' = clients w
  /\ conns w' = conns w
  /\ links w' = links w.
Proof.
  cbn. split; [done|]. split; [apply sock_close_trace|].
  unfold sock_close. destruct (socks w !! s); done.
Qed.

(** ** The egress link callback *)

(** C7: when the connect to the backend fails, [_link_established] tears
    the link down at once and returns: the calls recorded are the callback
    registration, the failed connect and the teardown; no connection object
    is constructed and the registry is unchanged. *)
Theorem link_established_connect_failure (l : link_id) (w : world) :
  let w' := IRCServerBridge.link_established None l w in
  trace w' = trace w ++ [EvLinkSetClosedCallback l; EvSockConnect false; EvLinkTeardown l]
  /\ conns w' = conns w
  /\ clients w' = clients w
  /\ socks w' = socks w
  /\ links w' !! l = Some CLOSED.
Proof.
  cbn. rewrite <- !app_assoc, lookup_insert_eq. done.
Qed.

(** ** The scope of the registry lock *)

Lemma under_app h a b :
  under_clients_lock h (a ++ b)
  = under_clients_lock h a ++ under_clients_lock (clients_lock_after h a) b.
Proof.
  revert h. induction a as [|e a IH]; intros h; [done|].
  destruct e as [[|?]|[|?]| | | | | | | | | | | | | | | | | | | | | | ];
    cbn; rewrite ?IH; destruct h; done.
Qed.

Lemma outside_app h a b :
  outside_clients_lock h (a ++ b)
  = outside_clients_lock h a ++ outside_clients_lock (clients_lock_after h a) b.
Proof.
  revert h. induction a as [|e a IH]; intros h; [done|].
  destruct e as [[|?]|[|?]| | | | | | | | | | | | | | | | | | | | | | ];
    cbn; rewrite ?IH; destruct h; done.
Qed.

Lemma after_app h a b :
  clients_lock_after h (a ++ b) = clients_lock_after (clients_lock_after h a) b.
Proof.
  revert h. induction a as [|e a IH]; intros h; [done|].
  destruct e as [[|?]|[|?]| | | | | | | | | | | | | | | | | | | | | | ];
    cbn; rewrite ?IH; done.
Qed.

(** Events other than taking or releasing the registry lock. *)
Definition not_clients_lock (e : event) : bool :=
  match e with
  | EvAcquire ClientsLock | EvRelease ClientsLock => false
  | _ => true
  end.

Lemma unlocked_events h evs :
  Forall (fun e => not_clients_lock e = true) evs ->
  clients_lock_after h evs = h
  /\ under_clients_lock h evs = (if h then evs else [])
  /\ outside_clients_lock h evs = (if h then [] else evs).
Proof.
  induction 1 as [|e evs He _ (IH1 & IH2 & IH3)]; [by destruct h|].
  destruct e as [[|?]|[|?]| | | | | | | | | | | | | | | | | | | | | | ];
    try discriminate He; cbn; rewrite ?IH1, ?IH2, ?IH3; destruct h; done.
Qed.

Lemma disciplined_nil : lock_disciplined [].
Proof. repeat split; constructor. Qed.

Lemma disciplined_app a b :
  lock_disciplined a -> lock_disciplined b -> lock_disciplined (a ++ b).
Proof.
  intros (A1 & A2 & A3) (B1 & B2 & B3). unfold lock_disciplined.
  rewrite after_app, under_app, outside_app, A1.
  split; [done|]. split; by apply Forall_app.
Qed.

Lemma disciplined_quiet evs :
  Forall (fun e => is_quiet e = true) evs -> lock_disciplined evs.
Proof.
  intros H. destruct (unlocked_events false evs) as (H1 & H2 & H3).
  { eapply Forall_impl; [exact H|]. intros e. by destruct e as [[|?]|[|?]| | | | | | | | | | | | | | | | | | | | | | ]. }
  unfold lock_disciplined. rewrite H1, H2, H3.
  split; [done|]. split; [constructor|].
  eapply Forall_impl; [exact H|]. intros e.
  by destruct e as [[|?]|[|?]| | | | | | | | | | | | | | | | | | | | | | ].
Qed.

Lemma disciplined_region mid :
  Forall (fun e => not_clients_lock e = true) mid ->
  Forall (fun e => is_registry_mutation e || is_teardown_call e = true) mid ->
  lock_disciplined ([EvAcquire ClientsLock] ++ mid ++ [EvRelease ClientsLock]).
Proof.
  intros H1 H2. destruct (unlocked_events true mid H1) as (E1 & E2 & E3).
  unfold lock_disciplined. cbn [app under_clients_lock outside_clients_lock clients_lock_after].
  rewrite after_app, under_app, outside_app, E1, E2, E3. cbn.
  rewrite app_nil_r. done.
Qed.

Lemma stop_all_evolves cs w :
  steps is_teardown_call w (stop_all cs w).
Proof.
  revert w. induction cs as [|c cs IH]; intros w; [apply steps_refl|].
  cbn. eapply steps_trans; [by apply steps_stop|apply IH].
Qed.

Lemma teardown_region evs :
  Forall (fun e => is_teardown_call e = true) evs ->
  Forall (fun e => not_clients_lock e = true) evs
  /\ Forall (fun e => is_registry_mutation e || is_teardown_call e = true) evs.
Proof.
  intros H. split; (eapply Forall_impl; [exact H|]); intros e He.
  - by destruct e.
  - rewrite He. apply orb_true_r.
Qed.

Lemma registry_drain_trace w :
  exists evs, trace (registry_drain w) = trace w ++ evs /\ lock_disciplined evs.
Proof.
  unfold registry_drain.
  destruct (stop_all_evolves (clients (emit (EvAcquire ClientsLock) w))
              (emit (EvAcquire ClientsLock) w)) as (tds & [_ T _] & F).
  cbn zeta. cbn [emit trace set_clients]. rewrite T. cbn [emit trace].
  exists ([EvAcquire ClientsLock] ++ (tds ++ [EvRegClear]) ++ [EvRelease ClientsLock]).
  split; [by rewrite <- !app_assoc|].
  destruct (teardown_region tds F) as [F1 F2].
  apply disciplined_region; apply Forall_app; split; try done; by repeat constructor.
Qed.

Lemma registry_append_trace c w :
  trace (registry_append c w)
  = trace w ++ [EvAcquire ClientsLock; EvRegAppend c; EvRelease ClientsLock].
Proof. cbn. by rewrite <- !app_assoc. Qed.

Lemma disciplined_append c :
  lock_disciplined [EvAcquire ClientsLock; EvRegAppend c; EvRelease ClientsLock].
Proof. apply (disciplined_region [EvRegAppend c]); by repeat constructor. Qed.

Lemma steps_disciplined w w' :
  steps is_quiet w w' ->
  exists evs, trace w' = trace w ++ evs /\ lock_disciplined evs.
Proof.
  intros (evs & [_ T _] & F). exists evs. split; [done|by apply disciplined_quiet].
Qed.

Lemma disciplined_setup l c :
  lock_disciplined
    [EvLinkCreate l; EvAcquire ClientsLock; EvRegAppend c; EvRelease ClientsLock;
     EvLinkSetEstablishedCallback l; EvLinkSetClosedCallback l].
Proof. unfold lock_disciplined. cbn. repeat split; repeat constructor. Qed.

Lemma disciplined_remove (mid : list event) :
  Forall (fun e => is_registry_mutation e = true) mid ->
  lock_disciplined ([EvAcquire ClientsLock] ++ mid ++ [EvRelease ClientsLock]).
Proof.
  intros H. apply disciplined_region; (eapply Forall_impl; [exact H|]); intros e He.
  - by destruct e.
  - by rewrite He.
Qed.

Lemma handle_client_trace known env s w :
  exists evs, trace (IRCClientBridge.handle_client known env s w) = trace w ++ evs
              /\ lock_disciplined evs.
Proof.
  unfold IRCClientBridge.handle_client. destruct known; cbn [negb]; cycle 1.
  { apply steps_disciplined. by apply steps_sock_close. }
  pose proof (setup_conn s w) as (_ & _ & _ & Htr).
  destruct (IRCClientBridge.handle_client_setup s w) as [c w1]. cbn [fst snd] in Htr.
  destruct (steps_disciplined _ _ (steps_wait_link env c 0 w1)) as (e2 & T2 & D2).
  set (w2 := IRCClientBridge.wait_link env c 0 w1) in *.
  pose proof (disciplined_setup (fresh_id (links w)) c) as D1.
  pose proof (disciplined_app _ _ D1 D2) as D12.
  unfold IRCClientBridge.handle_client_finish.
  destruct (ClientBridgedConnection.is_ready c w2).
  { eexists. split; [rewrite T2, Htr, <- app_assoc; reflexivity|done]. }
  destruct (steps_disciplined _ _ (steps_stop is_quiet c w2 teardown_quiet)) as (e3 & T3 & D3).
  pose proof (disciplined_app _ _ D12 D3) as D123.
  cbn zeta.
  destruct (bool_decide _); cbn [emit trace set_clients]; rewrite T3, T2, Htr.
  - eexists (_ ++ ([EvAcquire ClientsLock] ++ [EvRegRemove c] ++ [EvRelease ClientsLock])).
    split; [|apply disciplined_app; [exact D123|]].
    + rewrite <- !app_assoc. reflexivity.
    + apply disciplined_remove. by repeat constructor.
  - eexists (_ ++ ([EvAcquire ClientsLock] ++ [] ++ [EvRelease ClientsLock])).
    split; [|apply disciplined_app; [exact D123|]].
    + rewrite <- !app_assoc. reflexivity.
    + apply disciplined_remove. constructor.
Qed.

Lemma client_shutdown_trace w :
  exists evs, trace (IRCClientBridge.shutdown w) = trace w ++ evs
              /\ lock_disciplined evs.
Proof.
  unfold IRCClientBridge.shutdown. cbn zeta.
  destruct (listen_sock (set_bridge_running false w)).
  - destruct (registry_drain_trace (emit EvListenerClose (set_bridge_running false w)))
      as (evs & T & D).
    exists ([EvListenerClose] ++ evs). split.
    + rewrite T. cbn. by rewrite <- app_assoc.
    + apply disciplined_app; [|done]. apply disciplined_quiet. by repeat constructor.
  - apply (registry_drain_trace (set_bridge_running false w)).
Qed.

Lemma server_shutdown_trace w :
  exists evs, trace (IRCServerBridge.shutdown w) = trace w ++ evs
              /\ lock_disciplined evs.
Proof. apply (registry_drain_trace (set_bridge_running false w)). Qed.

Lemma server_link_established_trace backend l w :
  exists evs, trace (IRCServerBridge.link_established backend l w) = trace w ++ evs
              /\ lock_disciplined evs.
Proof.
  destruct backend as [sk|].
  - unfold IRCServerBridge.link_established, BridgedConnection.start. cbn zeta.
    match goal with |- context [match ?x with _ => _ end] => destruct x end.
    + eexists. split.
      * cbn. rewrite <- !app_assoc. reflexivity.
      * unfold lock_disciplined. cbn. repeat split; repeat constructor.
    + eexists. split.
      * cbn. rewrite <- !app_assoc. reflexivity.
      * unfold lock_disciplined. cbn. repeat split; repeat constructor.
  - eexists. split.
    + cbn. rewrite <- !app_assoc. reflexivity.
    + unfold lock_disciplined. cbn. repeat split; repeat constructor.
Qed.

Lemma server_link_closed_trace l w :
  exists evs, trace (IRCServerBridge.link_closed l w) = trace w ++ evs
              /\ lock_disciplined evs.
Proof.
  unfold IRCServerBridge.link_closed. cbn zeta.
  destruct (IRCServerBridge.find_by_link _ _ _) as [c|].
  - destruct (stop_evolves c (emit (EvAcquire ClientsLock) w)) as (tds & [_ T _] & F).
    cbn [emit trace set_clients]. rewrite T. cbn [emit trace].
    exists ([EvAcquire ClientsLock] ++ (tds ++ [EvRegRemove c]) ++ [EvRelease ClientsLock]).
    split; [by rewrite <- !app_assoc|].
    destruct (teardown_region tds F) as [F1 F2].
    apply disciplined_region; apply Forall_app; split; try done; by repeat constructor.
  - exists ([EvAcquire ClientsLock] ++ [] ++ [EvRelease ClientsLock]).
    split; [cbn; by rewrite <- !app_assoc|].
    apply disciplined_remove. constructor.
Qed.

(** C8, as amended: in every operation of either bridge, the registry lock
    is released when the operation ends, the registry is mutated only under
    it, and what runs under it is a registry mutation or one of the calls of
    [stop] (socket close, buffer close, link teardown), which [shutdown] and
    the egress [_link_closed] make with the lock held; no socket send, recv
    or connect and no buffer read, write or flush runs under it. *)
Theorem registry_lock_scope (op : bridge_op) (w : world) :
  exists evs,
    trace (run_op op w) = trace w ++ evs
    /\ clients_lock_after false evs = false
    /\ Forall (fun e => is_registry_mutation e = false) (outside_clients_lock false evs)
    /\ Forall (fun e => is_registry_mutation e || is_teardown_call e = true)
              (under_clients_lock false evs)
    /\ Forall (fun e => is_transfer_call e = false) (under_clients_lock false evs).
Proof.
  assert (H : exists evs, trace (run_op op w) = trace w ++ evs /\ lock_disciplined evs).
  { destruct op; cbn [run_op].
    - apply handle_client_trace.
    - apply client_shutdown_trace.
    - apply server_link_established_trace.
    - apply server_link_closed_trace.
    - apply server_shutdown_trace.
    - apply steps_disciplined, steps_run_activity. }
  destruct H as (evs & T & D1 & D2 & D3). exists evs.
  repeat (split; [done|]).
  eapply Forall_impl; [exact D2|]. intros e He. by destruct e.
Qed.

(** ** Ingress startup *)

Lemma hex_digit_plain (a : ascii) (v : N) :
  hex_digit a = Some v ->
  Ascii.eqb a ":" = false /\ Ascii.eqb a " " = false /\ is_ascii_space a = false.
Proof.
  destruct a as [[] [] [] [] [] [] [] []]; cbn; intros H; try discriminate H; done.
Qed.

Lemma formatted_strip (h s : string) :
  is_hex_string h = true -> formatted h s ->
  remove_char " " (remove_char ":" s) = h.
Proof.
  intros Hh F. induction F as [|a h s F IH| |]; cbn in *.
  - done.
  - destruct (hex_digit a) as [v|] eqn:Ha; [|done].
    destruct (hex_digit_plain a v Ha) as (H1 & H2 & _).
    rewrite H1. cbn. rewrite H2. by rewrite IH.
  - by apply IHF.
  - by apply IHF.
Qed.

Lemma hex_strip_id (h : string) :
  is_hex_string h = true -> remove_char " " (remove_char ":" h) = h.
Proof.
  induction h as [|a h IH]; cbn; [done|].
  destruct (hex_digit a) as [v|] eqn:Ha; [|done].
  destruct (hex_digit_plain a v Ha) as (H1 & H2 & _).
  intros Hh. rewrite H1. cbn. rewrite H2. by rewrite IH.
Qed.

Lemma fromhex_hex (n : nat) (h : string) :
  is_hex_string h = true -> String.length h = (n * 2)%nat ->
  exists bs, fromhex h = Some bs /\ length bs = n.
Proof.
  revert h. induction n as [|n IH]; intros h Hh Hl.
  - destruct h; [|done]. by exists [].
  - destruct h as [|a [|b h]]; try done. cbn in Hh, Hl.
    destruct (hex_digit a) as [va|] eqn:Ha; [|done].
    destruct (hex_digit b) as [vb|] eqn:Hb; [|done].
    destruct (hex_digit_plain a va Ha) as (_ & _ & Hs).
    destruct (IH h Hh) as (bs & Hbs & Hlen); [lia|].
    cbn [fromhex]. rewrite Hs, Ha, Hb, Hbs. eexists. split; [done|]. cbn. by rewrite Hlen.
Qed.

(** C4: a configured destination hash whose length, once [":"] and [" "]
    are taken out, is not [2 * (TRUNCATED_HASHLENGTH // 8)] makes [start]
    leave by [sys.exit(1)]; by then nothing has been recorded, so the
    listener socket was neither created nor bound. *)
Theorem start_rejects_wrong_length (TRUNCATED_HASHLENGTH : nat) (cfg : config)
    (path_at : Z -> bool) (w : world) :
  String.length (remove_char " " (remove_char ":" (server_destination_hash cfg)))
    <> (TRUNCATED_HASHLENGTH / 8 * 2)%nat ->
  let r := start TRUNCATED_HASHLENGTH cfg path_at w in
  r.1 = SysExit 1
  /\ (exists code, exit_status r.1 = Some code /\ code <> 0)
  /\ trace r.2 = trace w
  /\ listen_sock r.2 = listen_sock w.
Proof.
  intros H. unfold start, parse_destination_hash. cbn zeta.
  apply Nat.eqb_neq in H. rewrite H. cbn.
  repeat split. exists 1. done.
Qed.

(** C9: [start] takes [":"] and [" "] out of the configured hash before it
    checks the length. So for a valid hash [h] (hex digits only, of the
    expected length) every string [s] made from [h] by inserting colons and
    spaces is accepted and gives the same destination hash bytes as [h]
    itself, and [start] runs the same with either. *)
Theorem separators_are_ignored (TRUNCATED_HASHLENGTH : nat) (h s : string) :
  is_hex_string h = true ->
  String.length h = (TRUNCATED_HASHLENGTH / 8 * 2)%nat ->
  formatted h s ->
  remove_char " " (remove_char ":" s) = h
  /\ (exists bs, parse_destination_hash TRUNCATED_HASHLENGTH s = HashOk bs
                 /\ parse_destination_hash TRUNCATED_HASHLENGTH h = HashOk bs
                 /\ length bs = (TRUNCATED_HASHLENGTH / 8)%nat)
  /\ forall host port timeout path_at w,
       start TRUNCATED_HASHLENGTH
         {| server_destination_hash := s; listen_host := host;
            listen_port := port; path_request_timeout := timeout |} path_at w
       = start TRUNCATED_HASHLENGTH
           {| server_destination_hash := h; listen_host := host;
              listen_port := port; path_request_timeout := timeout |} path_at w.
Proof.
  intros Hh Hl F.
  pose proof (formatted_strip h s Hh F) as Hs.
  pose proof (hex_strip_id h Hh) as Hi.
  destruct (fromhex_hex _ h Hh Hl) as (bs & Hbs & Hlen).
  assert (P : forall x, remove_char " " (remove_char ":" x) = h ->
                parse_destination_hash TRUNCATED_HASHLENGTH x = HashOk bs).
  { intros x Hx. unfold parse_destination_hash. cbn zeta. rewrite Hx, Hl.
    rewrite Nat.eqb_refl. cbn. by rewrite Hbs. }
  split; [done|]. split; [exists bs; auto|].
  intros. unfold start. cbn [server_destination_hash path_request_timeout].
  by rewrite (P s Hs), (P h Hi).
Qed.



(** ** The local-to-remote pump *)

Arguments RECV_CAP : simpl never.

Lemma pending_size_recv (cap : nat) (d : bytes) (rest : list arrival) :
  take cap d <> [] ->
  (pending_size (match drop cap d with
                 | [] => rest
                 | r => Data r :: rest
                 end) < pending_size (Data d :: rest))%nat.
Proof.
  intros H.
  assert (L : length d = (length (take cap d) + length (drop cap d))%nat)
    by (rewrite <- length_app; by rewrite take_drop).
  assert (0 < length (take cap d))%nat by (destruct (take cap d); [done|cbn; lia]).
  unfold pending_size. cbn [foldr arrival_size]. rewrite L.
  destruct (drop cap d); cbn [foldr arrival_size length]; lia.
Qed.

Lemma pump_body_spec (c : conn_id) (cn : conn) (w : world) :
  conns w !! c = Some cn ->
  match pump_body c w with
  | inl (e, w') =>
      exists evs, trace w' = trace w ++ evs /\ pump_last c (tcp_sock cn) evs e
  | inr w' =>
      exists d, d <> [] /\ (length d <= RECV_CAP)%nat
                /\ trace w' = trace w ++ pump_round c (tcp_sock cn) d
                /\ (sock_pending c w' < sock_pending c w)%nat
                /\ exists cn', conns w' !! c = Some cn' /\ tcp_sock cn' = tcp_sock cn
  end.
Proof.
  intros E. unfold pump_body, sock_pending. rewrite E.
  destruct (running cn); cbn [negb]; cycle 1.
  { exists []. split; [by rewrite app_nil_r|constructor]. }
  unfold sock_recv.
  destruct (socks w !! tcp_sock cn) as [sk|] eqn:Es; cycle 1.
  { exists []. split; [by rewrite app_nil_r|by constructor; left]. }
  destruct (sock_closed sk).
  { exists [EvSockRecv (tcp_sock cn) None]. split; [done|by constructor; right]. }
  destruct (sock_in sk) as [|[d|] rest] eqn:Ein.
  { exists []. split; [by rewrite app_nil_r|constructor]. }
  2:{ exists [EvSockRecv (tcp_sock cn) None]. split; [done|by constructor; right]. }
  destruct (take RECV_CAP d) as [|b0 d0] eqn:Et.
  { exists [EvSockRecv (tcp_sock cn) (Some [])]. split; [done|constructor]. }
  assert (Hlen : (length (b0 :: d0) <= RECV_CAP)%nat).
  { rewrite <- Et, length_take. lia. }
  unfold buf_write. cbn [emit update_sock set_socks conns]. rewrite E.
  destruct (buffer cn) as [b|] eqn:Eb; cycle 1.
  { eexists. split; [cbn; rewrite <- !app_assoc; reflexivity|].
    apply (last_buffer_error c _ (b0 :: d0) []); [done|done|by left]. }
  destruct (buf_closed b) eqn:Ec.
  { eexists. split; [cbn; rewrite <- !app_assoc; reflexivity|].
    apply (last_buffer_error c _ (b0 :: d0) [EvBufWrite c (b0 :: d0)]);
      [done|done|by right; left]. }
  unfold buf_flush. cbn [emit update_conn set_conns conns].
  rewrite lookup_insert_eq. cbn [buffer set_buffer buf_closed buf_fails orb].
  destruct (buf_fails b) eqn:Ef.
  { eexists. split; [cbn; rewrite <- !app_assoc; reflexivity|].
    apply (last_buffer_error c _ (b0 :: d0) [EvBufWrite c (b0 :: d0); EvBufFlush c]);
      [done|done|by right; right]. }
  exists (b0 :: d0). split; [done|]. split; [done|].
  split; [cbn; by rewrite <- !app_assoc|].
  cbn. rewrite !lookup_insert_eq. cbn. rewrite ?lookup_insert_eq. cbn.
  split; [|by eexists].
  pose proof (pending_size_recv RECV_CAP d rest) as P. rewrite Et in P.
  cbn in P. apply P. done.
Qed.

Lemma pump_spec (fuel : nat) (c : conn_id) (cn : conn) (w : world) :
  conns w !! c = Some cn -> (sock_pending c w < fuel)%nat ->
  exists e w' evs, pump fuel c w = Some (e, w')
                   /\ trace w' = trace w ++ evs
                   /\ pump_run c (tcp_sock cn) evs e.
Proof.
  revert cn w. induction fuel as [|fuel IH]; intros cn w E Hf; [lia|].
  cbn [pump]. pose proof (pump_body_spec c cn w E) as HB.
  destruct (pump_body c w) as [[e w']|w'].
  - destruct HB as (evs & T & L). exists e, w', evs. split; [done|]. split; [done|].
    by constructor.
  - destruct HB as (d & Hd & Hl & T & Hp & cn' & E' & S').
    destruct (IH cn' w' E') as (e & w'' & evs & Hpump & T' & R); [lia|].
    exists e, w'', (pump_round c (tcp_sock cn) d ++ evs).
    split; [done|]. split; [by rewrite T', T, app_assoc|].
    rewrite S' in R. by constructor.
Qed.

(** C6: one run of [_tcp_to_rns_loop], of either role. Every chunk that
    [recv] returns has at most [RECV_CAP] = 4096 bytes; a non-empty chunk
    is written to the buffer and flushed, under the buffer lock, before the
    next [recv]; an empty read or a raising [recv] (or a raising [write] or
    [flush]) ends the loop, and when the loop has ended [stop] has run: the
    connection is not running and what is recorded after the loop is
    teardown calls only. The loop may also stay blocked in [recv]. *)
Theorem tcp_to_rns_loop_rounds (c : conn_id) (cn : conn) (w : world) :
  conns w !! c = Some cn ->
  exists evs tds,
    trace (tcp_to_rns_loop c w).2 = trace w ++ evs ++ tds
    /\ pump_run c (tcp_sock cn) evs (tcp_to_rns_loop c w).1
    /\ Forall (fun e => is_teardown_call e = true) tds
    /\ ((tcp_to_rns_loop c w).1 = PumpBlocks -> tds = [])
    /\ ((tcp_to_rns_loop c w).1 <> PumpBlocks ->
        is_running c (tcp_to_rns_loop c w).2 = false).
Proof.
  intros E. unfold tcp_to_rns_loop.
  destruct (pump_spec (S (sock_pending c w)) c cn w E) as (e & w' & evs & -> & T & R); [lia|].
  destruct (stop_evolves c w') as (tds & [_ Ts _] & F).
  destruct e; cbn [fst snd].
  - exists evs, tds. rewrite Ts, T, app_assoc.
    split; [done|]. split; [done|]. split; [done|]. split; [done|].
    intros _. apply stop_not_running.
  - exists evs, tds. rewrite Ts, T, app_assoc.
    split; [done|]. split; [done|]. split; [done|]. split; [done|].
    intros _. apply stop_not_running.
  - exists evs, []. rewrite app_nil_r.
    split; [done|]. split; [done|]. split; [constructor|]. split; done.
Qed.

(** ** Byte transparency *)

Lemma chunks_read_app s a b : chunks_read s (a ++ b) = chunks_read s a ++ chunks_read s b.
Proof.
  induction a as [|e a IH]; [done|].
  destruct e as [| |s' [[|x d]|]| | | | | | | | | | | | | | | | | | | | | ];
    cbn; rewrite ?IH; try done. by destruct (decide (s' = s)).
Qed.

Lemma chunks_written_app c a b :
  chunks_written c (a ++ b) = chunks_written c a ++ chunks_written c b.
Proof.
  induction a as [|e a IH]; [done|].
  destruct e as [| | | | | | |c' d| | | | | | | | | | | | | | | | ];
    cbn; rewrite ?IH; try done. by destruct (decide (c' = c)).
Qed.

Lemma chunks_sent_app s a b : chunks_sent s (a ++ b) = chunks_sent s a ++ chunks_sent s b.
Proof.
  induction a as [|e a IH]; [done|].
  destruct e as [| | |s' d| | | | | | | | | | | | | | | | | | | | ];
    cbn; rewrite ?IH; try done. by destruct (decide (s' = s)).
Qed.

Lemma teardown_moves_nothing s c evs :
  Forall (fun e => is_teardown_call e = true) evs ->
  chunks_read s evs = [] /\ chunks_written c evs = [] /\ chunks_sent s evs = [].
Proof.
  induction 1 as [|e evs He _ IH]; [done|]. by destruct e.
Qed.

Lemma pump_round_chunks c s d :
  d <> [] ->
  chunks_read s (pump_round c s d) = [d] /\ chunks_written c (pump_round c s d) = [d].
Proof.
  intros Hd. destruct d as [|x d]; [done|]. cbn. by rewrite !decide_True.
Qed.

Lemma pump_body_healthy (c : conn_id) (cn : conn) (b : rns_buffer) (w : world) :
  conns w !! c = Some cn -> buffer cn = Some b -> healthy b ->
  match pump_body c w with
  | inl (e, w') =>
      conns w' !! c = Some cn
      /\ exists evs, trace w' = trace w ++ evs
                     /\ chunks_read (tcp_sock cn) evs = []
                     /\ chunks_written c evs = []
  | inr w' =>
      exists d b', d <> []
                   /\ trace w' = trace w ++ pump_round c (tcp_sock cn) d
                   /\ conns w' !! c = Some (set_buffer (Some b') cn)
                   /\ healthy b' /\ buf_out b' = buf_out b ++ d
  end.
Proof.
  intros E Eb (Hc & Hf & Hp). unfold pump_body. rewrite E.
  destruct (running cn); cbn [negb]; cycle 1.
  { split; [done|]. exists []. by rewrite app_nil_r. }
  unfold sock_recv.
  destruct (socks w !! tcp_sock cn) as [sk|] eqn:Es; cycle 1.
  { split; [done|]. exists []. by rewrite app_nil_r. }
  destruct (sock_closed sk).
  { split; [done|]. by exists [EvSockRecv (tcp_sock cn) None]. }
  destruct (sock_in sk) as [|[d|] rest] eqn:Ein.
  { split; [done|]. exists []. by rewrite app_nil_r. }
  2:{ split; [done|]. by exists [EvSockRecv (tcp_sock cn) None]. }
  destruct (take RECV_CAP d) as [|b0 d0] eqn:Et.
  { split; [done|]. by exists [EvSockRecv (tcp_sock cn) (Some [])]. }
  unfold buf_write. cbn [emit update_sock set_socks conns]. rewrite E, Eb, Hc.
  unfold buf_flush. cbn [emit update_conn set_conns conns].
  rewrite lookup_insert_eq. cbn [buffer set_buffer buf_closed buf_fails orb]. rewrite Hf.
  eexists (b0 :: d0), _. split; [done|].
  split; [cbn; by rewrite <- !app_assoc|].
  split.
  { cbn. rewrite lookup_insert_eq. reflexivity. }
  split; [done|]. cbn. by rewrite Hp.
Qed.

Lemma pump_healthy (fuel : nat) (c : conn_id) (cn : conn) (b : rns_buffer)
    (w : world) (e : pump_end) (w' : world) :
  conns w !! c = Some cn -> buffer cn = Some b -> healthy b ->
  pump fuel c w = Some (e, w') ->
  exists evs b',
    trace w' = trace w ++ evs
    /\ conns w' !! c = Some (set_buffer (Some b') cn)
    /\ chunks_written c evs = chunks_read (tcp_sock cn) evs
    /\ buf_out b' = buf_out b ++ concat (chunks_read (tcp_sock cn) evs).
Proof.
  revert cn b w. induction fuel as [|fuel IH]; intros cn b w E Eb H Hp; [done|].
  cbn [pump] in Hp. pose proof (pump_body_healthy c cn b w E Eb H) as HB.
  destruct (pump_body c w) as [[e0 w0]|w0].
  - injection Hp as -> ->. destruct HB as (E' & evs & T & R & W).
    exists evs, b. rewrite R, W. cbn. rewrite app_nil_r.
    split; [done|]. split; [|done]. rewrite E'. f_equal.
    destruct cn; cbn in *; by subst.
  - destruct HB as (d & b1 & Hd & T & E1 & H1 & O1).
    destruct (IH _ b1 w0 E1 eq_refl H1 Hp) as (evs & b' & T' & E'' & CW & BO).
    cbn [tcp_sock set_buffer] in *.
    destruct (pump_round_chunks c (tcp_sock cn) d Hd) as [PR PW].
    exists (pump_round c (tcp_sock cn) d ++ evs), b'.
    rewrite chunks_read_app, chunks_written_app, PR, PW.
    split; [by rewrite T', T, app_assoc|]. split; [done|].
    split; [by rewrite CW|]. cbn. by rewrite BO, O1, <- app_assoc.
Qed.

Lemma sock_close_conns s w : conns (sock_close s w) = conns w.
Proof. unfold sock_close. crush_frame. Qed.

Lemma stop_keeps_buf_out (c : conn_id) (cn : conn) (b : rns_buffer) (w : world) :
  conns w !! c = Some cn -> buffer cn = Some b ->
  exists cn' b', conns (stop c w) !! c = Some cn' /\ buffer cn' = Some b'
                 /\ buf_out b' = buf_out b.
Proof.
  intros E Eb. unfold stop. rewrite E.
  destruct (running cn); cbn [negb]; [|by exists cn, b].
  cbn zeta. rewrite Eb.
  assert (H : exists cn' b',
             conns (buf_close c (sock_close (tcp_sock cn)
                      (update_conn c (set_running false cn) w))) !! c = Some cn'
             /\ buffer cn' = Some b' /\ buf_out b' = buf_out b).
  { unfold buf_close. rewrite sock_close_conns. cbn [update_conn set_conns conns].
    rewrite lookup_insert_eq. cbn [buffer set_running]. rewrite Eb.
    cbn. rewrite lookup_insert_eq. by eexists _, _. }
  by destruct (link_is_active _ _).
Qed.

Lemma buf_read_ok (c : conn_id) (n : nat) (w : world) (cn : conn) (b : rns_buffer) :
  conns w !! c = Some cn -> buffer cn = Some b -> buf_closed b = false ->
  buf_read c n w
  = (Ok (take n (buf_in b)),
     emit (EvBufRead c n)
       (update_conn c
          (set_buffer
             (Some {| buf_closed := false; buf_fails := buf_fails b;
                      buf_pending := buf_pending b; buf_out := buf_out b;
                      buf_in := drop n (buf_in b) |}) cn) w)).
Proof. intros E Eb Hc. unfold buf_read. by rewrite E, Eb, Hc. Qed.

Lemma sock_sendall_ok (s : sock_id) (d : bytes) (w : world) (sk : socket) :
  socks w !! s = Some sk -> sock_closed sk = false -> sock_budget sk = None ->
  sock_sendall s d w
  = (Ok tt,
     emit (EvSockSendall s d)
       (update_sock s
          {| sock_closed := false; sock_in := sock_in sk;
             sock_budget := None; sock_out := sock_out sk ++ d |} w)).
Proof. intros E Hc Hb. unfold sock_sendall. by rewrite E, Hc, Hb. Qed.

(** One delivery to a session in working order: running, with an open
    buffer that holds no unread bytes and an open socket whose peer keeps
    taking bytes. *)
Lemma remote_sends_active (c : conn_id) (cn : conn) (b : rns_buffer)
    (sk : socket) (d : bytes) (w : world) :
  conns w !! c = Some cn -> running cn = true ->
  buffer cn = Some b -> buf_closed b = false -> buf_in b = [] ->
  socks w !! tcp_sock cn = Some sk -> sock_closed sk = false -> sock_budget sk = None ->
  exists evs sk',
    trace (remote_sends c d w) = trace w ++ evs
    /\ chunks_sent (tcp_sock cn) evs = (if nonempty d then [d] else [])
    /\ conns (remote_sends c d w) !! c = Some cn
    /\ socks (remote_sends c d w) !! tcp_sock cn = Some sk'
    /\ sock_closed sk' = false /\ sock_budget sk' = None
    /\ sock_out sk' = sock_out sk ++ d.
Proof.
  intros E R Eb Hc Hin Es Hsc Hsb.
  assert (Hcn : set_buffer
                  (Some {| buf_closed := false; buf_fails := buf_fails b;
                           buf_pending := buf_pending b; buf_out := buf_out b;
                           buf_in := [] |}) cn = cn).
  { destruct cn as [? ? bf ? ? ?]; cbn in *. subst bf. destruct b; cbn in *. by subst. }
  unfold remote_sends, buf_receive. rewrite E, Eb, Hin. cbn [app].
  set (b0 := {| buf_closed := buf_closed b; buf_fails := buf_fails b;
                buf_pending := buf_pending b; buf_out := buf_out b; buf_in := d |}).
  set (w0 := update_conn c (set_buffer (Some b0) cn) w).
  assert (E0 : conns w0 !! c = Some (set_buffer (Some b0) cn))
    by (cbn; by rewrite lookup_insert_eq).
  unfold rns_data_ready. rewrite E0. cbn [running set_buffer]. rewrite R. cbn [negb].
  rewrite (buf_read_ok c (length d) (emit (EvAcquire (BufferLock c)) w0) _ b0 E0 eq_refl Hc).
  cbn [buf_in b0 buf_fails buf_pending buf_out]. rewrite firstn_all, skipn_all.
  assert (Hw : update_conn c
                 (set_buffer
                    (Some {| buf_closed := false; buf_fails := buf_fails b;
                             buf_pending := buf_pending b; buf_out := buf_out b;
                             buf_in := [] |}) (set_buffer (Some b0) cn))
                 (emit (EvAcquire (BufferLock c)) w0)
               = emit (EvAcquire (BufferLock c)) w).
  { unfold w0, update_conn, set_conns, emit. cbn.
    rewrite insert_insert_eq.
    change (set_buffer _ (set_buffer (Some b0) cn))
      with (set_buffer
              (Some {| buf_closed := false; buf_fails := buf_fails b;
                       buf_pending := buf_pending b; buf_out := buf_out b;
                       buf_in := [] |}) cn).
    rewrite Hcn, insert_id by done. done. }
  rewrite Hw. destruct d as [|x d].
  - exists [EvAcquire (BufferLock c); EvBufRead c 0; EvRelease (BufferLock c)], sk.
    cbn. rewrite <- !app_assoc, app_nil_r. done.
  - erewrite sock_sendall_ok; [|exact Es|exact Hsc|exact Hsb].
    eexists [EvAcquire (BufferLock c); EvBufRead c _; EvRelease (BufferLock c);
             EvSockSendall (tcp_sock cn) (x :: d)], _.
    cbn. rewrite <- !app_assoc, lookup_insert_eq, decide_True by done. done.
Qed.

Lemma deliver_all_active (c : conn_id) (cn : conn) (b : rns_buffer)
    (ds : list bytes) (sk : socket) (w : world) :
  conns w !! c = Some cn -> running cn = true ->
  buffer cn = Some b -> buf_closed b = false -> buf_in b = [] ->
  socks w !! tcp_sock cn = Some sk -> sock_closed sk = false -> sock_budget sk = None ->
  exists evs sk',
    trace (deliver_all c ds w) = trace w ++ evs
    /\ chunks_sent (tcp_sock cn) evs = filter (fun d => nonempty d = true) ds
    /\ conns (deliver_all c ds w) !! c = Some cn
    /\ socks (deliver_all c ds w) !! tcp_sock cn = Some sk'
    /\ sock_out sk' = sock_out sk ++ concat ds.
Proof.
  revert sk w. induction ds as [|d ds IH]; intros sk w E R Eb Hc Hin Es Hsc Hsb.
  - exists [], sk. cbn. by rewrite !app_nil_r.
  - destruct (remote_sends_active c cn b sk d w E R Eb Hc Hin Es Hsc Hsb)
      as (e1 & sk1 & T1 & S1 & E1 & Es1 & Hsc1 & Hsb1 & O1).
    destruct (IH sk1 (remote_sends c d w) E1 R Eb Hc Hin Es1 Hsc1 Hsb1)
      as (e2 & sk2 & T2 & S2 & E2 & Es2 & O2).
    exists (e1 ++ e2), sk2.
    change (deliver_all c (d :: ds) w) with (deliver_all c ds (remote_sends c d w)).
    split; [by rewrite T2, T1, app_assoc|].
    split.
    { rewrite chunks_sent_app, S1, S2. rewrite filter_cons.
      destruct d; cbn [nonempty]; case_decide; done. }
    split; [done|]. split; [done|].
    cbn. by rewrite O2, O1, app_assoc.
Qed.

(** C2, as amended: byte transparency of a session in working order (the
    connection is running, its buffer is open, works and holds nothing
    pending or unread, its socket is open and the peer keeps taking bytes).
    Local to remote: in a run of [_tcp_to_rns_loop], whatever the socket
    delivers, the chunks written to the buffer are the non-empty chunks
    that [recv] returned, in the same order, and the channel has received
    exactly their concatenation.
    Remote to local, for calls of the readiness callback that run one
    after the other, each returning before the next starts: the chunks
    [ds] that the channel delivers are each passed whole to [sendall] in
    the order delivered, and the socket has sent exactly their
    concatenation. Calls that overlap are not covered: [sendall] comes
    after the buffer lock is released. *)
Theorem byte_transparency (c : conn_id) (cn : conn) (b : rns_buffer)
    (sk : socket) (ds : list bytes) (w : world) :
  conns w !! c = Some cn -> running cn = true ->
  buffer cn = Some b -> healthy b -> buf_in b = [] ->
  socks w !! tcp_sock cn = Some sk -> sock_closed sk = false -> sock_budget sk = None ->
  (exists evs cn' b',
      trace (tcp_to_rns_loop c w).2 = trace w ++ evs
      /\ conns (tcp_to_rns_loop c w).2 !! c = Some cn'
      /\ buffer cn' = Some b'
      /\ chunks_written c evs = chunks_read (tcp_sock cn) evs
      /\ buf_out b' = buf_out b ++ concat (chunks_read (tcp_sock cn) evs))
  /\ (exists evs sk',
         trace (deliver_all c ds w) = trace w ++ evs
         /\ socks (deliver_all c ds w) !! tcp_sock cn = Some sk'
         /\ chunks_sent (tcp_sock cn) evs = filter (fun d => nonempty d = true) ds
         /\ sock_out sk' = sock_out sk ++ concat ds
         /\ is_running c (deliver_all c ds w) = true).
Proof.
  intros E R Eb H Hin Es Hsc Hsb. split.
  - unfold tcp_to_rns_loop.
    destruct (pump_spec (S (sock_pending c w)) c cn w E) as (e & w' & ? & Hp & _ & _); [lia|].
    rewrite Hp.
    destruct (pump_healthy _ c cn b w e w' E Eb H Hp) as (evs & b1 & T & E1 & CW & BO).
    assert (Hstop : exists tds cn' b',
               trace (stop c w') = trace w ++ evs ++ tds
               /\ Forall (fun e => is_teardown_call e = true) tds
               /\ conns (stop c w') !! c = Some cn' /\ buffer cn' = Some b'
               /\ buf_out b' = buf_out b1).
    { destruct (stop_evolves c w') as (tds & [_ Ts _] & F).
      destruct (stop_keeps_buf_out c _ b1 w' E1 eq_refl) as (cn' & b' & E' & Eb' & O').
      exists tds, cn', b'. rewrite Ts, T, app_assoc. done. }
    destruct Hstop as (tds & cn' & b' & Ts & F & E' & Eb' & O').
    destruct (teardown_moves_nothing (tcp_sock cn) c tds F) as (TR & TW & _).
    destruct e; cbn [fst snd].
    + exists (evs ++ tds), cn', b'.
      rewrite chunks_read_app, chunks_written_app, TR, TW, !app_nil_r, O'. done.
    + exists (evs ++ tds), cn', b'.
      rewrite chunks_read_app, chunks_written_app, TR, TW, !app_nil_r, O'. done.
    + by exists evs, (set_buffer (Some b1) cn), b1.
  - destruct H as (Hc & _ & _).
    destruct (deliver_all_active c cn b ds sk w E R Eb Hc Hin Es Hsc Hsb)
      as (evs & sk' & T & S & E' & Es' & O).
    exists evs, sk'. repeat (split; [done|]).
    unfold is_running. by rewrite E'.
Qed.

(** ** Overlapping readiness callbacks *)

Lemma run_callbacks_step (c : conn_id) (r : list nat) (pc : ready_pc) (w : world) :
  run_callbacks c (0%nat :: r) [pc] w
  = run_callbacks c r [(ready_step c pc w).1] (ready_step c pc w).2.
Proof. cbn. by destruct (ready_step c pc w). Qed.

Lemma ready_step_done (c : conn_id) (w : world) :
  ready_step c AtDone w = (AtDone, w).
Proof. unfold ready_step. by destruct (conns w !! c). Qed.

Lemma ready_step_except (c : conn_id) (w : world) :
  ready_step c AtExcept w = (AtDone, stop c w).
Proof. unfold ready_step, stop. by destruct (conns w !! c). Qed.

(** One call alone goes through [_rns_data_ready] as written. *)
Lemma run_callbacks_alone (c : conn_id) (n : nat) (w : world) :
  run_callbacks c [0; 0; 0; 0]%nat [AtRunningTest n] w = ([AtDone], rns_data_ready c n w).
Proof.
  unfold rns_data_ready. rewrite run_callbacks_step.
  destruct (conns w !! c) as [cn|] eqn:E.
  2:{ unfold ready_step at 1 2. rewrite E. cbn [fst snd].
      by rewrite !run_callbacks_step, !ready_step_done. }
  destruct (running cn) eqn:R; cbn [negb].
  2:{ unfold ready_step at 1 2. rewrite E, R. cbn [fst snd negb].
      by rewrite !run_callbacks_step, !ready_step_done. }
  unfold ready_step at 1 2. rewrite E, R. cbn [fst snd negb].
  rewrite run_callbacks_step. unfold ready_step at 1 2. rewrite E.
  destruct (steps_buf_read (fun _ => true) c n (emit (EvAcquire (BufferLock c)) w))
    as (evs & [_ _ F] & _); [done|].
  destruct (F c cn E) as (cn2 & E2 & S2 & _).
  destruct (buf_read c n (emit (EvAcquire (BufferLock c)) w)) as [r w2].
  cbn [fst snd] in *.
  destruct r as [data|]; cbn [fst snd].
  - rewrite run_callbacks_step. unfold ready_step at 1 2.
    cbn [conns emit]. rewrite E2, S2.
    destruct data as [|x data]; cbn [fst snd].
    + by rewrite run_callbacks_step, ready_step_done.
    + destruct (sock_sendall (tcp_sock cn) (x :: data) (emit (EvRelease (BufferLock c)) w2))
        as [[u|] w4]; cbn [fst snd].
      * by rewrite run_callbacks_step, ready_step_done.
      * by rewrite run_callbacks_step, ready_step_except.
  - rewrite run_callbacks_step, ready_step_except. cbn [fst snd].
    by rewrite run_callbacks_step, ready_step_done.
Qed.

(** C2, counterexample. In [demo_world_received] the channel has delivered
    a chunk of two bytes and then a chunk of one byte, and the two calls
    of the readiness callback overlap: the first reads its chunk and
    releases the buffer lock, the second reads and sends its chunk, and
    only then the first sends. The buffer was read in the order of
    delivery, the session is still running, and the socket has been sent
    the second chunk before the first. The same two calls one after the
    other send in the order of delivery. *)
Lemma callbacks_overlap_reorder :
  (run_callbacks 0%nat [0; 0; 1; 1; 1; 0]%nat [AtRunningTest 2; AtRunningTest 1]
     demo_world_received).1 = [AtDone; AtDone]
  /\ trace (run_callbacks 0%nat [0; 0; 1; 1; 1; 0]%nat [AtRunningTest 2; AtRunningTest 1]
              demo_world_received).2
     = [EvAcquire (BufferLock 0%nat); EvBufRead 0%nat 2; EvRelease (BufferLock 0%nat);
        EvAcquire (BufferLock 0%nat); EvBufRead 0%nat 1; EvRelease (BufferLock 0%nat);
        EvSockSendall 0%nat [10]%N; EvSockSendall 0%nat [58; 115]%N]
  /\ chunks_sent 0%nat
       (trace (run_callbacks 0%nat [0; 0; 1; 1; 1; 0]%nat
                 [AtRunningTest 2; AtRunningTest 1] demo_world_received).2)
     = [[10]%N; [58; 115]%N]
  /\ is_running 0%nat
       (run_callbacks 0%nat [0; 0; 1; 1; 1; 0]%nat [AtRunningTest 2; AtRunningTest 1]
          demo_world_received).2 = true
  /\ chunks_sent 0%nat
       (trace (rns_data_ready 0%nat 1 (rns_data_ready 0%nat 2 demo_world_received)))
     = [[58; 115]%N; [10]%N].
Proof. vm_compute. repeat split. Qed.

(** ** Concurrent callers of [stop] *)

Lemma run_schedule_step (c : conn_id) (r : list nat) (pc : stop_pc) (w : world) :
  run_schedule c (0%nat :: r) [pc] w
  = run_schedule c r [(stop_step c pc w).1] (stop_step c pc w).2.
Proof. cbn. by destruct (stop_step c pc w). Qed.

Lemma stop_step_return (c : conn_id) (w : world) :
  stop_step c AtReturn w = (AtReturn, w).
Proof. unfold stop_step. by destruct (conns w !! c). Qed.

(** One caller alone goes through [stop] as written. *)
Lemma run_schedule_alone (c : conn_id) (w : world) :
  run_schedule c [0; 0; 0; 0; 0]%nat [AtCheck] w = ([AtReturn], stop c w).
Proof.
  unfold stop. rewrite run_schedule_step.
  destruct (conns w !! c) as [cn|] eqn:E.
  2:{ unfold stop_step at 1 2. rewrite E. cbn [fst snd].
      by rewrite !run_schedule_step, !stop_step_return. }
  destruct (running cn) eqn:R; cbn [negb].
  2:{ unfold stop_step at 1 2. rewrite E, R. cbn [fst snd negb].
      by rewrite !run_schedule_step, !stop_step_return. }
  unfold stop_step at 1 2. rewrite E, R. cbn [fst snd negb].
  rewrite run_schedule_step. unfold stop_step at 1 2. rewrite E. cbn [fst snd].
  set (w1 := update_conn c (set_running false cn) w).
  assert (E1 : conns w1 !! c = Some (set_running false cn))
    by (cbn; by rewrite lookup_insert_eq).
  rewrite run_schedule_step. unfold stop_step at 1 2. rewrite E1. cbn [fst snd tcp_sock set_running].
  set (w2 := sock_close (tcp_sock cn) w1).
  assert (E2 : conns w2 !! c = Some (set_running false cn))
    by (unfold w2; by rewrite sock_close_conns).
  rewrite run_schedule_step. unfold stop_step at 1 2. rewrite E2. cbn [fst snd buffer set_running].
  set (w3 := match buffer cn with Some _ => buf_close c w2 | None => w2 end).
  assert (E3 : exists cn3, conns w3 !! c = Some cn3 /\ link cn3 = link cn).
  { unfold w3. destruct (buffer cn) eqn:B; [|by eexists].
    unfold buf_close. rewrite E2. cbn. rewrite B. cbn. rewrite lookup_insert_eq. by eexists. }
  destruct E3 as (cn3 & E3 & L3).
  rewrite run_schedule_step. unfold stop_step at 1 2. rewrite E3, L3. done.
Qed.

(** C1, counterexample. In [demo_world] the pump reads the end of the
    stream and calls [stop]: the connection is stopped and still in the
    registry, and no removal was recorded. And when two callers of [stop]
    both test [self.running] before either clears it, the socket and the
    buffer are closed twice. *)
Lemma stop_is_not_one_deregistration :
  (is_running 0%nat (tcp_to_rns_loop 0%nat demo_world).2 = false
   /\ clients (tcp_to_rns_loop 0%nat demo_world).2 = [0%nat]
   /\ occurrences (EvRegRemove 0%nat) (trace (tcp_to_rns_loop 0%nat demo_world).2) = 0%nat)
  /\ (let r := run_schedule 0%nat [0; 1; 0; 0; 0; 0; 1; 1; 1; 1]%nat
                 [AtCheck; AtCheck] demo_world in
      r.1 = [AtReturn; AtReturn]
      /\ occurrences (EvSockClose 0%nat) (trace r.2) = 2%nat
      /\ occurrences (EvBufClose 0%nat) (trace r.2) = 2%nat).
Proof. vm_compute. repeat split. Qed.

(** C3, counterexample. A client is accepted in [demo_world] and its link
    is reported closed at once: establishment has failed, the connection
    is never ready, and yet the connection object was allocated and stood
    in the registry while the handler waited. *)
Lemma handle_client_registers_before_wait :
  let c := (IRCClientBridge.handle_client_setup 5%nat demo_world).1 in
  let waiting := (IRCClientBridge.handle_client_setup 5%nat demo_world).2 in
  let after := IRCClientBridge.wait_link demo_link_fails c 0 waiting in
  ClientBridgedConnection.is_ready c after = false
  /\ ClientBridgedConnection.is_failed c after = true
  /\ conns waiting !! c = Some (ClientBridgedConnection.init 1%nat 5%nat)
  /\ clients demo_world = [0%nat]
  /\ clients waiting = [0%nat; c].
Proof. vm_compute. repeat split. Qed.

(** C8, counterexample. [shutdown] of the ingress bridge in [demo_world]
    closes the socket and the buffer of the connection and tears its link
    down while it holds the registry lock; so does [_link_closed] of the
    egress bridge. *)
Lemma shutdown_stops_under_registry_lock :
  under_clients_lock false (trace (IRCClientBridge.shutdown demo_world))
  = [EvSockClose 0%nat; EvBufClose 0%nat; EvLinkTeardown 0%nat; EvRegClear]
  /\ under_clients_lock false (trace (IRCServerBridge.link_closed 0%nat demo_world))
     = [EvSockClose 0%nat; EvBufClose 0%nat; EvLinkTeardown 0%nat; EvRegRemove 0%nat]
  /\ is_blocking_io (EvSockClose 0%nat) = true
  /\ is_blocking_io (EvBufClose 0%nat) = true
  /\ is_blocking_io (EvLinkTeardown 0%nat) = true.
Proof. vm_compute. repeat split. Qed.

(** ** The theorems at work on the small world *)

(** Three calls of [stop] on the connection of [demo_world]. *)
Lemma stop_sequential_once_witness :
  Nat.iter 3 (stop 0%nat) demo_world = stop 0%nat demo_world
  /\ trace (Nat.iter 3 (stop 0%nat) demo_world)
     = trace demo_world ++ teardown_calls 0%nat demo_conn demo_world.
Proof.
  destruct (stop_sequential_once 0%nat demo_conn demo_world 2) as (H1 & H2 & _);
    [reflexivity|reflexivity|].
  exact (conj H1 H2).
Defined.

(** The fuel that [tcp_to_rns_loop] gives its loop is always enough. *)
Lemma tcp_to_rns_loop_fuel (c : conn_id) (w : world) :
  is_Some (pump (S (sock_pending c w)) c w).
Proof.
  destruct (conns w !! c) as [cn|] eqn:E.
  - destruct (pump_spec (S (sock_pending c w)) c cn w E) as (e & w' & evs & -> & _); [lia|].
    by eexists.
  - cbn [pump]. unfold pump_body. rewrite E. by eexists.
Qed.

(** Byte transparency in [demo_world]: the pump run, and three chunks
    (one of them empty) delivered by the channel. *)
Lemma byte_transparency_witness :
  (exists evs cn' b',
      trace (tcp_to_rns_loop 0%nat demo_world).2 = trace demo_world ++ evs
      /\ conns (tcp_to_rns_loop 0%nat demo_world).2 !! 0%nat = Some cn'
      /\ buffer cn' = Some b'
      /\ chunks_written 0%nat evs = chunks_read (tcp_sock demo_conn) evs
      /\ buf_out b' = buf_out new_buffer ++ concat (chunks_read (tcp_sock demo_conn) evs))
  /\ (exists evs sk',
         trace (deliver_all 0%nat [[58; 115]%N; []; [10]%N] demo_world)
         = trace demo_world ++ evs
         /\ socks (deliver_all 0%nat [[58; 115]%N; []; [10]%N] demo_world)
              !! tcp_sock demo_conn = Some sk'
         /\ chunks_sent (tcp_sock demo_conn) evs
            = filter (fun d => nonempty d = true) [[58; 115]%N; []; [10]%N]
         /\ sock_out sk' = sock_out demo_sock ++ concat [[58; 115]%N; []; [10]%N]
         /\ is_running 0%nat (deliver_all 0%nat [[58; 115]%N; []; [10]%N] demo_world) = true).
Proof.
  apply (byte_transparency 0%nat demo_conn new_buffer demo_sock
           [[58; 115]%N; []; [10]%N] demo_world); try reflexivity.
  repeat split.
Defined.

(** The registry of [demo_world] holds an object that exists. *)
Lemma demo_registry_wf : registry_wf demo_world.
Proof.
  intros c Hc. apply list_elem_of_singleton in Hc as ->. by eexists.
Defined.

(** A client accepted in [demo_world] whose link is reported closed: the
    registry ends as it was and the new connection is stopped. *)
Lemma handle_client_failure_witness :
  clients (IRCClientBridge.handle_client true demo_link_fails 5%nat demo_world)
  = clients demo_world
  /\ is_running 1%nat (IRCClientBridge.handle_client true demo_link_fails 5%nat demo_world)
     = false.
Proof.
  destruct (handle_client_failure demo_link_fails 5%nat demo_world demo_registry_wf)
    as (_ & H1 & H2 & _); [vm_compute; reflexivity|].
  exact (conj H1 H2).
Defined.

(** A hash of six hex digits is refused. *)
Lemma start_rejects_wrong_length_witness :
  (start 128 (demo_config "00:11:22") (fun _ => true) demo_world).1 = SysExit 1
  /\ trace (start 128 (demo_config "00:11:22") (fun _ => true) demo_world).2
     = trace demo_world.
Proof.
  destruct (start_rejects_wrong_length 128 (demo_config "00:11:22") (fun _ => true)
              demo_world) as (H1 & _ & H2 & _); [vm_compute; lia|].
  exact (conj H1 H2).
Defined.


(** The pump run of [demo_world]. *)
Lemma tcp_to_rns_loop_rounds_witness :
  exists evs tds,
    trace (tcp_to_rns_loop 0%nat demo_world).2 = trace demo_world ++ evs ++ tds
    /\ pump_run 0%nat (tcp_sock demo_conn) evs (tcp_to_rns_loop 0%nat demo_world).1
    /\ Forall (fun e => is_teardown_call e = true) tds
    /\ ((tcp_to_rns_loop 0%nat demo_world).1 = PumpBlocks -> tds = [])
    /\ ((tcp_to_rns_loop 0%nat demo_world).1 <> PumpBlocks ->
        is_running 0%nat (tcp_to_rns_loop 0%nat demo_world).2 = false).
Proof. apply (tcp_to_rns_loop_rounds 0%nat demo_conn demo_world). reflexivity. Defined.

(** A sixteen-byte hash written with colons. *)
Lemma separators_are_ignored_witness :
  remove_char " " (remove_char ":" demo_hash_colons) = demo_hash
  /\ exists bs, parse_destination_hash 128 demo_hash_colons = HashOk bs
                /\ parse_destination_hash 128 demo_hash = HashOk bs
                /\ length bs = (128 / 8)%nat.
Proof.
  destruct (separators_are_ignored 128 demo_hash demo_hash_colons) as (H1 & H2 & _);
    [reflexivity|reflexivity|repeat constructor|].
  exact (conj H1 H2).
Defined.

(** * Further properties of the code *)

(** ** Draining the registry *)

Lemma stop_conns_None (c c' : conn_id) (w : world) :
  conns w !! c = None -> conns (stop c' w) !! c = None.
Proof.
  intros H. unfold stop. destruct (conns w !! c') as [cn|] eqn:E; [|done].
  destruct (running cn); cbn [negb]; [|done]. cbn zeta.
  assert (Ne : c' <> c) by (intros ->; congruence).
  assert (H2 : conns (sock_close (tcp_sock cn) (update_conn c' (set_running false cn) w)) !! c
               = None).
  { rewrite sock_close_conns. cbn. by rewrite lookup_insert_ne. }
  assert (H3 : conns (match buffer cn with
                      | Some _ => buf_close c' (sock_close (tcp_sock cn)
                                    (update_conn c' (set_running false cn) w))
                      | None => sock_close (tcp_sock cn)
                                  (update_conn c' (set_running false cn) w)
                      end) !! c = None).
  { destruct (buffer cn); [|done]. unfold buf_close.
    cbn [emit conns]. repeat case_match; cbn; rewrite ?lookup_insert_ne; done. }
  by destruct (link_is_active _ _).
Qed.

Lemma stop_keeps_stopped (c c' : conn_id) (w : world) :
  is_running c w = false -> is_running c (stop c' w) = false.
Proof.
  unfold is_running at 1. destruct (conns w !! c) as [cn|] eqn:E.
  - intros R. destruct (stop_evolves c' w) as (evs & [_ _ F] & _).
    destruct (F c cn E) as (cn' & E' & _ & _ & R').
    unfold is_running. rewrite E'. destruct R' as [R'|[R' _]]; congruence.
  - intros _. unfold is_running. by rewrite stop_conns_None.
Qed.

Lemma stop_all_keeps_stopped (c : conn_id) (cs : list conn_id) (w : world) :
  is_running c w = false -> is_running c (stop_all cs w) = false.
Proof.
  revert w. induction cs as [|c' cs IH]; intros w H; [done|].
  cbn. apply IH. by apply stop_keeps_stopped.
Qed.

Lemma stop_all_stops (c : conn_id) (cs : list conn_id) (w : world) :
  c ∈ cs -> is_running c (stop_all cs w) = false.
Proof.
  revert w. induction cs as [|c' cs IH]; intros w H; [by apply elem_of_nil in H|].
  apply elem_of_cons in H as [->|H]; cbn.
  - apply stop_all_keeps_stopped, stop_not_running.
  - by apply IH.
Qed.

Lemma registry_drain_spec (w : world) :
  clients (registry_drain w) = []
  /\ (forall c, c ∈ clients w -> is_running c (registry_drain w) = false)
  /\ exists tds,
       trace (registry_drain w)
       = trace w ++ [EvAcquire ClientsLock] ++ tds ++ [EvRegClear; EvRelease ClientsLock]
       /\ Forall (fun e => is_teardown_call e = true) tds
       /\ forall c cn, c ∈ clients w -> conns w !! c = Some cn -> running cn = true ->
                       EvSockClose (tcp_sock cn) ∈ tds.
Proof.
  unfold registry_drain. cbn zeta. split; [done|]. split.
  - intros c Hc. unfold is_running. cbn [emit conns set_clients].
    by apply (stop_all_stops c (clients w) (emit (EvAcquire ClientsLock) w)).
  - destruct (stop_all_evolves (clients (emit (EvAcquire ClientsLock) w))
                (emit (EvAcquire ClientsLock) w)) as (tds & [_ T F] & FA).
    exists tds. split; [|split; [done|]].
    + cbn [emit trace set_clients]. rewrite T. cbn. by rewrite <- !app_assoc.
    + intros c cn Hc E R. destruct (F c cn E) as (cn' & E' & _ & _ & R').
      destruct R' as [R'|[_ R']]; [|done].
      pose proof (stop_all_stops c (clients w) (emit (EvAcquire ClientsLock) w) Hc) as S.
      unfold is_running in S. cbn [clients emit] in E'. rewrite E' in S. congruence.
Qed.

(** X1: [shutdown] of either bridge drains the registry: the bridge is
    not running, [self.clients] is empty, every connection that was
    registered is stopped, and the socket of each registered connection
    that was running has been closed. *)
Theorem shutdown_drains (w : world) :
  (bridge_running (IRCClientBridge.shutdown w) = false
   /\ clients (IRCClientBridge.shutdown w) = []
   /\ (forall c, c ∈ clients w -> is_running c (IRCClientBridge.shutdown w) = false)
   /\ (forall c cn, c ∈ clients w -> conns w !! c = Some cn -> running cn = true ->
         EvSockClose (tcp_sock cn)
           ∈ drop (length (trace w)) (trace (IRCClientBridge.shutdown w))))
  /\ (bridge_running (IRCServerBridge.shutdown w) = false
      /\ clients (IRCServerBridge.shutdown w) = []
      /\ (forall c, c ∈ clients w -> is_running c (IRCServerBridge.shutdown w) = false)
      /\ (forall c cn, c ∈ clients w -> conns w !! c = Some cn -> running cn = true ->
            EvSockClose (tcp_sock cn)
              ∈ drop (length (trace w)) (trace (IRCServerBridge.shutdown w)))).
Proof.
  assert (G : forall w0 pre, trace w0 = trace w ++ pre -> clients w0 = clients w ->
                conns w0 = conns w ->
                clients (registry_drain w0) = []
                /\ (forall c, c ∈ clients w -> is_running c (registry_drain w0) = false)
                /\ (forall c cn, c ∈ clients w -> conns w !! c = Some cn ->
                      running cn = true ->
                      EvSockClose (tcp_sock cn)
                        ∈ drop (length (trace w)) (trace (registry_drain w0)))).
  { intros w0 pre T C K. destruct (registry_drain_spec w0) as (H1 & H2 & tds & T' & _ & H3).
    rewrite C, K in *. split; [done|]. split; [done|].
    intros c cn Hc E R. rewrite T', T, <- app_assoc, drop_app_length.
    rewrite !elem_of_app. right. right. left. by eapply H3. }
  assert (B : forall w0, bridge_running w0 = false ->
                bridge_running (registry_drain w0) = false).
  { intros w0 H. unfold registry_drain. cbn zeta.
    cbn [bridge_running emit set_clients].
    assert (S1 : forall c w1, bridge_running (stop c w1) = bridge_running w1).
    { intros c w1. unfold stop, sock_close, buf_close, link_teardown.
      repeat case_match; done. }
    assert (SA : forall cs w1, bridge_running (stop_all cs w1) = bridge_running w1).
    { induction cs as [|c cs IH]; intros w1; [done|].
      change (stop_all (c :: cs) w1) with (stop_all cs (stop c w1)). by rewrite IH, S1. }
    by rewrite SA. }
  split.
  - unfold IRCClientBridge.shutdown. cbn zeta.
    destruct (listen_sock (set_bridge_running false w)).
    + destruct (G (emit EvListenerClose (set_bridge_running false w)) [EvListenerClose])
        as (H1 & H2 & H3); try done.
      split; [by apply B|]. done.
    + destruct (G (set_bridge_running false w) []) as (H1 & H2 & H3);
        try done; [by rewrite app_nil_r|].
      split; [by apply B|]. done.
  - unfold IRCServerBridge.shutdown.
    destruct (G (set_bridge_running false w) []) as (H1 & H2 & H3);
      try done; [by rewrite app_nil_r|].
    split; [by apply B|]. done.
Qed.

Lemma registry_drain_empty (w : world) :
  clients w = [] ->
  registry_drain w
  = emit (EvRelease ClientsLock)
      (emit EvRegClear (set_clients (fun _ => []) (emit (EvAcquire ClientsLock) w))).
Proof. intros H. unfold registry_drain. cbn [clients emit]. by rewrite H. Qed.

Lemma shutdown_clients (w : world) :
  clients (IRCClientBridge.shutdown w) = [] /\ clients (IRCServerBridge.shutdown w) = [].
Proof.
  split.
  - unfold IRCClientBridge.shutdown. cbn zeta. apply registry_drain_spec.
  - unfold IRCServerBridge.shutdown. apply registry_drain_spec.
Qed.

(** X2: a second [shutdown] (the signal handler calls [shutdown] and then
    raises [SystemExit] through the [finally: self.shutdown()] of [start])
    stops nothing again: it makes no teardown call and leaves the
    connection objects, the sockets and the links as the first one left
    them; the ingress bridge only closes its listener once more. *)
Theorem shutdown_twice (w : world) :
  (let w1 := IRCClientBridge.shutdown w in
   conns (IRCClientBridge.shutdown w1) = conns w1
   /\ socks (IRCClientBridge.shutdown w1) = socks w1
   /\ links (IRCClientBridge.shutdown w1) = links w1
   /\ clients (IRCClientBridge.shutdown w1) = []
   /\ trace (IRCClientBridge.shutdown w1)
      = trace w1 ++ (if listen_sock w1 then [EvListenerClose] else [])
        ++ [EvAcquire ClientsLock; EvRegClear; EvRelease ClientsLock])
  /\ (let w1 := IRCServerBridge.shutdown w in
      conns (IRCServerBridge.shutdown w1) = conns w1
      /\ socks (IRCServerBridge.shutdown w1) = socks w1
      /\ links (IRCServerBridge.shutdown w1) = links w1
      /\ clients (IRCServerBridge.shutdown w1) = []
      /\ trace (IRCServerBridge.shutdown w1)
         = trace w1 ++ [EvAcquire ClientsLock; EvRegClear; EvRelease ClientsLock]).
Proof.
  destruct (shutdown_clients w) as [C1 C2].
  split; cbn zeta.
  - set (w1 := IRCClientBridge.shutdown w) in *.
    unfold IRCClientBridge.shutdown at 1 2 3 4 5. cbn zeta.
    cbn [listen_sock set_bridge_running].
    destruct (listen_sock w1); rewrite registry_drain_empty by done;
      cbn; rewrite <- ?app_assoc; done.
  - set (w1 := IRCServerBridge.shutdown w) in *.
    unfold IRCServerBridge.shutdown at 1 2 3 4 5.
    rewrite registry_drain_empty by done. cbn. rewrite <- ?app_assoc. done.
Qed.

(** ** What an operation on one connection leaves alone *)

Lemma only_touches_refl c s w : only_touches c s w w.
Proof. by split. Qed.

Lemma only_touches_trans c s w w' w'' :
  only_touches c s w w' -> only_touches c s w' w'' -> only_touches c s w w''.
Proof.
  intros [C1 S1] [C2 S2]. split; intros x Hx.
  - by rewrite C2, C1.
  - by rewrite S2, S1.
Qed.

Ltac touch_step :=
  intros; repeat case_match; split; intros; cbn;
  rewrite ?lookup_insert_ne by done; done.

Lemma touches_emit c s e w : only_touches c s w (emit e w).
Proof. by split. Qed.

Lemma touches_sock_recv c cap s w : only_touches c s w (sock_recv cap s w).2.
Proof. unfold sock_recv. touch_step. Qed.

Lemma touches_sock_sendall c s d w : only_touches c s w (sock_sendall s d w).2.
Proof. unfold sock_sendall. touch_step. Qed.

Lemma touches_sock_close c s w : only_touches c s w (sock_close s w).
Proof. unfold sock_close. touch_step. Qed.

Lemma touches_buf_write c s d w : only_touches c s w (buf_write c d w).2.
Proof. unfold buf_write. touch_step. Qed.

Lemma touches_buf_flush c s w : only_touches c s w (buf_flush c w).2.
Proof. unfold buf_flush. touch_step. Qed.

Lemma touches_buf_read c s n w : only_touches c s w (buf_read c n w).2.
Proof. unfold buf_read. touch_step. Qed.

Lemma touches_buf_close c s w : only_touches c s w (buf_close c w).
Proof. unfold buf_close. touch_step. Qed.

Lemma touches_link_teardown c s l w : only_touches c s w (link_teardown l w).
Proof. by split. Qed.

Lemma touches_update_conn c s cn w : only_touches c s w (update_conn c cn w).
Proof. split; intros; cbn; rewrite ?lookup_insert_ne by done; done. Qed.

Lemma touches_stop (c : conn_id) (cn : conn) (w : world) :
  conns w !! c = Some cn -> only_touches c (tcp_sock cn) w (stop c w).
Proof.
  intros E. unfold stop. rewrite E.
  destruct (running cn); cbn [negb]; [|apply only_touches_refl]. cbn zeta.
  assert (H3 : only_touches c (tcp_sock cn) w
                 (match buffer cn with
                  | Some _ => buf_close c (sock_close (tcp_sock cn)
                                (update_conn c (set_running false cn) w))
                  | None => sock_close (tcp_sock cn)
                              (update_conn c (set_running false cn) w)
                  end)).
  { assert (H2 : only_touches c (tcp_sock cn) w
                   (sock_close (tcp_sock cn) (update_conn c (set_running false cn) w))).
    { eapply only_touches_trans; [apply touches_update_conn|apply touches_sock_close]. }
    destruct (buffer cn); [|done].
    eapply only_touches_trans; [exact H2|apply touches_buf_close]. }
  destruct (link_is_active _ _); [|done].
  eapply only_touches_trans; [exact H3|apply touches_link_teardown].
Qed.

Lemma stop_missing (c : conn_id) (w : world) : conns w !! c = None -> stop c w = w.
Proof. intros E. unfold stop. by rewrite E. Qed.

Lemma touches_rns_data_ready (c : conn_id) (cn : conn) (n : nat) (w : world) :
  conns w !! c = Some cn -> only_touches c (tcp_sock cn) w (rns_data_ready c n w).
Proof.
  intros E. unfold rns_data_ready. rewrite E.
  destruct (running cn); cbn [negb]; [|apply only_touches_refl].
  pose proof (touches_buf_read c (tcp_sock cn) n (emit (EvAcquire (BufferLock c)) w)) as HR.
  pose proof (steps_buf_read is_quiet c n (emit (EvAcquire (BufferLock c)) w)
                transfer_quiet) as (e1 & [_ _ F1] & _).
  destruct (buf_read c n _) as [r w2]. cbn [snd] in *.
  assert (H3 : only_touches c (tcp_sock cn) w (emit (EvRelease (BufferLock c)) w2)).
  { eapply only_touches_trans; [|apply touches_emit].
    eapply only_touches_trans; [apply touches_emit|exact HR]. }
  destruct (F1 c cn E) as (cn2 & E2 & S2 & _).
  destruct r as [[|b d]|].
  - done.
  - pose proof (touches_sock_sendall c (tcp_sock cn) (b :: d)
                  (emit (EvRelease (BufferLock c)) w2)) as HS.
    pose proof (steps_sock_sendall is_quiet (tcp_sock cn) (b :: d)
                  (emit (EvRelease (BufferLock c)) w2) (fun _ => eq_refl))
      as (e2 & [_ _ F2] & _).
    destruct (sock_sendall _ _ _) as [[|] w4]; cbn [snd] in *.
    + by eapply only_touches_trans.
    + destruct (F2 c cn2 E2) as (cn4 & E4 & S4 & _).
      eapply only_touches_trans; [by eapply only_touches_trans|].
      rewrite <- S2, <- S4. by apply touches_stop.
  - eapply only_touches_trans; [exact H3|].
    rewrite <- S2. by apply touches_stop.
Qed.

Lemma touches_pump_body (c : conn_id) (cn : conn) (w : world) :
  conns w !! c = Some cn ->
  match pump_body c w with
  | inl (_, w') => only_touches c (tcp_sock cn) w w'
  | inr w' => only_touches c (tcp_sock cn) w w'
  end.
Proof.
  intros E. unfold pump_body. rewrite E.
  destruct (running cn); cbn [negb]; [|apply only_touches_refl].
  pose proof (touches_sock_recv c RECV_CAP (tcp_sock cn) w) as HR.
  destruct (sock_recv _ _ _) as [[[|b d]| |] w1]; cbn [snd] in HR; try done.
  pose proof (touches_buf_write c (tcp_sock cn) (b :: d)
                (emit (EvAcquire (BufferLock c)) w1)) as HW.
  assert (H2 : only_touches c (tcp_sock cn) w (emit (EvAcquire (BufferLock c)) w1)).
  { eapply only_touches_trans; [exact HR|apply touches_emit]. }
  destruct (buf_write _ _ _) as [[|] w3]; cbn [snd] in HW.
  - pose proof (touches_buf_flush c (tcp_sock cn) w3) as HF.
    destruct (buf_flush _ _) as [[|] w4]; cbn [snd] in HF;
      (eapply only_touches_trans; [|apply touches_emit]);
      (eapply only_touches_trans; [|exact HF]); by eapply only_touches_trans.
  - eapply only_touches_trans; [|apply touches_emit]. by eapply only_touches_trans.
Qed.

Lemma touches_pump (fuel : nat) (c : conn_id) (cn : conn) (w : world) r w' :
  conns w !! c = Some cn -> pump fuel c w = Some (r, w') ->
  only_touches c (tcp_sock cn) w w'.
Proof.
  revert cn w. induction fuel as [|fuel IH]; intros cn w E H; [done|].
  cbn [pump] in H. pose proof (touches_pump_body c cn w E) as HB.
  pose proof (steps_pump_body c w) as HS.
  destruct (pump_body c w) as [[r0 w0]|w0].
  - by injection H as -> ->.
  - destruct HS as (evs & [_ _ F] & _). destruct (F c cn E) as (cn' & E' & S' & _).
    eapply only_touches_trans; [exact HB|]. rewrite <- S'. by eapply IH.
Qed.

Lemma touches_tcp_to_rns_loop (c : conn_id) (cn : conn) (w : world) :
  conns w !! c = Some cn -> only_touches c (tcp_sock cn) w (tcp_to_rns_loop c w).2.
Proof.
  intros E. unfold tcp_to_rns_loop.
  destruct (pump _ c w) as [[r w']|] eqn:P; [|apply only_touches_refl].
  pose proof (touches_pump _ c cn w r w' E P) as HT.
  destruct (steps_pump _ c w r w' P) as (evs & [_ _ F] & _).
  destruct (F c cn E) as (cn' & E' & S' & _).
  assert (HS : only_touches c (tcp_sock cn) w (stop c w')).
  { eapply only_touches_trans; [exact HT|]. rewrite <- S'. by apply touches_stop. }
  by destruct r.
Qed.

Lemma touches_remote_sends (c : conn_id) (cn : conn) (d : bytes) (w : world) :
  conns w !! c = Some cn -> only_touches c (tcp_sock cn) w (remote_sends c d w).
Proof.
  intros E. unfold remote_sends, buf_receive. rewrite E.
  destruct (buffer cn) as [b|]; [|by apply touches_rns_data_ready].
  eapply only_touches_trans; [apply touches_update_conn|].
  match goal with
  | |- context [update_conn c ?x w] =>
      change (tcp_sock cn) with (tcp_sock x); apply (touches_rns_data_ready c x)
  end.
  cbn. by rewrite lookup_insert_eq.
Qed.

Lemma touches_deliver_all (c : conn_id) (cn : conn) (ds : list bytes) (w : world) :
  conns w !! c = Some cn -> only_touches c (tcp_sock cn) w (deliver_all c ds w).
Proof.
  revert cn w. induction ds as [|d ds IH]; intros cn w E; [apply only_touches_refl|].
  change (deliver_all c (d :: ds) w) with (deliver_all c ds (remote_sends c d w)).
  destruct (steps_run_activity (RemoteSends c d) w) as (evs & [_ _ F] & _).
  destruct (F c cn E) as (cn' & E' & S' & _). cbn [run_activity] in E'.
  eapply only_touches_trans; [by apply touches_remote_sends|].
  rewrite <- S'. by apply IH.
Qed.

(** X3: no cross-talk. Whatever the pump of connection [a] reads and
    whatever the channel delivers to [a], another connection [b] on another
    socket is left exactly as it was: its object (with its buffer, so what
    its channel has received and holds) and its socket (so what it has
    sent and has still to read). *)
Theorem no_cross_talk (a b : conn_id) (ca cb : conn) (ds : list bytes) (w : world) :
  a <> b -> conns w !! a = Some ca -> conns w !! b = Some cb ->
  tcp_sock cb <> tcp_sock ca ->
  (conns (tcp_to_rns_loop a w).2 !! b = Some cb
   /\ socks (tcp_to_rns_loop a w).2 !! tcp_sock cb = socks w !! tcp_sock cb)
  /\ (conns (deliver_all a ds w) !! b = Some cb
      /\ socks (deliver_all a ds w) !! tcp_sock cb = socks w !! tcp_sock cb).
Proof.
  intros Ne Ea Eb Ns.
  destruct (touches_tcp_to_rns_loop a ca w Ea) as [C1 S1].
  destruct (touches_deliver_all a ca ds w Ea) as [C2 S2].
  rewrite C1, C2, S1, S2 by done. done.
Qed.

(** ** The egress registry *)

Lemma find_by_link_None (l : link_id) (cs : list conn_id) (w : world) :
  (forall c cn, c ∈ cs -> conns w !! c = Some cn -> link cn <> l) ->
  IRCServerBridge.find_by_link l cs w = None.
Proof.
  induction cs as [|c cs IH]; intros H; [done|]. cbn.
  destruct (conns w !! c) as [cn|] eqn:E.
  - rewrite decide_False by (eapply H; [apply list_elem_of_here|done]).
    apply IH. intros c0 cn0 Hc0. apply H. by apply list_elem_of_further.
  - apply IH. intros c0 cn0 Hc0. apply H. by apply list_elem_of_further.
Qed.

Lemma find_by_link_only (l : link_id) (cs : list conn_id) (c : conn_id) (cn : conn)
    (w : world) :
  c ∈ cs -> conns w !! c = Some cn -> link cn = l ->
  (forall c0 cn0, c0 ∈ cs -> c0 <> c -> conns w !! c0 = Some cn0 -> link cn0 <> l) ->
  IRCServerBridge.find_by_link l cs w = Some c.
Proof.
  induction cs as [|x cs IH]; intros Hc E L U; [by apply elem_of_nil in Hc|]. cbn.
  destruct (decide (x = c)) as [->|Ne].
  - rewrite E. by rewrite decide_True.
  - apply elem_of_cons in Hc as [->|Hc]; [done|].
    assert (IH' : IRCServerBridge.find_by_link l cs w = Some c).
    { apply IH; try done. intros c0 cn0 H0. apply U. by apply list_elem_of_further. }
    destruct (conns w !! x) as [cnx|] eqn:Ex; [|done].
    rewrite decide_False; [done|]. eapply (U x); [apply list_elem_of_here|done|done].
Qed.

Lemma find_by_link_ext (l : link_id) (cs : list conn_id) (w w' : world) :
  conns w' = conns w ->
  IRCServerBridge.find_by_link l cs w' = IRCServerBridge.find_by_link l cs w.
Proof. intros H. induction cs as [|c cs IH]; [done|]. cbn. by rewrite H, IH. Qed.

Lemma remove_first_NoDup (c : conn_id) (l : list conn_id) :
  NoDup l -> c ∈ l ->
  (c ∉ remove_first c l)
  /\ S (length (remove_first c l)) = length l
  /\ forall c0, c0 <> c -> (c0 ∈ remove_first c l <-> c0 ∈ l).
Proof.
  induction l as [|x l IH]; intros ND Hc; [by apply elem_of_nil in Hc|].
  apply NoDup_cons in ND as [Hx ND]. cbn. destruct (decide (x = c)) as [->|Ne].
  - split; [done|]. split; [done|]. intros c0 H0. rewrite elem_of_cons.
    split; [by right|]. by intros [?|?].
  - apply elem_of_cons in Hc as [->|Hc]; [done|].
    destruct (IH ND Hc) as (I1 & I2 & I3). split; [|split].
    + rewrite elem_of_cons. by intros [?|?].
    + cbn. by rewrite I2.
    + intros c0 H0. rewrite !elem_of_cons, I3 by done. done.
Qed.

Lemma link_closed_found (l : link_id) (c : conn_id) (w : world) :
  IRCServerBridge.find_by_link l (clients w) w = Some c ->
  IRCServerBridge.link_closed l w
  = emit (EvRelease ClientsLock)
      (emit (EvRegRemove c)
         (set_clients (remove_first c) (stop c (emit (EvAcquire ClientsLock) w)))).
Proof.
  intros H. unfold IRCServerBridge.link_closed. cbn zeta. cbn [clients emit].
  by rewrite (find_by_link_ext l (clients w) w (emit (EvAcquire ClientsLock) w)), H.
Qed.

(** X4: the egress [_link_closed] for the link of a registered
    connection (the only registered one on that link, in a registry
    without duplicates). The connection is stopped and leaves the
    registry, which gets shorter by one; every other connection stays
    registered and its object is untouched. *)
Theorem link_closed_removes_owner (l : link_id) (c : conn_id) (cn : conn) (w : world) :
  NoDup (clients w) ->
  c ∈ clients w -> conns w !! c = Some cn -> link cn = l ->
  (forall c0 cn0, c0 ∈ clients w -> c0 <> c -> conns w !! c0 = Some cn0 -> link cn0 <> l) ->
  let w' := IRCServerBridge.link_closed l w in
  clients w' = remove_first c (clients w)
  /\ (c ∉ clients w')
  /\ S (length (clients w')) = length (clients w)
  /\ is_running c w' = false
  /\ (forall c0, c0 <> c -> (c0 ∈ clients w' <-> c0 ∈ clients w))
  /\ (forall c0, c0 <> c -> conns w' !! c0 = conns w !! c0).
Proof.
  intros ND Hc E L U. cbn zeta.
  rewrite (link_closed_found l c w) by (by eapply find_by_link_only).
  cbn [clients emit set_clients]. rewrite stop_clients. cbn [clients emit].
  destruct (remove_first_NoDup c (clients w) ND Hc) as (R1 & R2 & R3).
  split; [done|]. split; [done|]. split; [done|]. split.
  { pose proof (stop_not_running c (emit (EvAcquire ClientsLock) w)) as S.
    unfold is_running in *. exact S. }
  split; [done|].
  intros c0 H0. cbn [conns emit set_clients].
  destruct (touches_stop c cn (emit (EvAcquire ClientsLock) w) E) as [C _].
  by rewrite C.
Qed.

(** X5: the egress [_link_closed] for a link that no registered
    connection is on (the link of a failed backend connect, or a link
    whose connection [shutdown] has dropped) only takes and releases the
    registry lock: nothing is stopped and nothing is removed. *)
Theorem link_closed_unknown_link (l : link_id) (w : world) :
  (forall c cn, c ∈ clients w -> conns w !! c = Some cn -> link cn <> l) ->
  IRCServerBridge.link_closed l w
  = emit (EvRelease ClientsLock) (emit (EvAcquire ClientsLock) w)
  /\ clients (IRCServerBridge.link_closed l w) = clients w
  /\ conns (IRCServerBridge.link_closed l w) = conns w
  /\ socks (IRCServerBridge.link_closed l w) = socks w
  /\ trace (IRCServerBridge.link_closed l w)
     = trace w ++ [EvAcquire ClientsLock; EvRelease ClientsLock].
Proof.
  intros H. unfold IRCServerBridge.link_closed. cbn zeta. cbn [clients emit].
  rewrite (find_by_link_ext l (clients w) w (emit (EvAcquire ClientsLock) w)) by done.
  rewrite (find_by_link_None l (clients w) w) by done.
  cbn. by rewrite <- app_assoc.
Qed.

Lemma stop_socket (c : conn_id) (cn : conn) (sk : socket) (w : world) :
  conns w !! c = Some cn -> running cn = true -> socks w !! tcp_sock cn = Some sk ->
  socks (stop c w) !! tcp_sock cn
  = Some {| sock_closed := true; sock_in := sock_in sk;
            sock_budget := sock_budget sk; sock_out := sock_out sk |}.
Proof.
  intros E R Es. unfold stop. rewrite E, R. cbn [negb]. cbn zeta.
  assert (H2 : socks (sock_close (tcp_sock cn) (update_conn c (set_running false cn) w))
               !! tcp_sock cn
               = Some {| sock_closed := true; sock_in := sock_in sk;
                         sock_budget := sock_budget sk; sock_out := sock_out sk |}).
  { unfold sock_close. cbn [update_conn set_conns socks]. rewrite Es. cbn.
    by rewrite lookup_insert_eq. }
  assert (BS : forall w0, socks (buf_close c w0) = socks w0).
  { intros w0. unfold buf_close. by repeat case_match. }
  destruct (buffer cn); destruct (link_is_active _ _);
    cbn [link_teardown emit set_links socks]; rewrite ?BS; done.
Qed.

Lemma is_running_lookup (c : conn_id) (cn : conn) (w : world) :
  conns w !! c = Some cn -> is_running c w = running cn.
Proof. intros E. unfold is_running. by rewrite E. Qed.

Lemma server_established_spec (sk : socket) (l : link_id) (w : world) :
  let c := fresh_id (conns w) in
  let s := fresh_id (socks w) in
  let w' := IRCServerBridge.link_established (Some sk) l w in
  clients w' = clients w ++ [c]
  /\ conns w' = <[c := {| link := l; tcp_sock := s; buffer := Some new_buffer;
                          running := true; ready := false; failed := false |}]> (conns w)
  /\ socks w' = <[s := sk]> (socks w)
  /\ links w' = links w
  /\ trace w' = trace w ++ [EvLinkSetClosedCallback l; EvSockConnect true;
                            EvAcquire ClientsLock; EvRegAppend c;
                            EvRelease ClientsLock; EvBufCreate c; EvThreadStart c].
Proof.
  cbn zeta. unfold IRCServerBridge.link_established, BridgedConnection.start. cbn zeta.
  cbn [emit update_sock set_socks conns registry_append set_clients update_conn set_conns].
  rewrite lookup_insert_eq. cbn. rewrite insert_insert_eq, <- !app_assoc. done.
Qed.

Lemma established_then_closed_aux (sk : socket) (l : link_id) (w w1 : world)
    (c : conn_id) (s : sock_id) (cn : conn) :
  c ∉ clients w ->
  (forall c0 cn0, c0 ∈ clients w -> conns w !! c0 = Some cn0 -> link cn0 <> l) ->
  running cn = true -> tcp_sock cn = s -> link cn = l ->
  clients w1 = clients w ++ [c] ->
  conns w1 = <[c := cn]> (conns w) ->
  socks w1 = <[s := sk]> (socks w) ->
  is_running c w1 = true
  /\ socks w1 !! s = Some sk
  /\ clients (IRCServerBridge.link_closed l w1) = clients w
  /\ is_running c (IRCServerBridge.link_closed l w1) = false
  /\ socks (IRCServerBridge.link_closed l w1) !! s
     = Some {| sock_closed := true; sock_in := sock_in sk;
               sock_budget := sock_budget sk; sock_out := sock_out sk |}
  /\ (forall c0 : conn_id, c0 <> c ->
        conns (IRCServerBridge.link_closed l w1) !! c0 = conns w !! c0).
Proof.
  intros Fc U Rcn Scn Lcn C1 K1 S1.
  assert (E1 : conns w1 !! c = Some cn) by (rewrite K1; rewrite lookup_insert_eq; reflexivity).
  assert (Es1 : socks w1 !! s = Some sk) by (rewrite S1; rewrite lookup_insert_eq; reflexivity).
  assert (F : IRCServerBridge.find_by_link l (clients w1) w1 = Some c).
  { apply (find_by_link_only l _ c cn); [|exact E1|exact Lcn|].
    - rewrite C1. apply elem_of_app. right. by apply list_elem_of_singleton.
    - intros c0 cn0 H0 Ne E0. rewrite C1 in H0. apply elem_of_app in H0 as [H0|H0].
      + rewrite K1, lookup_insert_ne in E0 by (intros ->; by apply Ne).
        by eapply U.
      + apply list_elem_of_singleton in H0. by destruct Ne. }
  rewrite (link_closed_found l c w1 F).
  cbn [clients emit set_clients conns socks]. rewrite stop_clients. cbn [clients emit].
  split; [rewrite (is_running_lookup c cn w1 E1); exact Rcn|].
  split; [exact Es1|].
  split; [rewrite C1; by apply remove_first_app_new|].
  split; [apply (stop_not_running c (emit (EvAcquire ClientsLock) w1))|].
  split.
  - rewrite <- Scn.
    apply (stop_socket c cn sk (emit (EvAcquire ClientsLock) w1));
      [exact E1|exact Rcn|rewrite Scn; exact Es1].
  - intros c0 H0.
    destruct (touches_stop c cn (emit (EvAcquire ClientsLock) w1) E1) as [C _].
    etrans; [apply (C c0 H0)|]. cbn [conns emit]. rewrite K1.
    apply lookup_insert_ne. intros ->. by destruct H0.
Qed.

(** X6: a link comes in, the backend connect succeeds, and later the
    link is reported closed. In between the new connection is registered
    (at the end of the registry) and running on the new backend socket;
    afterwards it is stopped, its socket is closed and the registry is
    what it was before the link came in. Holds when the registry has only
    existing objects and none of them is on that link. *)
Theorem link_established_then_closed (sk : socket) (l : link_id) (w : world) :
  registry_wf w ->
  (forall c cn, c ∈ clients w -> conns w !! c = Some cn -> link cn <> l) ->
  clients (IRCServerBridge.link_established (Some sk) l w)
  = clients w ++ [fresh_id (conns w)]
  /\ is_running (fresh_id (conns w)) (IRCServerBridge.link_established (Some sk) l w) = true
  /\ socks (IRCServerBridge.link_established (Some sk) l w) !! fresh_id (socks w) = Some sk
  /\ clients (IRCServerBridge.link_closed l
                (IRCServerBridge.link_established (Some sk) l w)) = clients w
  /\ is_running (fresh_id (conns w))
       (IRCServerBridge.link_closed l
          (IRCServerBridge.link_established (Some sk) l w)) = false
  /\ socks (IRCServerBridge.link_closed l
              (IRCServerBridge.link_established (Some sk) l w)) !! fresh_id (socks w)
     = Some {| sock_closed := true; sock_in := sock_in sk;
               sock_budget := sock_budget sk; sock_out := sock_out sk |}
  /\ (forall c0 : conn_id, c0 <> fresh_id (conns w) ->
        conns (IRCServerBridge.link_closed l
                 (IRCServerBridge.link_established (Some sk) l w)) !! c0
        = conns w !! c0).
Proof.
  intros WF U.
  destruct (server_established_spec sk l w) as (C1 & K1 & S1 & _ & _). cbn zeta in *.
  assert (Fc : fresh_id (conns w) ∉ clients w).
  { intros Hin. apply WF in Hin as [x Hx]. by rewrite fresh_id_None in Hx. }
  split; [exact C1|].
  exact (established_then_closed_aux sk l w _ (fresh_id (conns w)) (fresh_id (socks w))
           {| link := l; tcp_sock := fresh_id (socks w); buffer := Some new_buffer;
              running := true; ready := false; failed := false |}
           Fc U eq_refl eq_refl eq_refl C1 K1 S1).
Qed.

(** ** The ingress handler, when the link comes up *)

(** X7: when the connection is ready at the end of the wait, the
    handler is done: it returns the world as the wait left it, the new
    connection stays in the registry (appended at its end) and the handler
    itself stops nothing. *)
Theorem handle_client_success (env : Z -> list activity) (s : sock_id) (w : world) :
  let c := (IRCClientBridge.handle_client_setup s w).1 in
  let waiting := (IRCClientBridge.handle_client_setup s w).2 in
  ClientBridgedConnection.is_ready c (IRCClientBridge.wait_link env c 0 waiting) = true ->
  IRCClientBridge.handle_client true env s w = IRCClientBridge.wait_link env c 0 waiting
  /\ clients (IRCClientBridge.handle_client true env s w) = clients w ++ [c]
  /\ is_Some (conns (IRCClientBridge.handle_client true env s w) !! c).
Proof.
  pose proof (setup_conn s w) as (Hc & Hconn & Hcl & _).
  unfold IRCClientBridge.handle_client. cbn [negb].
  destruct (IRCClientBridge.handle_client_setup s w) as [c w1]. cbn [fst snd] in *.
  cbn zeta. intros R. unfold IRCClientBridge.handle_client_finish. rewrite R.
  destruct (steps_wait_link env c 0 w1) as (evs & [C _ F] & _).
  split; [done|]. split; [by rewrite C|].
  destruct (F c _ Hconn) as (cn' & -> & _). by eexists.
Qed.

(** ** A link that comes up after its connection was stopped *)

(** X8: [link_established] on a connection that is already stopped (the
    handler gave up first). The connection becomes ready and gets a buffer
    and a pump thread; the pump sees [running] false and leaves without
    reading the socket, and its [stop], like every later [stop], returns
    at once: the buffer that was just created stays open. *)
Theorem link_established_after_stop (c : conn_id) (cn : conn) (w : world) :
  conns w !! c = Some cn -> running cn = false ->
  let w1 := ClientBridgedConnection.link_established c w in
  ClientBridgedConnection.is_ready c w1 = true
  /\ is_running c w1 = false
  /\ trace w1 = trace w ++ [EvBufCreate c; EvThreadStart c]
  /\ tcp_to_rns_loop c w1 = (PumpExit, w1)
  /\ stop c w1 = w1
  /\ exists cn1, conns w1 !! c = Some cn1 /\ buffer cn1 = Some new_buffer.
Proof.
  intros E R. cbn zeta.
  assert (E1 : conns (ClientBridgedConnection.link_established c w) !! c
               = Some (set_ready true (set_buffer (Some new_buffer) cn))).
  { unfold ClientBridgedConnection.link_established. rewrite E. cbn.
    by rewrite lookup_insert_eq. }
  assert (R1 : is_running c (ClientBridgedConnection.link_established c w) = false).
  { by rewrite (is_running_lookup _ _ _ E1). }
  split; [unfold ClientBridgedConnection.is_ready; by rewrite E1|].
  split; [done|]. split.
  { unfold ClientBridgedConnection.link_established. rewrite E. cbn.
    by rewrite <- app_assoc. }
  split.
  { unfold tcp_to_rns_loop. cbn [pump]. unfold pump_body. rewrite E1. cbn [running set_ready set_buffer].
    rewrite R. cbn [negb]. by rewrite stop_stopped. }
  split; [by apply stop_stopped|]. by eexists.
Qed.

(** ** Deliveries to a stopped connection *)

Lemma remote_sends_stopped (c : conn_id) (d : bytes) (w : world) :
  is_running c w = false ->
  is_running c (remote_sends c d w) = false
  /\ trace (remote_sends c d w) = trace w
  /\ socks (remote_sends c d w) = socks w.
Proof.
  intros R. unfold remote_sends, buf_receive, is_running in *.
  destruct (conns w !! c) as [cn|] eqn:E.
  - destruct (buffer cn) as [b|].
    + unfold rns_data_ready. cbn [update_conn set_conns conns].
      rewrite lookup_insert_eq. cbn [running set_buffer]. rewrite R. cbn.
      by rewrite lookup_insert_eq.
    + unfold rns_data_ready. rewrite E, R. cbn. by rewrite E.
  - unfold rns_data_ready. rewrite E. by rewrite E.
Qed.

(** X9: once a connection is stopped, what the channel still delivers
    is never forwarded: the readiness callback returns at its test of
    [self.running], so no buffer read and no [sendall] is recorded and no
    socket changes. *)
Theorem no_delivery_after_stop (c : conn_id) (ds : list bytes) (w : world) :
  is_running c (deliver_all c ds (stop c w)) = false
  /\ trace (deliver_all c ds (stop c w)) = trace (stop c w)
  /\ socks (deliver_all c ds (stop c w)) = socks (stop c w).
Proof.
  pose proof (stop_not_running c w) as R. revert R.
  generalize (stop c w). clear w. induction ds as [|d ds IH]; intros w R; [done|].
  change (deliver_all c (d :: ds) w) with (deliver_all c ds (remote_sends c d w)).
  destruct (remote_sends_stopped c d w R) as (R1 & T1 & S1).
  destruct (IH _ R1) as (R2 & T2 & S2). by rewrite T2, S2, T1, S1.
Qed.

(** ** When the socket or the channel fails *)

(** A delivery to a running connection whose buffer is open and holds
    nothing unread: the readiness callback reads the chunk and, when it is
    not empty, passes it to [sendall]. *)
Lemma remote_sends_reads (c : conn_id) (cn : conn) (b : rns_buffer) (d : bytes)
    (w : world) :
  conns w !! c = Some cn -> running cn = true ->
  buffer cn = Some b -> buf_closed b = false -> buf_in b = [] ->
  remote_sends c d w
  = let w3 := emit (EvRelease (BufferLock c))
                (emit (EvBufRead c (length d)) (emit (EvAcquire (BufferLock c)) w)) in
    match d with
    | [] => w3
    | _ => match sock_sendall (tcp_sock cn) d w3 with
           | (Ok _, w4) => w4
           | (Raise, w4) => stop c w4
           end
    end.
Proof.
  intros E R Eb Hc Hin.
  assert (Hcn : set_buffer
                  (Some {| buf_closed := false; buf_fails := buf_fails b;
                           buf_pending := buf_pending b; buf_out := buf_out b;
                           buf_in := [] |}) cn = cn).
  { destruct cn as [? ? bf ? ? ?]; cbn in *. subst bf. destruct b; cbn in *. by subst. }
  unfold remote_sends, buf_receive. rewrite E, Eb, Hin. cbn [app].
  set (b0 := {| buf_closed := buf_closed b; buf_fails := buf_fails b;
                buf_pending := buf_pending b; buf_out := buf_out b; buf_in := d |}).
  set (w0 := update_conn c (set_buffer (Some b0) cn) w).
  assert (E0 : conns w0 !! c = Some (set_buffer (Some b0) cn))
    by (cbn; by rewrite lookup_insert_eq).
  unfold rns_data_ready. rewrite E0. cbn [running set_buffer]. rewrite R. cbn [negb].
  rewrite (buf_read_ok c (length d) (emit (EvAcquire (BufferLock c)) w0) _ b0 E0 eq_refl Hc).
  cbn [buf_in b0 buf_fails buf_pending buf_out]. rewrite firstn_all, skipn_all.
  assert (Hw : update_conn c
                 (set_buffer
                    (Some {| buf_closed := false; buf_fails := buf_fails b;
                             buf_pending := buf_pending b; buf_out := buf_out b;
                             buf_in := [] |}) (set_buffer (Some b0) cn))
                 (emit (EvAcquire (BufferLock c)) w0)
               = emit (EvAcquire (BufferLock c)) w).
  { unfold w0, update_conn, set_conns, emit. cbn.
    rewrite insert_insert_eq.
    change (set_buffer _ (set_buffer (Some b0) cn))
      with (set_buffer
              (Some {| buf_closed := false; buf_fails := buf_fails b;
                       buf_pending := buf_pending b; buf_out := buf_out b;
                       buf_in := [] |}) cn).
    rewrite Hcn, insert_id by done. done. }
  rewrite Hw. by destruct d.
Qed.

(** X10: the peer of the socket takes only [k] more bytes and the
    channel delivers a longer chunk to a session in working order.
    [sendall] raises after the first [k] bytes of the chunk went out, and
    the readiness callback stops the connection: it is not running and its
    socket is closed, with exactly those [k] bytes sent in addition. *)
Theorem sendall_failure_stops (c : conn_id) (cn : conn) (b : rns_buffer)
    (sk : socket) (d : bytes) (k : nat) (w : world) :
  conns w !! c = Some cn -> running cn = true ->
  buffer cn = Some b -> buf_closed b = false -> buf_in b = [] ->
  socks w !! tcp_sock cn = Some sk -> sock_closed sk = false ->
  sock_budget sk = Some k -> (k < length d)%nat ->
  is_running c (remote_sends c d w) = false
  /\ socks (remote_sends c d w) !! tcp_sock cn
     = Some {| sock_closed := true; sock_in := sock_in sk;
               sock_budget := Some 0%nat; sock_out := sock_out sk ++ take k d |}
  /\ exists tds,
       trace (remote_sends c d w)
       = trace w ++ [EvAcquire (BufferLock c); EvBufRead c (length d);
                     EvRelease (BufferLock c); EvSockSendall (tcp_sock cn) d] ++ tds
       /\ Forall (fun e => is_teardown_call e = true) tds.
Proof.
  intros E R Eb Hc Hin Es Hsc Hsb Hk.
  rewrite (remote_sends_reads c cn b d w E R Eb Hc Hin). cbn zeta.
  destruct d as [|x d]; [cbn in Hk; lia|].
  unfold sock_sendall. cbn [emit socks]. rewrite Es, Hsc, Hsb.
  assert ((length (x :: d) <=? k)%nat = false) as -> by (apply Nat.leb_gt; lia).
  match goal with |- context [stop c ?x] => set (w4 := x) end.
  assert (E4 : conns w4 !! c = Some cn) by exact E.
  assert (Es4 : socks w4 !! tcp_sock cn
                = Some {| sock_closed := false; sock_in := sock_in sk;
                          sock_budget := Some 0%nat;
                          sock_out := sock_out sk ++ take k (x :: d) |}).
  { unfold w4. cbn. by rewrite lookup_insert_eq. }
  split; [apply stop_not_running|]. split.
  - rewrite (stop_socket c cn _ w4 E4 R Es4). done.
  - destruct (stop_evolves c w4) as (tds & [_ T _] & F).
    exists tds. split; [|done]. rewrite T. unfold w4. cbn. by rewrite <- !app_assoc.
Qed.

(** X11: the channel under the buffer is broken (the link is gone) and
    the client sends something. The pump reads a chunk, [write] takes it,
    [flush] raises, and the pump ends with [stop]: the chunk was taken off
    the socket and the channel has not received it. *)
Theorem pump_channel_failure (c : conn_id) (cn : conn) (b : rns_buffer)
    (sk : socket) (d : bytes) (rest : list arrival) (w : world) :
  conns w !! c = Some cn -> running cn = true ->
  buffer cn = Some b -> buf_closed b = false -> buf_fails b = true ->
  socks w !! tcp_sock cn = Some sk -> sock_closed sk = false ->
  sock_in sk = Data d :: rest -> d <> [] ->
  (tcp_to_rns_loop c w).1 = PumpRaise
  /\ is_running c (tcp_to_rns_loop c w).2 = false
  /\ chunks_read (tcp_sock cn)
       (drop (length (trace w)) (trace (tcp_to_rns_loop c w).2)) = [take RECV_CAP d]
  /\ exists cn' b', conns (tcp_to_rns_loop c w).2 !! c = Some cn'
                    /\ buffer cn' = Some b' /\ buf_out b' = buf_out b.
Proof.
  intros E R Eb Hc Hf Es Hsc Hin Hd.
  assert (Ht : exists x t, take RECV_CAP d = x :: t).
  { destruct d as [|x d]; [done|]. unfold RECV_CAP. cbn. by eexists _, _. }
  destruct Ht as (x & t & Ht).
  assert (HB : exists w4 cn4 b4,
             pump_body c w = inl (PumpRaise, w4)
             /\ trace w4 = trace w ++ [EvSockRecv (tcp_sock cn) (Some (x :: t));
                                       EvAcquire (BufferLock c); EvBufWrite c (x :: t);
                                       EvBufFlush c; EvRelease (BufferLock c)]
             /\ conns w4 !! c = Some cn4 /\ buffer cn4 = Some b4
             /\ buf_out b4 = buf_out b).
  { unfold pump_body. rewrite E, R. cbn [negb].
    unfold sock_recv. rewrite Es, Hsc, Hin, Ht.
    unfold buf_write. cbn [emit update_sock set_socks conns]. rewrite E, Eb, Hc.
    unfold buf_flush. cbn [emit update_conn set_conns conns].
    rewrite lookup_insert_eq. cbn [buffer set_buffer buf_closed buf_fails orb]. rewrite Hf.
    eexists _, _, _. split; [reflexivity|].
    split; [cbn; by rewrite <- !app_assoc|].
    split; [cbn; by rewrite lookup_insert_eq|]. done. }
  destruct HB as (w4 & cn4 & b4 & HB & T4 & E4 & Eb4 & O4).
  unfold tcp_to_rns_loop. cbn [pump]. rewrite HB. cbn [fst snd].
  split; [done|]. split; [apply stop_not_running|]. split.
  - destruct (stop_evolves c w4) as (tds & [_ T _] & F).
    rewrite T, T4, <- app_assoc, drop_app_length, chunks_read_app.
    destruct (teardown_moves_nothing (tcp_sock cn) c tds F) as (-> & _).
    cbn. rewrite decide_True by done. by rewrite Ht.
  - destruct (stop_keeps_buf_out c cn4 b4 w4 E4 Eb4) as (cn' & b' & E' & Eb' & O').
    exists cn', b'. by rewrite O'.
Qed.

(** ** The stream as the peer sent it *)

Lemma pump_body_round (c : conn_id) (cn : conn) (b : rns_buffer) (sk : socket)
    (d : bytes) (rest : list arrival) (x : byte) (t : bytes) (w : world) :
  conns w !! c = Some cn -> running cn = true -> buffer cn = Some b -> healthy b ->
  socks w !! tcp_sock cn = Some sk -> sock_closed sk = false ->
  sock_in sk = Data d :: rest -> take RECV_CAP d = x :: t ->
  exists w' b1 sk1,
    pump_body c w = inr w'
    /\ conns w' !! c = Some (set_buffer (Some b1) cn)
    /\ healthy b1 /\ buf_out b1 = buf_out b ++ x :: t
    /\ socks w' !! tcp_sock cn = Some sk1 /\ sock_closed sk1 = false
    /\ sock_in sk1 = match drop RECV_CAP d with
                     | [] => rest
                     | r => Data r :: rest
                     end.
Proof.
  intros E R Eb (Hc & Hf & Hp) Es Hsc Hin Ht.
  unfold pump_body. rewrite E, R. cbn [negb].
  unfold sock_recv. rewrite Es, Hsc, Hin, Ht.
  unfold buf_write. cbn [emit update_sock set_socks conns]. rewrite E, Eb, Hc.
  unfold buf_flush. cbn [emit update_conn set_conns conns].
  rewrite lookup_insert_eq. cbn [buffer set_buffer buf_closed buf_fails orb]. rewrite Hf.
  eexists _, _, _. split; [reflexivity|].
  split; [cbn; rewrite lookup_insert_eq; reflexivity|].
  split; [done|]. split; [cbn; by rewrite Hp|].
  split; [cbn; rewrite lookup_insert_eq; reflexivity|]. done.
Qed.

Lemma pump_body_end (c : conn_id) (cn : conn) (sk : socket) (rest : list arrival)
    (w : world) :
  conns w !! c = Some cn -> running cn = true ->
  socks w !! tcp_sock cn = Some sk -> sock_closed sk = false ->
  sock_in sk = rest -> stream_ends rest ->
  exists w', pump_body c w = inl (stream_outcome rest, w') /\ conns w' = conns w.
Proof.
  intros E R Es Hsc Hin He.
  unfold pump_body. rewrite E, R. cbn [negb].
  unfold sock_recv. rewrite Es, Hsc, Hin.
  destruct rest as [|[[|x d]|] rest]; try done; by eexists.
Qed.

Lemma take_cap_nonempty (d : bytes) :
  d <> [] -> exists x t, take RECV_CAP d = x :: t.
Proof. destruct d as [|x d]; [done|]. intros _. unfold RECV_CAP. cbn. by eexists _, _. Qed.

Lemma pump_stream (fuel : nat) (c : conn_id) (cn : conn) (b : rns_buffer)
    (sk : socket) (ds : list bytes) (rest : list arrival) (w : world) :
  conns w !! c = Some cn -> running cn = true -> buffer cn = Some b -> healthy b ->
  socks w !! tcp_sock cn = Some sk -> sock_closed sk = false ->
  sock_in sk = map Data ds ++ rest -> Forall (fun d => d <> []) ds -> stream_ends rest ->
  (pending_size (sock_in sk) < fuel)%nat ->
  exists w' b',
    pump fuel c w = Some (stream_outcome rest, w')
    /\ conns w' !! c = Some (set_buffer (Some b') cn)
    /\ buf_out b' = buf_out b ++ concat ds.
Proof.
  revert cn b sk ds w.
  induction fuel as [|fuel IH]; intros cn b sk ds w E R Eb H Es Hsc Hin Hds He Hf; [lia|].
  cbn [pump]. destruct ds as [|d ds].
  - cbn [map app] in Hin.
    destruct (pump_body_end c cn sk rest w E R Es Hsc Hin He) as (w' & -> & K).
    exists w', b. split; [done|]. rewrite K, E. cbn. rewrite app_nil_r. split; [|done].
    f_equal. destruct cn; cbn in *; by subst.
  - apply Forall_cons in Hds as [Hd Hds]. cbn [map app] in Hin.
    destruct (take_cap_nonempty d Hd) as (x & t & Ht).
    destruct (pump_body_round c cn b sk d (map Data ds ++ rest) x t w
                E R Eb H Es Hsc Hin Ht)
      as (w1 & b1 & sk1 & -> & E1 & H1 & O1 & Es1 & Hsc1 & Hin1).
    pose proof (pending_size_recv RECV_CAP d (map Data ds ++ rest)) as Hdec.
    rewrite Ht, <- Hin1, <- Hin in Hdec. specialize (Hdec ltac:(done)).
    pose proof (take_drop RECV_CAP d) as TD. rewrite Ht in TD.
    destruct (drop RECV_CAP d) as [|y r] eqn:Ed.
    + destruct (IH (set_buffer (Some b1) cn) b1 sk1 ds w1) as (w' & b' & P & E' & O');
        try done; [lia|].
      exists w', b'. split; [done|]. split; [done|].
      rewrite O', O1. cbn [concat]. rewrite <- TD, app_nil_r. by rewrite <- app_assoc.
    + destruct (IH (set_buffer (Some b1) cn) b1 sk1 ((y :: r) :: ds) w1)
        as (w' & b' & P & E' & O'); try done; [by constructor|lia|].
      exists w', b'. split; [done|]. split; [done|].
      rewrite O', O1. cbn [concat]. rewrite <- TD. by rewrite <- !app_assoc.
Qed.

(** X12: the channel receives the stream as the peer sent it, however
    [recv] cuts it. For a session in working order whose client sends the
    segments [ds] (none empty) and then nothing, a half-close or a reset,
    one run of the pump puts exactly the concatenation of [ds] on the
    channel, whatever the segment sizes are against the 4096-byte cap, and
    ends as what follows the data says: blocked in [recv], a normal exit,
    or the exception. *)
Theorem stream_transparency (c : conn_id) (cn : conn) (b : rns_buffer)
    (sk : socket) (ds : list bytes) (rest : list arrival) (w : world) :
  conns w !! c = Some cn -> running cn = true -> buffer cn = Some b -> healthy b ->
  socks w !! tcp_sock cn = Some sk -> sock_closed sk = false ->
  sock_in sk = map Data ds ++ rest -> Forall (fun d => d <> []) ds -> stream_ends rest ->
  (tcp_to_rns_loop c w).1 = stream_outcome rest
  /\ exists cn' b', conns (tcp_to_rns_loop c w).2 !! c = Some cn'
                    /\ buffer cn' = Some b'
                    /\ buf_out b' = buf_out b ++ concat ds.
Proof.
  intros E R Eb H Es Hsc Hin Hds He.
  destruct (pump_stream (S (sock_pending c w)) c cn b sk ds rest w
              E R Eb H Es Hsc Hin Hds He) as (w' & b' & P & E' & O').
  { unfold sock_pending. rewrite E, Es. lia. }
  unfold tcp_to_rns_loop. rewrite P.
  destruct (stop_keeps_buf_out c _ b' w' E' eq_refl) as (cn2 & b2 & E2 & Eb2 & O2).
  destruct (stream_outcome rest); cbn [fst snd]; split; try done.
  - exists cn2, b2. by rewrite O2.
  - exists cn2, b2. by rewrite O2.
  - by eexists _, b'.
Qed.

(** ** The path wait *)

Lemma wait_for_path_finds (timeout : Z) (path_at : Z -> bool) (elapsed : Z) (k : nat) :
  (forall j : nat, (j < k)%nat -> path_at (elapsed + PATH_POLL * Z.of_nat j) = false) ->
  path_at (elapsed + PATH_POLL * Z.of_nat k) = true ->
  (k = 0%nat \/ elapsed + PATH_POLL * Z.of_nat k <= timeout) ->
  wait_for_path timeout path_at elapsed = PathFound (elapsed + PATH_POLL * Z.of_nat k).
Proof.
  revert k. funelim (wait_for_path timeout path_at elapsed); intros k Hno Hyes Hle.
  - destruct k as [|k].
    + f_equal. unfold PATH_POLL. lia.
    + specialize (Hno 0%nat ltac:(lia)). replace (elapsed + PATH_POLL * Z.of_nat 0)
        with elapsed in Hno by (unfold PATH_POLL; lia). congruence.
  - destruct k as [|k].
    + replace (elapsed + PATH_POLL * Z.of_nat 0) with elapsed in Hyes
        by (unfold PATH_POLL; lia). congruence.
    + unfold PATH_POLL in *. destruct Hle as [?|Hle]; lia.
  - destruct k as [|k].
    + replace (elapsed + PATH_POLL * Z.of_nat 0) with elapsed in Hyes
        by (unfold PATH_POLL; lia). congruence.
    + match goal with IH : forall k : nat, _ |- _ => rewrite (IH k) end.
      * f_equal. unfold PATH_POLL. lia.
      * intros j Hj. specialize (Hno (S j) ltac:(lia)).
        replace (elapsed + PATH_POLL + PATH_POLL * Z.of_nat j)
          with (elapsed + PATH_POLL * Z.of_nat (S j)) by (unfold PATH_POLL; lia). done.
      * replace (elapsed + PATH_POLL + PATH_POLL * Z.of_nat k)
          with (elapsed + PATH_POLL * Z.of_nat (S k)) by (unfold PATH_POLL; lia). done.
      * right. destruct Hle as [?|Hle]; [lia|]. unfold PATH_POLL in *. lia.
Qed.

(** X13: the path wait of [start] finds the path at the first poll at
    which it is known. If [has_path] first answers true at the [k]-th poll
    (polls are 0.5 s apart, the first right away) and that poll is not
    later than the timeout, the wait ends then, and [start] opens the
    listener and serves. *)
Theorem path_found_at_first_poll (TRUNCATED_HASHLENGTH : nat) (cfg : config)
    (path_at : Z -> bool) (w : world) (h : bytes) (k : nat) :
  parse_destination_hash TRUNCATED_HASHLENGTH (server_destination_hash cfg) = HashOk h ->
  (forall j : nat, (j < k)%nat -> path_at (PATH_POLL * Z.of_nat j) = false) ->
  path_at (PATH_POLL * Z.of_nat k) = true ->
  (k = 0%nat \/ PATH_POLL * Z.of_nat k <= path_request_timeout cfg) ->
  wait_for_path (path_request_timeout cfg) path_at 0 = PathFound (PATH_POLL * Z.of_nat k)
  /\ (start TRUNCATED_HASHLENGTH cfg path_at w).1 = Serving h
  /\ listen_sock (start TRUNCATED_HASHLENGTH cfg path_at w).2 = true
  /\ trace (start TRUNCATED_HASHLENGTH cfg path_at w).2
     = trace w ++ [EvReticulumInit]
       ++ (if path_at 0 then [] else [EvRequestPath])
       ++ [EvListenerOpen; EvListenerBind].
Proof.
  intros Hh Hno Hyes Hle.
  pose proof (wait_for_path_finds (path_request_timeout cfg) path_at 0 k) as W.
  cbn [Z.add] in W. specialize (W Hno Hyes Hle).
  split; [done|]. unfold start. rewrite Hh.
  destruct (path_at 0) eqn:P0; [|rewrite W]; cbn; rewrite <- !app_assoc; done.
Qed.

Lemma wait_for_path_gives_up (timeout : Z) (path_at : Z -> bool) (elapsed : Z) :
  path_at elapsed = false ->
  (forall j : nat, elapsed + PATH_POLL * Z.of_nat j <= timeout ->
                   path_at (elapsed + PATH_POLL * Z.of_nat j) = false) ->
  exists k : nat,
    wait_for_path timeout path_at elapsed
    = PathTimeout (elapsed + PATH_POLL * Z.of_nat (S k))
    /\ timeout < elapsed + PATH_POLL * Z.of_nat (S k)
    /\ (k = 0%nat \/ elapsed + PATH_POLL * Z.of_nat k <= timeout).
Proof.
  funelim (wait_for_path timeout path_at elapsed); intros H0 Hno.
  - congruence.
  - exists 0%nat. unfold PATH_POLL in *. split; [f_equal; lia|]. split; [lia|by left].
  - match goal with IH : _ -> _ -> exists _, _ |- _ => destruct IH as (k & -> & H1 & H2) end.
    + specialize (Hno 1%nat). unfold PATH_POLL in *.
      replace (elapsed + 500 * Z.of_nat 1) with (elapsed + 500) in Hno by lia.
      apply Hno. lia.
    + intros j Hj. specialize (Hno (S j)). unfold PATH_POLL in *.
      replace (elapsed + 500 + 500 * Z.of_nat j)
        with (elapsed + 500 * Z.of_nat (S j)) by lia. apply Hno. lia.
    + exists (S k). unfold PATH_POLL in *. split; [f_equal; lia|]. split; [lia|].
      right. destruct H2 as [->|H2]; lia.
Qed.

(** X14: when the path wait gives up. If [has_path] answers false at
    every poll up to the timeout (and at the first poll, which is made
    whatever the timeout is), the wait gives up at the first poll time
    after the timeout: after one sleep when the timeout is negative or
    shorter than the polling interval, else one poll after the last poll
    within the timeout. What [has_path] would answer after the timeout is
    never asked: the deadline is tested first. *)
Theorem path_wait_gives_up_after_timeout (timeout : Z) (path_at : Z -> bool) :
  path_at 0 = false ->
  (forall j : nat, PATH_POLL * Z.of_nat j <= timeout ->
                   path_at (PATH_POLL * Z.of_nat j) = false) ->
  exists k : nat,
    wait_for_path timeout path_at 0 = PathTimeout (PATH_POLL * Z.of_nat (S k))
    /\ timeout < PATH_POLL * Z.of_nat (S k)
    /\ (k = 0%nat \/ PATH_POLL * Z.of_nat k <= timeout).
Proof.
  intros H0 Hno. exact (wait_for_path_gives_up timeout path_at 0 H0 Hno).
Qed.

(** ** Destination hashes that [bytes.fromhex] reads *)

Lemma fromhex_shape (n : nat) (s : string) (bs : bytes) :
  (String.length s <= n)%nat -> fromhex s = Some bs ->
  hex_or_space s = true
  /\ String.length s = (2 * length bs + count_spaces s)%nat.
Proof.
  revert s bs. induction n as [|n IH]; intros s bs Hl H.
  - destruct s; [|cbn in Hl; lia]. cbn in H. injection H as <-. done.
  - destruct s as [|a r]; [cbn in H; injection H as <-; done|].
    cbn [fromhex] in H. cbn [hex_or_space count_spaces String.length].
    destruct (is_ascii_space a) eqn:Sa.
    + destruct (IH r bs) as [I1 I2]; [cbn in Hl; lia|done|].
      cbn. rewrite I1. split; [done|lia].
    + destruct r as [|b r']; [done|].
      destruct (hex_digit a) as [va|] eqn:Ha; [|done].
      destruct (hex_digit b) as [vb|] eqn:Hb; [|done].
      destruct (fromhex r') as [bs'|] eqn:Hr; [|done]. injection H as <-.
      destruct (hex_digit_plain b vb Hb) as (_ & _ & Sb).
      destruct (IH r' bs') as [I1 I2]; [cbn in Hl; lia|done|].
      cbn [hex_or_space count_spaces String.length length]. rewrite Sb, Hb, I1.
      cbn. split; [done|lia].
Qed.

(** X15: a configured hash of the right length with a character that is
    neither a hexadecimal digit nor whitespace passes the length check and
    makes [bytes.fromhex] raise: [start] ends in an uncaught [ValueError]
    (exit status 1), before the transport is initialised and before any
    listener exists. *)
Theorem start_rejects_non_hex (TRUNCATED_HASHLENGTH : nat) (cfg : config)
    (path_at : Z -> bool) (w : world) :
  String.length (remove_char " " (remove_char ":" (server_destination_hash cfg)))
  = (TRUNCATED_HASHLENGTH / 8 * 2)%nat ->
  hex_or_space (remove_char " " (remove_char ":" (server_destination_hash cfg))) = false ->
  (start TRUNCATED_HASHLENGTH cfg path_at w).1 = UncaughtValueError
  /\ exit_status (start TRUNCATED_HASHLENGTH cfg path_at w).1 = Some 1
  /\ trace (start TRUNCATED_HASHLENGTH cfg path_at w).2 = trace w
  /\ listen_sock (start TRUNCATED_HASHLENGTH cfg path_at w).2 = listen_sock w.
Proof.
  intros Hl Hx. unfold start, parse_destination_hash. cbn zeta.
  rewrite Hl, Nat.eqb_refl. cbn [negb].
  destruct (fromhex _) as [bs|] eqn:F; [|done].
  destruct (fromhex_shape _ _ bs (le_n _) F) as [H _]. congruence.
Qed.

(** X16: how many bytes an accepted destination hash has. When [start]
    accepts the configured hash, twice the number of bytes plus the number
    of whitespace characters left in it (tabs, newlines: [":"] and [" "]
    are gone by then) is the expected number of hex characters. So the
    hash has the full [TRUNCATED_HASHLENGTH // 8] bytes exactly when no
    such character is left; each pair of them makes it one byte shorter. *)
Theorem accepted_hash_length (TRUNCATED_HASHLENGTH : nat) (configured : string)
    (h : bytes) :
  parse_destination_hash TRUNCATED_HASHLENGTH configured = HashOk h ->
  (2 * length h
   + count_spaces (remove_char " " (remove_char ":" configured))
   = TRUNCATED_HASHLENGTH / 8 * 2)%nat
  /\ hex_or_space (remove_char " " (remove_char ":" configured)) = true.
Proof.
  unfold parse_destination_hash. cbn zeta.
  destruct (String.length _ =? _)%nat eqn:L; cbn [negb]; [|done].
  apply Nat.eqb_eq in L.
  destruct (fromhex _) as [bs|] eqn:F; [|done]. intros [= <-].
  destruct (fromhex_shape _ _ bs (le_n _) F) as [H1 H2]. split; [lia|done].
Qed.

(** ** Configuration *)

Lemma lookup_update (sec d : gmap string value) (k : string) :
  (sec ∪ d) !! k = match sec !! k with
                   | Some v => Some v
                   | None => d !! k
                   end.
Proof.
  destruct (sec !! k) as [v|] eqn:E.
  - by apply lookup_union_Some_l.
  - by apply lookup_union_r.
Qed.

(** X17: which value an entry of the ingress configuration has. With a
    configuration file that has a [client] section [sec], when [__init__]
    returns, every entry other than the destination hash has the value
    from [sec] if [sec] gives one and the default otherwise; the
    destination hash is the command-line override when that is a non-empty
    string, else the one of [sec]; and it is never empty or [None]. *)
Theorem client_init_precedence (data : gmap string (option (gmap string value)))
    (sec : gmap string value) (override : option string) (cfg : gmap string value) :
  data !! "client"%string = Some (Some sec) ->
  client_init (Some (Some data)) override = InitOk cfg ->
  (forall k : string, k <> "server_destination_hash"%string ->
     cfg !! k = match sec !! k with
                | Some v => Some v
                | None => CLIENT_DEFAULT_CONFIG !! k
                end)
  /\ cfg !! "server_destination_hash"%string
     = match effective_override override with
       | Some o => Some (VStr o)
       | None => sec !! "server_destination_hash"%string
       end
  /\ get_truthy cfg "server_destination_hash" = true.
Proof.
  intros Hsec. unfold client_init, merge_config, load_config, dict_update.
  rewrite Hsec. cbn zeta.
  match goal with |- context [if negb (get_truthy ?c _) then _ else _] => set (cfg2 := c) end.
  destruct (get_truthy cfg2 "server_destination_hash") eqn:T; cbn [negb]; [|done].
  intros [= <-]. split; [|split; [|done]].
  - intros k Hk. unfold cfg2. destruct override as [o|]; [|apply lookup_update].
    cbn. case_bool_decide; [apply lookup_update|].
    rewrite lookup_insert_ne by done. apply lookup_update.
  - unfold cfg2, effective_override. destruct override as [o|].
    + case_bool_decide.
      * subst o. rewrite lookup_update.
        destruct (sec !! "server_destination_hash"%string) eqn:E; [done|].
        exfalso. unfold get_truthy, cfg2 in T. cbn in T.
        rewrite lookup_update, E in T. by vm_compute in T.
      * by rewrite lookup_insert_eq.
    + rewrite lookup_update.
      destruct (sec !! "server_destination_hash"%string) eqn:E; [done|].
      exfalso. unfold get_truthy, cfg2 in T. rewrite lookup_update, E in T.
      by vm_compute in T.
Qed.

(** X18: when the ingress [__init__] gives up. With no configuration
    file, or one whose [client] section is [sec] (an absent section counts
    as an empty one), [__init__] leaves by [sys.exit(1)] exactly when there
    is no non-empty override and [sec] gives no destination hash that is
    true in Python's sense (absent, [None] and the empty string are not);
    in every other case it returns a configuration. *)
Theorem client_init_exit (config_file : option yaml_doc) (sec : gmap string value)
    (override : option string) :
  merge_config CLIENT_DEFAULT_CONFIG "client" config_file
  = Ok (sec ∪ CLIENT_DEFAULT_CONFIG) ->
  (client_init config_file override = InitExit 1
   <-> effective_override override = None
       /\ get_truthy sec "server_destination_hash" = false)
  /\ (client_init config_file override <> InitExit 1 ->
      exists cfg, client_init config_file override = InitOk cfg).
Proof.
  intros M. unfold client_init. rewrite M. cbn zeta.
  assert (G : get_truthy (sec ∪ CLIENT_DEFAULT_CONFIG) "server_destination_hash"
              = get_truthy sec "server_destination_hash").
  { unfold get_truthy. rewrite lookup_update.
    by destruct (sec !! "server_destination_hash"%string). }
  unfold effective_override. destruct override as [o|].
  - case_bool_decide.
    + rewrite G. destruct (get_truthy sec _); cbn [negb].
      * split; [split; [done|by intros [_ ?]]|]. intros _. by eexists.
      * split; [done|]. by intros [].
    + assert (T : get_truthy (<["server_destination_hash"%string := VStr o]>
                                (sec ∪ CLIENT_DEFAULT_CONFIG)) "server_destination_hash"
                  = true).
      { unfold get_truthy. rewrite lookup_insert_eq. cbn. by rewrite bool_decide_eq_false_2. }
      rewrite T. cbn [negb]. split; [split; [done|by intros [? _]]|]. intros _. by eexists.
  - rewrite G. destruct (get_truthy sec _); cbn [negb].
    + split; [split; [done|by intros [_ ?]]|]. intros _. by eexists.
    + split; [done|]. by intros [].
Qed.

(** X19: how a configuration file reaches either [__init__]. A file
    without the section of the role gives the defaults, as no file does;
    an empty file, or a section without entries, ends [__init__] in an
    uncaught exception instead of falling back to the defaults; and with
    a section [sec] the egress configuration has, entry by entry, the
    value of [sec] if there is one and the default otherwise. *)
Theorem merge_config_cases (defaults : gmap string value) (section : string)
    (data : gmap string (option (gmap string value))) (sec : gmap string value) :
  (data !! section = None ->
   merge_config defaults section (Some (Some data)) = merge_config defaults section None
   /\ merge_config defaults section None = Ok defaults)
  /\ merge_config defaults section (Some None) = Raise
  /\ (data !! section = Some None ->
      merge_config defaults section (Some (Some data)) = Raise)
  /\ (data !! section = Some (Some sec) ->
      exists cfg, merge_config defaults section (Some (Some data)) = Ok cfg
                  /\ forall k, cfg !! k = match sec !! k with
                                          | Some v => Some v
                                          | None => defaults !! k
                                          end)
  /\ client_init (Some None) None = InitUncaught
  /\ server_init (Some None) = InitUncaught
  /\ server_init None = InitOk SERVER_DEFAULT_CONFIG.
Proof.
  unfold merge_config, load_config, dict_update.
  split; [intros ->; by rewrite (left_id_L ∅ (∪))|].
  split; [done|]. split; [by intros ->|]. split; [|done].
  intros ->. eexists. split; [done|]. intros k. apply lookup_update.
Qed.

(** ** Egress announces *)

Lemma announce_step_pos (p : positive) (k : nat) (e : Z) :
  e + Z.pos p <= e + Z.pos p * Z.of_nat (S k).
Proof.
  assert (0 <= Z.pos p * Z.of_nat k) by (apply Z.mul_nonneg_nonneg; lia).
  rewrite Nat2Z.inj_succ, Z.mul_succ_r. lia.
Qed.

Lemma announce_step_succ (p : positive) (k : nat) (e : Z) :
  e + Z.pos p * Z.of_nat (S (S k)) = e + Z.pos p + Z.pos p * Z.of_nat (S k).
Proof. rewrite (Nat2Z.inj_succ (S k)), Z.mul_succ_r. lia. Qed.

Lemma announce_loop_times (interval : positive) (stop_at elapsed t : Z) :
  t ∈ announce_loop interval stop_at elapsed
  <-> exists k : nat, t = elapsed + Z.pos interval * Z.of_nat (S k) /\ t < stop_at.
Proof.
  revert t. funelim (announce_loop interval stop_at elapsed); intros t.
  - split; [intros Hin; by apply elem_of_nil in Hin|].
    intros (k & -> & Hlt). exfalso.
    pose proof (announce_step_pos interval k elapsed). lia.
  - rewrite elem_of_cons.
    match goal with IH : forall t : Z, _ <-> _ |- _ => rewrite IH end.
    split.
    + intros [->|(k & -> & Hlt)].
      * exists 0%nat. split; [lia|done].
      * exists (S k). split; [|done]. by rewrite announce_step_succ.
    + intros (k & -> & Hlt). destruct k as [|k]; [left; lia|].
      right. exists k. split; [|done]. by rewrite announce_step_succ.
  - match goal with IH : forall t : Z, _ <-> _ |- _ => rewrite IH end.
    split; intros (k & -> & Hlt); exfalso.
    + pose proof (announce_step_pos interval k (elapsed + Z.pos interval)). lia.
    + pose proof (announce_step_pos interval k elapsed). lia.
Qed.

Lemma announce_loop_later (interval : positive) (stop_at elapsed : Z) :
  Forall (Z.lt elapsed) (announce_loop interval stop_at elapsed).
Proof.
  apply Forall_forall. intros t Ht. apply announce_loop_times in Ht as (k & -> & _).
  pose proof (announce_step_pos interval k elapsed). lia.
Qed.

Lemma announce_loop_sorted (interval : positive) (stop_at elapsed : Z) :
  StronglySorted Z.lt (announce_loop interval stop_at elapsed).
Proof.
  funelim (announce_loop interval stop_at elapsed); try constructor; try done.
  apply announce_loop_later.
Qed.

(** X20: when the egress bridge announces. [start] announces once at
    startup, whatever the interval; with an interval greater than 0 the
    announce thread announces at every positive multiple of the interval
    that comes before shutdown and at no other time, so never at or after
    shutdown; with an interval of 0 or less there is no other announce.
    The announces are in order of time and no time occurs twice. *)
Theorem start_announce_times (announce_interval stop_at : Z) :
  (forall t, t ∈ start_announces announce_interval stop_at
             <-> t = 0
                 \/ (0 < announce_interval
                     /\ exists k : nat, t = announce_interval * Z.of_nat (S k)
                                        /\ t < stop_at))
  /\ (announce_interval <= 0 -> start_announces announce_interval stop_at = [0])
  /\ StronglySorted Z.lt (start_announces announce_interval stop_at).
Proof.
  unfold start_announces. split; [|split].
  - intros t. rewrite elem_of_cons. destruct announce_interval as [|p|p].
    + split; [intros [?|Hin]; [by left|by apply elem_of_nil in Hin]|].
      intros [?|[? _]]; [by left|lia].
    + rewrite announce_loop_times. split.
      * intros [?|(k & ? & ?)]; [by left|]. right. split; [lia|]. exists k. split; [lia|done].
      * intros [?|(_ & k & ? & ?)]; [by left|]. right. exists k. split; [lia|done].
    + split; [intros [?|Hin]; [by left|by apply elem_of_nil in Hin]|].
      intros [?|[? _]]; [by left|lia].
  - intros Hle. destruct announce_interval; [done|lia|done].
  - constructor.
    + destruct announce_interval; try constructor. apply announce_loop_sorted.
    + destruct announce_interval as [|p|p]; try constructor.
      apply announce_loop_later.
Qed.

(** ** An invariant of the registry *)

Lemma remove_first_sub (c x : conn_id) (l : list conn_id) :
  x ∈ remove_first c l -> x ∈ l.
Proof.
  induction l as [|y l IH]; [done|]. cbn. destruct (decide (y = c)).
  - apply list_elem_of_further.
  - rewrite !elem_of_cons. intros [?|?]; [by left|right; by apply IH].
Qed.

Lemma remove_first_keeps_NoDup (c : conn_id) (l : list conn_id) :
  NoDup l -> NoDup (remove_first c l).
Proof.
  induction l as [|y l IH]; [done|]. intros ND. apply NoDup_cons in ND as [Hy ND].
  cbn. destruct (decide (y = c)); [done|]. apply NoDup_cons. split; [|by apply IH].
  intros Hin. by apply remove_first_sub in Hin.
Qed.

Lemma registry_ok_steps P (w w' : world) :
  steps P w w' -> registry_ok w -> registry_ok w'.
Proof.
  intros (evs & [C _ F] & _) [ND WF]. split; [by rewrite C|].
  intros c Hc. rewrite C in Hc. destruct (WF c Hc) as [cn E].
  destruct (F c cn E) as (cn' & E' & _). by exists cn'.
Qed.

Lemma registry_ok_same (w w' : world) :
  clients w' = clients w -> conns w' = conns w -> registry_ok w -> registry_ok w'.
Proof. intros C K [ND WF]. split; [by rewrite C|]. intros c. rewrite C, K. apply WF. Qed.

Lemma registry_ok_append (cn : conn) (w w' : world) :
  clients w' = clients w ++ [fresh_id (conns w)] ->
  conns w' = <[fresh_id (conns w) := cn]> (conns w) ->
  registry_ok w -> registry_ok w'.
Proof.
  intros C K [ND WF].
  assert (fresh_id (conns w) ∉ clients w) as Fresh.
  { intros Hin. apply WF in Hin as [cn0 Hin]. by rewrite fresh_id_None in Hin. }
  split.
  - rewrite C. apply NoDup_app. split; [done|]. split; [|apply NoDup_singleton].
    intros x Hx Hx'. apply list_elem_of_singleton in Hx'. by subst.
  - intros c. rewrite C, K, elem_of_app. intros [Hc|Hc].
    + destruct (decide (c = fresh_id (conns w))) as [->|Ne]; [done|].
      rewrite lookup_insert_ne by done. by apply WF.
    + apply list_elem_of_singleton in Hc as ->. by rewrite lookup_insert_eq.
Qed.

Lemma registry_ok_remove (c : conn_id) (w w' : world) :
  clients w' = remove_first c (clients w) -> conns w' = conns w ->
  registry_ok w -> registry_ok w'.
Proof.
  intros C K [ND WF]. split; [rewrite C; by apply remove_first_keeps_NoDup|].
  intros x. rewrite C, K. intros Hx. apply WF. by apply remove_first_sub in Hx.
Qed.

Lemma registry_ok_drain (w : world) : registry_ok (registry_drain w).
Proof.
  split; [apply NoDup_nil_2|]. intros c Hc. by apply elem_of_nil in Hc.
Qed.

Lemma registry_ok_handle_client (known : bool) (env : Z -> list activity)
    (s : sock_id) (w : world) :
  registry_ok w -> registry_ok (IRCClientBridge.handle_client known env s w).
Proof.
  intros OK. unfold IRCClientBridge.handle_client. destruct known; cbn [negb].
  - destruct (IRCClientBridge.handle_client_setup s w) as [c w1] eqn:ES.
    assert (registry_ok w1) as OK1.
    { apply (f_equal snd) in ES. cbn [snd] in ES. subst w1.
      eapply (registry_ok_append _ w); [| |exact OK]; cbn; [done|].
      reflexivity. }
    assert (registry_ok (IRCClientBridge.wait_link env c 0 w1)) as OK2.
    { eapply registry_ok_steps; [apply steps_wait_link|exact OK1]. }
    unfold IRCClientBridge.handle_client_finish.
    destruct (ClientBridgedConnection.is_ready c _); [exact OK2|].
    cbn zeta.
    assert (registry_ok (stop c (IRCClientBridge.wait_link env c 0 w1))) as OK3.
    { eapply registry_ok_steps; [|exact OK2].
      apply (steps_stop (fun _ => true)). done. }
    destruct (bool_decide _).
    + eapply (registry_ok_remove c); [| |exact OK3]; done.
    + eapply registry_ok_same; [| |exact OK3]; done.
  - eapply registry_ok_steps; [|exact OK]. by apply (steps_sock_close (fun _ => true)).
Qed.

Lemma registry_ok_link_established (backend : option socket) (l : link_id) (w : world) :
  registry_ok w -> registry_ok (IRCServerBridge.link_established backend l w).
Proof.
  intros OK. destruct backend as [sk|].
  - destruct (server_established_spec sk l w) as (C & K & _).
    by eapply registry_ok_append.
  - unfold IRCServerBridge.link_established.
    eapply registry_ok_steps; [by apply (steps_link_teardown (fun _ => true))|].
    eapply registry_ok_same; [| |exact OK]; done.
Qed.

Lemma registry_ok_link_closed (l : link_id) (w : world) :
  registry_ok w -> registry_ok (IRCServerBridge.link_closed l w).
Proof.
  intros OK. destruct (IRCServerBridge.find_by_link l (clients w) w) as [c|] eqn:Fd.
  - rewrite (link_closed_found l c w Fd).
    assert (registry_ok (stop c (emit (EvAcquire ClientsLock) w))) as OK1.
    { eapply registry_ok_steps; [by apply (steps_stop (fun _ => true))|].
      eapply registry_ok_same; [| |exact OK]; done. }
    eapply (registry_ok_remove c); [| |exact OK1]; done.
  - unfold IRCServerBridge.link_closed. cbn zeta. cbn [clients emit].
    rewrite (find_by_link_ext l (clients w) w (emit (EvAcquire ClientsLock) w)) by done.
    rewrite Fd. eapply registry_ok_same; [| |exact OK]; done.
Qed.

Lemma registry_ok_run_op (op : bridge_op) (w : world) :
  registry_ok w -> registry_ok (run_op op w).
Proof.
  intros OK. destruct op; cbn [run_op].
  - by apply registry_ok_handle_client.
  - apply registry_ok_drain.
  - by apply registry_ok_link_established.
  - by apply registry_ok_link_closed.
  - apply registry_ok_drain.
  - eapply registry_ok_steps; [apply steps_run_activity|exact OK].
Qed.

(** X21: an invariant of the session registry. Whatever operations of
    the two bridges run one after the other (handlers of accepted
    clients, with anything the callbacks and pump threads do during
    their wait, egress link callbacks, shutdowns, connection-level
    activity), a registry that holds no connection twice and only
    connections that exist is again such a registry after them. *)
Theorem registry_invariant (ops : list bridge_op) (w : world) :
  registry_ok w -> registry_ok (run_ops ops w).
Proof.
  unfold run_ops. revert w. induction ops as [|op ops IH]; intros w OK; [done|].
  cbn [foldl]. apply IH. by apply registry_ok_run_op.
Qed.

(** ** The further properties at concrete sessions *)

Lemma demo_two_NoDup : NoDup (clients demo_world_two).
Proof.
  apply NoDup_cons. split; [|apply NoDup_singleton].
  intros H. apply list_elem_of_singleton in H. discriminate.
Qed.

Lemma demo_two_links (l : link_id) (c : conn_id) (cn : conn) :
  c ∈ clients demo_world_two -> conns demo_world_two !! c = Some cn ->
  link cn = l -> l = c.
Proof.
  intros Hin E <-. apply elem_of_cons in Hin as [->|Hin].
  - vm_compute in E. by injection E as <-.
  - apply list_elem_of_singleton in Hin as ->. vm_compute in E. by injection E as <-.
Qed.

Lemma no_cross_talk_witness :
  (conns (tcp_to_rns_loop 0%nat demo_world_two).2 !! 1%nat = Some demo_conn_b
   /\ socks (tcp_to_rns_loop 0%nat demo_world_two).2 !! tcp_sock demo_conn_b
      = socks demo_world_two !! tcp_sock demo_conn_b)
  /\ (conns (deliver_all 0%nat [[58; 115]%N] demo_world_two) !! 1%nat = Some demo_conn_b
      /\ socks (deliver_all 0%nat [[58; 115]%N] demo_world_two) !! tcp_sock demo_conn_b
         = socks demo_world_two !! tcp_sock demo_conn_b).
Proof.
  apply (no_cross_talk 0%nat 1%nat demo_conn demo_conn_b [[58; 115]%N] demo_world_two);
    [discriminate|reflexivity|reflexivity|discriminate].
Defined.

Lemma link_closed_removes_owner_witness :
  clients (IRCServerBridge.link_closed 1%nat demo_world_two) = [0%nat]
  /\ is_running 1%nat (IRCServerBridge.link_closed 1%nat demo_world_two) = false.
Proof.
  destruct (link_closed_removes_owner 1%nat 1%nat demo_conn_b demo_world_two)
    as (H1 & _ & _ & H4 & _);
    [apply demo_two_NoDup|apply list_elem_of_further, list_elem_of_here
    |reflexivity|reflexivity| |exact (conj H1 H4)].
  intros c0 cn0 Hin Ne E L. apply Ne. symmetry. by eapply demo_two_links.
Defined.

Lemma link_closed_unknown_link_witness :
  clients (IRCServerBridge.link_closed 7%nat demo_world_two) = clients demo_world_two
  /\ trace (IRCServerBridge.link_closed 7%nat demo_world_two)
     = trace demo_world_two ++ [EvAcquire ClientsLock; EvRelease ClientsLock].
Proof.
  destruct (link_closed_unknown_link 7%nat demo_world_two) as (_ & H2 & _ & _ & H5);
    [|exact (conj H2 H5)].
  intros c cn Hin E L. pose proof (demo_two_links _ _ _ Hin E L) as <-.
  apply elem_of_cons in Hin as [?|Hin]; [discriminate|].
  apply list_elem_of_singleton in Hin. discriminate.
Defined.

Lemma link_established_then_closed_witness :
  clients (IRCServerBridge.link_closed 5%nat
             (IRCServerBridge.link_established (Some demo_sock) 5%nat demo_world))
  = clients demo_world
  /\ is_running (fresh_id (conns demo_world))
       (IRCServerBridge.link_closed 5%nat
          (IRCServerBridge.link_established (Some demo_sock) 5%nat demo_world)) = false.
Proof.
  destruct (link_established_then_closed demo_sock 5%nat demo_world)
    as (_ & _ & _ & H4 & H5 & _); [apply demo_registry_wf| |exact (conj H4 H5)].
  intros c cn Hin E L. apply list_elem_of_singleton in Hin as ->.
  vm_compute in E. injection E as <-. discriminate.
Defined.

Lemma handle_client_success_witness :
  clients (IRCClientBridge.handle_client true demo_link_up 5%nat demo_world)
  = clients demo_world ++ [1%nat]
  /\ is_Some (conns (IRCClientBridge.handle_client true demo_link_up 5%nat demo_world)
                !! 1%nat).
Proof.
  destruct (handle_client_success demo_link_up 5%nat demo_world) as (_ & H2 & H3);
    [vm_compute; reflexivity|].
  exact (conj H2 H3).
Defined.

Lemma link_established_after_stop_witness :
  ClientBridgedConnection.is_ready 1%nat
    (ClientBridgedConnection.link_established 1%nat
       (IRCClientBridge.handle_client true demo_link_fails 5%nat demo_world)) = true
  /\ is_running 1%nat
       (ClientBridgedConnection.link_established 1%nat
          (IRCClientBridge.handle_client true demo_link_fails 5%nat demo_world)) = false
  /\ stop 1%nat
       (ClientBridgedConnection.link_established 1%nat
          (IRCClientBridge.handle_client true demo_link_fails 5%nat demo_world))
     = ClientBridgedConnection.link_established 1%nat
         (IRCClientBridge.handle_client true demo_link_fails 5%nat demo_world).
Proof.
  edestruct link_established_after_stop
    with (c := 1%nat)
         (w := IRCClientBridge.handle_client true demo_link_fails 5%nat demo_world)
    as (H1 & H2 & _ & _ & H5 & _); [vm_compute; reflexivity|reflexivity|].
  exact (conj H1 (conj H2 H5)).
Defined.

Lemma sendall_failure_stops_witness :
  is_running 0%nat (remote_sends 0%nat [58; 115]%N demo_world_limited) = false
  /\ socks (remote_sends 0%nat [58; 115]%N demo_world_limited) !! 0%nat
     = Some {| sock_closed := true; sock_in := []; sock_budget := Some 0%nat;
               sock_out := [58%N] |}.
Proof.
  destruct (sendall_failure_stops 0%nat demo_conn new_buffer demo_sock_limited
              [58; 115]%N 1%nat demo_world_limited) as (H1 & H2 & _);
    [reflexivity|reflexivity|reflexivity|reflexivity|reflexivity|reflexivity
    |reflexivity|reflexivity|cbn; lia|].
  exact (conj H1 H2).
Defined.

Lemma pump_channel_failure_witness :
  (tcp_to_rns_loop 0%nat demo_world_broken).1 = PumpRaise
  /\ is_running 0%nat (tcp_to_rns_loop 0%nat demo_world_broken).2 = false.
Proof.
  edestruct pump_channel_failure
    with (c := 0%nat) (cn := demo_conn_broken) (sk := demo_sock)
         (d := [80; 73; 78]%N) (rest := [Data []]) (w := demo_world_broken)
    as (H1 & H2 & _);
    [reflexivity|reflexivity|reflexivity|reflexivity|reflexivity|reflexivity
    |reflexivity|reflexivity|discriminate|].
  exact (conj H1 H2).
Defined.

Lemma stream_transparency_witness :
  (tcp_to_rns_loop 0%nat demo_world).1 = stream_outcome [Data []]
  /\ exists cn' b', conns (tcp_to_rns_loop 0%nat demo_world).2 !! 0%nat = Some cn'
                    /\ buffer cn' = Some b'
                    /\ buf_out b' = buf_out new_buffer ++ concat [[80; 73; 78]%N].
Proof.
  apply (stream_transparency 0%nat demo_conn new_buffer demo_sock
           [[80; 73; 78]%N] [Data []] demo_world);
    [reflexivity|reflexivity|reflexivity|repeat split|reflexivity|reflexivity
    |reflexivity| |exact I].
  apply Forall_cons. split; [discriminate|apply Forall_nil_2].
Defined.

Lemma path_found_at_first_poll_witness :
  wait_for_path 30000 demo_path_at 0 = PathFound 1000
  /\ listen_sock (start 128 (demo_config demo_hash) demo_path_at demo_world).2 = true.
Proof.
  edestruct path_found_at_first_poll
    with (TRUNCATED_HASHLENGTH := 128%nat) (cfg := demo_config demo_hash)
         (path_at := demo_path_at) (w := demo_world) (k := 2%nat)
    as (H1 & _ & H3 & _);
    [vm_compute; reflexivity| |reflexivity|right; vm_compute; discriminate
    |exact (conj H1 H3)].
  intros j Hj. destruct j as [|[|j]]; [reflexivity|reflexivity|lia].
Defined.

Lemma path_wait_gives_up_after_timeout_witness :
  exists k : nat,
    wait_for_path 1200 (fun _ => false) 0 = PathTimeout (PATH_POLL * Z.of_nat (S k))
    /\ 1200 < PATH_POLL * Z.of_nat (S k)
    /\ (k = 0%nat \/ PATH_POLL * Z.of_nat k <= 1200).
Proof.
  apply (path_wait_gives_up_after_timeout 1200 (fun _ => false)); [reflexivity|].
  intros j _. reflexivity.
Defined.

Lemma start_rejects_non_hex_witness :
  (start 128 (demo_config "zz112233445566778899aabbccddeeff") demo_path_at demo_world).1
  = UncaughtValueError
  /\ trace (start 128 (demo_config "zz112233445566778899aabbccddeeff")
              demo_path_at demo_world).2 = trace demo_world.
Proof.
  destruct (start_rejects_non_hex 128 (demo_config "zz112233445566778899aabbccddeeff")
              demo_path_at demo_world) as (H1 & _ & H3 & _);
    [reflexivity|reflexivity|].
  exact (conj H1 H3).
Defined.

Lemma accepted_hash_length_witness :
  exists h, parse_destination_hash 128 demo_hash_tabs = HashOk h
            /\ length h = 15%nat
            /\ count_spaces (remove_char " " (remove_char ":" demo_hash_tabs)) = 2%nat
            /\ (2 * length h
                + count_spaces (remove_char " " (remove_char ":" demo_hash_tabs))
                = 128 / 8 * 2)%nat.
Proof.
  eexists. split; [vm_compute; reflexivity|]. split; [reflexivity|]. split; [reflexivity|].
  eapply proj1. apply (accepted_hash_length 128 demo_hash_tabs). vm_compute. reflexivity.
Defined.

Lemma demo_yaml_client : demo_yaml !! "client"%string = Some (Some demo_section).
Proof. apply lookup_singleton_eq. Qed.

Lemma demo_section_port : demo_section !! "listen_port"%string = Some (VInt 7000).
Proof.
  unfold demo_section. rewrite lookup_insert_ne by discriminate.
  apply lookup_singleton_eq.
Qed.

Lemma client_init_precedence_witness :
  exists cfg, client_init (Some (Some demo_yaml)) (Some "ffeeddccbbaa99887766554433221100"%string)
              = InitOk cfg
              /\ cfg !! "server_destination_hash"%string
                 = Some (VStr "ffeeddccbbaa99887766554433221100")
              /\ cfg !! "listen_port"%string = Some (VInt 7000).
Proof.
  assert (client_init (Some (Some demo_yaml)) (Some "ffeeddccbbaa99887766554433221100"%string)
          = InitOk (<["server_destination_hash"%string
                      := VStr "ffeeddccbbaa99887766554433221100"]>
                      (demo_section ∪ CLIENT_DEFAULT_CONFIG))) as E.
  { unfold client_init, merge_config, load_config, dict_update.
    rewrite demo_yaml_client.     rewrite bool_decide_eq_false_2 by discriminate.
    unfold get_truthy. rewrite lookup_insert_eq. reflexivity. }
  eexists. split; [exact E|].
  destruct (client_init_precedence demo_yaml demo_section
               (Some "ffeeddccbbaa99887766554433221100"%string) _ demo_yaml_client E)
    as (H1 & H2 & _).
  split; [exact H2|].
  rewrite H1 by discriminate. rewrite demo_section_port. reflexivity.
Defined.

Lemma client_init_exit_witness :
  client_init None None = InitExit 1.
Proof.
  edestruct client_init_exit with (config_file := @None yaml_doc)
                                  (sec := (∅ : gmap string value))
                                  (override := @None string) as [[_ H] _].
  { unfold merge_config. by rewrite (left_id_L ∅ (∪)). }
  apply H. split; [reflexivity|reflexivity].
Defined.

Lemma registry_invariant_witness :
  registry_ok
    (run_ops [ClientHandle true demo_link_up 5%nat; ServerLinkEstablished (Some demo_sock) 3%nat;
              Background (PumpRuns 0%nat); ServerLinkClosed 3%nat;
              ClientHandle true demo_link_fails 6%nat; ClientShutdown]
       demo_world).
Proof.
  apply registry_invariant. split.
  - apply NoDup_singleton.
  - intros c Hc. apply list_elem_of_singleton in Hc as ->. by eexists.
Defined.
